(** * A shallow embedding of the Malloc Lab allocator (Malloc_Lab/mm.c)

    The allocator keeps an implicit free list with boundary tags and a
    next-fit cursor.  The heap is modelled as a byte-addressed memory; the
    header and footer of a block are little-endian 32-bit words read and
    written through [GET] and [PUT], exactly as the macros of mm.c do.

    Conventions.
    - Addresses are unbounded integers; [NULL] is address 0.
    - [uint32_t] and [size_t] values are integers in [0, 2^32) and their
      arithmetic wraps modulo 2^32 ([u32]); mm.c itself casts block pointers
      to [uint32_t] in [checkblock], i.e. it targets a 32-bit build.
    - A loop of the source is a [Fixpoint] on a fuel argument; running out of
      fuel is the outcome [OutOfFuel], distinct from every result of the C
      code. *)

From Stdlib Require Import String.
From Stdlib Require Import ZArith List Bool Lia.
Import ListNotations.
Local Open Scope Z_scope.

(* ------------------------------------------------------------------ *)
(** ** Constants and macros *)

Definition WSIZE : Z := 4.
Definition DSIZE : Z := 8.
Definition CHUNKSIZE : Z := Z.shiftl 1 16.
Definition OVERHEAD : Z := 8.
Definition NULL : Z := 0.

Definition u32 (x : Z) : Z := x mod 2 ^ 32.

(** Conversion of a [uint32_t] to the [int] parameter of [mem_sbrk]. *)
Definition to_int (x : Z) : Z := if x <? 2 ^ 31 then x else x - 2 ^ 32.

Definition MAX (x y : Z) : Z := if x >? y then x else y.

Definition PACK (size alloc : Z) : Z := Z.lor size alloc.

(** Memory: the byte stored at each address. *)
Definition memory : Type := Z -> Z.

Definition byte_at (m : memory) (a : Z) : Z := m a mod 256.

(** [GET(p)]: the little-endian 32-bit word at address [p]. *)
Definition GET (m : memory) (p : Z) : Z :=
  byte_at m p + 256 * byte_at m (p + 1)
  + 65536 * byte_at m (p + 2) + 16777216 * byte_at m (p + 3).

(** [PUT(p, val)]: store the low 32 bits of [val] at address [p]. *)
Definition PUT (m : memory) (p val : Z) : memory :=
  fun a =>
    if a =? p then val mod 256
    else if a =? p + 1 then (val / 256) mod 256
    else if a =? p + 2 then (val / 65536) mod 256
    else if a =? p + 3 then (val / 16777216) mod 256
    else m a.

Definition GET_SIZE (m : memory) (p : Z) : Z := Z.land (GET m p) (Z.lnot 7).
Definition GET_ALLOC (m : memory) (p : Z) : Z := Z.land (GET m p) 1.

Definition HDRP (bp : Z) : Z := bp - WSIZE.
Definition FTRP (m : memory) (bp : Z) : Z := bp + GET_SIZE m (HDRP bp) - DSIZE.

Definition NEXT_BLKP (m : memory) (bp : Z) : Z := bp + GET_SIZE m (bp - WSIZE).
Definition PREV_BLKP (m : memory) (bp : Z) : Z := bp - GET_SIZE m (bp - DSIZE).

(** [memcpy(dst, src, n)] on non-overlapping regions. *)
Definition memcpy (m : memory) (dst src n : Z) : memory :=
  fun a => if (dst <=? a) && (a <? dst + n) then m (src + (a - dst)) else m a.

(* ------------------------------------------------------------------ *)
(** ** Allocator state *)

(** The two globals of mm.c, the heap bytes, and the break of the memory
    source. *)
Record state : Type := mkState {
  mem : memory;
  heap_listp : Z;
  next_fit_ptr : Z;
  mem_brk : Z;
  mem_max_addr : Z
}.

Definition set_mem (s : state) (m : memory) : state :=
  mkState m (heap_listp s) (next_fit_ptr s) (mem_brk s) (mem_max_addr s).
Definition set_heap_listp (s : state) (p : Z) : state :=
  mkState (mem s) p (next_fit_ptr s) (mem_brk s) (mem_max_addr s).
Definition set_next_fit_ptr (s : state) (p : Z) : state :=
  mkState (mem s) (heap_listp s) p (mem_brk s) (mem_max_addr s).
Definition set_mem_brk (s : state) (p : Z) : state :=
  mkState (mem s) (heap_listp s) (next_fit_ptr s) p (mem_max_addr s).

(** Results of the functions that loop or may terminate the process. *)
Inductive outcome (A : Type) : Type :=
| Returns (v : A) (s : state)
| Exits (out : string) (status : Z)
| OutOfFuel.
Arguments Returns {A} v s.
Arguments Exits {A} out status.
Arguments OutOfFuel {A}.

(** Modelled from the spec: [mem_sbrk] of memlib.c, which is not part of the
    sources at hand.  Section 6 of the specification describes the memory
    source as a single capability, "extend the managed region by N bytes,
    returning the starting address of the new region or a failure sentinel";
    the sentinel tested by [extend_heap] is [(void * )-1]. *)
Definition mem_sbrk (s : state) (incr : Z) : Z * state :=
  if (incr <? 0) || (mem_brk s + incr >? mem_max_addr s) then (-1, s)
  else (mem_brk s, set_mem_brk s (mem_brk s + incr)).

(* ------------------------------------------------------------------ *)
(** ** The allocator *)

Definition coalesce (s : state) (bp : Z) : Z * state :=
  let m := mem s in
  let prev_alloc := GET_ALLOC m (FTRP m (PREV_BLKP m bp)) in
  let next_alloc := GET_ALLOC m (HDRP (NEXT_BLKP m bp)) in
  let size := GET_SIZE m (HDRP bp) in
  if negb (prev_alloc =? 0) && negb (next_alloc =? 0) then           (* Case 1 *)
    (bp, s)
  else if negb (prev_alloc =? 0) && (next_alloc =? 0) then           (* Case 2 *)
    let size := u32 (size + GET_SIZE m (HDRP (NEXT_BLKP m bp))) in
    let m1 := PUT m (HDRP bp) (PACK size 0) in
    let m2 := PUT m1 (FTRP m1 bp) (PACK size 0) in
    (bp, set_next_fit_ptr (set_mem s m2) bp)
  else if (prev_alloc =? 0) && negb (next_alloc =? 0) then           (* Case 3 *)
    let size := u32 (size + GET_SIZE m (HDRP (PREV_BLKP m bp))) in
    let m1 := PUT m (FTRP m bp) (PACK size 0) in
    let m2 := PUT m1 (HDRP (PREV_BLKP m1 bp)) (PACK size 0) in
    let bp' := PREV_BLKP m2 bp in
    (bp', set_next_fit_ptr (set_mem s m2) bp')
  else                                                               (* Case 4 *)
    let size := u32 (size + u32 (GET_SIZE m (HDRP (PREV_BLKP m bp))
                                 + GET_SIZE m (FTRP m (NEXT_BLKP m bp)))) in
    let m1 := PUT m (HDRP (PREV_BLKP m bp)) (PACK size 0) in
    let m2 := PUT m1 (FTRP m1 (NEXT_BLKP m1 bp)) (PACK size 0) in
    let bp' := PREV_BLKP m2 bp in
    (bp', set_next_fit_ptr (set_mem s m2) bp').

Definition extend_heap_size (words : Z) : Z :=
  if negb (words mod 2 =? 0) then u32 ((words + 1) * WSIZE)
  else u32 (words * WSIZE).

(** The heap right after [extend_heap] has written the tags of the new
    block and the new epilogue, before it calls [coalesce]. *)
Definition extend_heap_format (s : state) (bp size : Z) : state :=
  let m1 := PUT (mem s) (HDRP bp) (PACK size 0) in
  let m2 := PUT m1 (FTRP m1 bp) (PACK size 0) in
  let m3 := PUT m2 (HDRP (NEXT_BLKP m2 bp)) (PACK 0 1) in
  set_mem s m3.

Definition extend_heap (s : state) (words : Z) : Z * state :=
  let size := extend_heap_size words in
  let '(bp, s1) := mem_sbrk s (to_int size) in
  if bp =? -1 then (NULL, s1)
  else coalesce (extend_heap_format s1 bp size) bp.

Definition place (s : state) (bp asize : Z) : state :=
  let m := mem s in
  let csize := GET_SIZE m (HDRP bp) in
  if u32 (csize - asize) >=? DSIZE + OVERHEAD then
    let m1 := PUT m (HDRP bp) (PACK asize 1) in
    let m2 := PUT m1 (FTRP m1 bp) (PACK asize 1) in
    let bp' := NEXT_BLKP m2 bp in
    let m3 := PUT m2 (HDRP bp') (PACK (u32 (csize - asize)) 0) in
    let m4 := PUT m3 (FTRP m3 bp') (PACK (u32 (csize - asize)) 0) in
    set_mem s m4
  else
    let m1 := PUT m (HDRP bp) (PACK csize 1) in
    let m2 := PUT m1 (FTRP m1 bp) (PACK csize 1) in
    set_mem s m2.

(** The [for] loop of [find_fit], started at block [bp]. *)
Fixpoint find_fit_from (fuel : nat) (s : state) (asize bp : Z) : outcome Z :=
  match fuel with
  | O => OutOfFuel
  | S fuel' =>
      if GET_SIZE (mem s) (HDRP bp) >? 0 then
        if (GET_ALLOC (mem s) (HDRP bp) =? 0)
           && (asize <=? GET_SIZE (mem s) (HDRP bp))
        then Returns bp (set_next_fit_ptr s bp)
        else find_fit_from fuel' s asize (NEXT_BLKP (mem s) bp)
      else Returns NULL (set_next_fit_ptr s (heap_listp s))
  end.

Definition find_fit (fuel : nat) (s : state) (asize : Z) : outcome Z :=
  find_fit_from fuel s asize (next_fit_ptr s).

(** The adjusted block size computed at the head of [mm_malloc]. *)
Definition adjusted_size (size : Z) : Z :=
  if size <=? DSIZE then DSIZE + OVERHEAD
  else u32 (DSIZE * (u32 (size + OVERHEAD + (DSIZE - 1)) / DSIZE)).

(** [size] is a [size_t], a value in [0, 2^32): an argument of another
    integer type reaches the function reduced modulo 2^32 ([u32]), so a
    negative argument arrives as a large positive size. *)
Definition mm_malloc (fuel : nat) (s : state) (size : Z) : outcome Z :=
  if size <=? 0 then Returns NULL s
  else
    let asize := adjusted_size size in
    match find_fit fuel s asize with
    | OutOfFuel => OutOfFuel
    | Exits out st => Exits out st
    | Returns bp s1 =>
        if negb (bp =? NULL) then
          let s2 := place s1 bp asize in
          Returns bp (set_next_fit_ptr s2 (NEXT_BLKP (mem s2) bp))
        else
          let extendsize := MAX asize CHUNKSIZE in
          let '(bp, s2) := extend_heap s1 (extendsize / WSIZE) in
          if bp =? NULL then Returns NULL s2
          else
            let s3 := place s2 bp asize in
            Returns bp (set_next_fit_ptr s3 (NEXT_BLKP (mem s3) bp))
    end.

(** The heap when [mm_free] has rewritten header and footer of [bp] as free,
    before it calls [coalesce]. *)
Definition mark_free (s : state) (bp : Z) : state :=
  let m := mem s in
  let size := GET_SIZE m (HDRP bp) in
  let m1 := PUT m (HDRP bp) (PACK size 0) in
  let m2 := PUT m1 (FTRP m1 bp) (PACK size 0) in
  set_mem s m2.

Definition mm_free (s : state) (bp : Z) : state :=
  snd (coalesce (mark_free s bp) bp).

(** The line [mm_realloc] prints before it calls [exit(1)]. *)
Definition realloc_failed : string := "ERROR: mm_malloc failed in mm_realloc
".

(** The number of bytes [mm_realloc] hands to [memcpy]. *)
Definition realloc_copy_size (m : memory) (ptr size : Z) : Z :=
  let copySize := GET_SIZE m (HDRP ptr) in
  if size <? copySize then size else copySize.

Definition mm_realloc (fuel : nat) (s : state) (ptr size : Z) : outcome Z :=
  match mm_malloc fuel s size with
  | OutOfFuel => OutOfFuel
  | Exits out st => Exits out st
  | Returns newp s1 =>
      if newp =? NULL then
        Exits realloc_failed 1
      else
        let copySize := realloc_copy_size (mem s1) ptr size in
        let s2 := set_mem s1 (memcpy (mem s1) newp ptr copySize) in
        Returns newp (mm_free s2 ptr)
  end.

(** [mm_init] tests the result of its [mem_sbrk] against NULL, as mm.c does,
    and not against the sentinel [(void * )-1] of a failing [mem_sbrk].  Where
    that first call fails, the C program goes on to store through the
    sentinel; the stores at address -1 that the definition makes there say
    nothing about the program, and every statement about [mm_init] is made
    for a first call that succeeds. *)
Definition mm_init (s : state) : Z * state :=
  let '(p, s1) := mem_sbrk s (4 * WSIZE) in
  let s2 := set_heap_listp s1 p in
  if p =? NULL then (-1, s2)
  else
    let m1 := PUT (mem s2) (heap_listp s2) 0 in
    let m2 := PUT m1 (heap_listp s2 + WSIZE) (PACK OVERHEAD 1) in
    let s3 := set_heap_listp (set_mem s2 m2) (heap_listp s2 + DSIZE) in
    let m3 := PUT (mem s3) (heap_listp s3) (PACK OVERHEAD 1) in
    let m4 := PUT m3 (heap_listp s3 + WSIZE) (PACK 0 1) in
    let s4 := set_next_fit_ptr (set_mem s3 m4) (heap_listp s3) in
    let '(bp, s5) := extend_heap s4 (CHUNKSIZE / WSIZE) in
    if bp =? NULL then (-1, s5) else (0, s5).

(** The walk of [mm_checkheap]: the block pointers visited from [bp] up to,
    and excluding, the first block of size zero. *)
Fixpoint heap_walk (fuel : nat) (m : memory) (bp : Z) : option (list Z) :=
  match fuel with
  | O => None
  | S fuel' =>
      if GET_SIZE m (HDRP bp) >? 0 then
        match heap_walk fuel' m (NEXT_BLKP m bp) with
        | Some l => Some (bp :: l)
        | None => None
        end
      else Some []
  end.


(* ------------------------------------------------------------------ *)
(** ** Block lists and the heap invariant *)

(** A block as the walk of the heap sees it: its block pointer, its size
    (header and footer included) and its allocated bit. *)
Record blk : Type := mkBlk { baddr : Z; bsize : Z; balloc : bool }.

(** The word [PACK(size, alloc)] of a block. *)
Definition tagw (b : blk) : Z := PACK (bsize b) (Z.b2z (balloc b)).

(** Header and footer of [b] both hold the tag of [b]. *)
Definition tagged (m : memory) (b : blk) : Prop :=
  GET m (baddr b - 4) = tagw b /\ GET m (baddr b + bsize b - 8) = tagw b.

(** [chain p bs q]: the blocks [bs] lie back to back from [p] to [q], each
    with a size that is a multiple of 8 and at least 8. *)
Fixpoint chain (p : Z) (bs : list blk) (q : Z) : Prop :=
  match bs with
  | [] => p = q
  | b :: tl =>
      baddr b = p /\ 8 <= bsize b /\ bsize b mod 8 = 0
      /\ chain (p + bsize b) tl q
  end.

(** No two neighbours of the list are both free. *)
Fixpoint naf (bs : list blk) : Prop :=
  match bs with
  | [] => True
  | b :: tl =>
      match tl with
      | [] => True
      | b' :: _ => balloc b = true \/ balloc b' = true
      end /\ naf tl
  end.

(** The heap bytes from [hl] to the break spell out the blocks [bs], followed
    by the epilogue header [PACK(0, 1)]. *)
Definition heap_mem (m : memory) (hl brk : Z) (bs : list blk) : Prop :=
  chain hl bs brk /\ Forall (tagged m) bs /\ GET m (brk - 4) = 1.

(** The cursor is the pointer of a listed block or of the epilogue. *)
Definition cursor_ok (bs : list blk) (brk c : Z) : Prop :=
  (exists b, In b bs /\ c = baddr b) \/ c = brk.

(** State [s] holds the block list [bs]: the list starts with the prologue
    at [heap_listp], the memory spells it out up to the break, the cursor is
    on a block boundary, and all addresses fit 32 bits. *)
Record heap_shape (s : state) (bs : list blk) : Prop := {
  hs_prologue : exists rest, bs = mkBlk (heap_listp s) 8 true :: rest;
  hs_mem : heap_mem (mem s) (heap_listp s) (mem_brk s) bs;
  hs_cursor : cursor_ok bs (mem_brk s) (next_fit_ptr s);
  hs_low : 4 <= heap_listp s;
  hs_high : mem_brk s <= mem_max_addr s /\ mem_max_addr s < 2 ^ 32
}.

Definition heap_rep (s : state) (bs : list blk) : Prop :=
  heap_shape s bs /\ naf bs.

(** The heap invariant of the allocator. *)
Definition heap_ok (s : state) : Prop := exists bs, heap_rep s bs.

(* ------------------------------------------------------------------ *)
(** ** Notions used by the proofs *)

(** [m'] differs from [m] at most on the bytes [lo, hi). *)
Definition same_outside (m m' : memory) (lo hi : Z) : Prop :=
  forall a, a < lo \/ hi <= a -> m' a = m a.

(** The two stores "PUT(HDRP(bp), PACK(size, a)); PUT(FTRP(bp), PACK(size, a))". *)
Definition put_tags (m : memory) (bp sz a : Z) : memory :=
  PUT (PUT m (bp - 4) (PACK sz a)) (bp + sz - 8) (PACK sz a).

(** The blocks that [place] makes of the free block [c]. *)
Definition place_blocks (c : blk) (asize : Z) : list blk :=
  if bsize c - asize >=? DSIZE + OVERHEAD
  then [mkBlk (baddr c) asize true; mkBlk (baddr c + asize) (bsize c - asize) false]
  else [mkBlk (baddr c) (bsize c) true].

(** The allocated bit that [coalesce] reads behind a block followed by the
    blocks [l]: that of the head of [l], or of the epilogue. *)
Definition next_allocated (l : list blk) : bool :=
  match l with [] => true | n :: _ => balloc n end.

Definition freed (b : blk) : blk := mkBlk (baddr b) (bsize b) false.

Definition fits_blk (asize : Z) (b : blk) : Prop :=
  balloc b = false /\ asize <= bsize b.

(** What [coalesce] achieves on a heap whose only possible defect is that the
    free block [c] has free neighbours. *)
Definition coalesced (s s' : state) (bs bs' : list blk) (c f : blk) (r : Z) : Prop :=
  heap_rep s' bs'
  /\ r = baddr f /\ In f bs' /\ balloc f = false
  /\ baddr f <= baddr c /\ baddr c + bsize c <= baddr f + bsize f
  /\ same_outside (mem s) (mem s') (baddr f - 4) (baddr f + bsize f - 4)
  /\ (forall x, In x bs -> balloc x = true -> In x bs')
  /\ (forall x, In x bs' -> x = f \/ In x bs)
  /\ heap_listp s' = heap_listp s /\ mem_brk s' = mem_brk s
  /\ mem_max_addr s' = mem_max_addr s.

(** A block of the old heap kept by an operation: still listed, not the
    block handed out, and with every byte of its extent unchanged. *)
Definition kept (s s' : state) (bs' : list blk) (a x : blk) : Prop :=
  In x bs' /\ x <> a
  /\ forall addr, baddr x - 4 <= addr < baddr x + bsize x - 4 ->
                  mem s' addr = mem s addr.

(** A successful allocation: the block [a] at [p] is listed and allocated,
    large enough, and every block allocated before is kept. *)
Definition malloc_ok (s s' : state) (bs : list blk) (asize p : Z) : Prop :=
  exists bs' a,
    heap_rep s' bs' /\ In a bs' /\ baddr a = p /\ balloc a = true
    /\ asize <= bsize a
    /\ (forall x, In x bs -> balloc x = true -> kept s s' bs' a x)
    /\ heap_listp s' = heap_listp s /\ mem_max_addr s' = mem_max_addr s.

(** What a returning [mm_realloc] has done. *)
Definition realloc_ok (s s' : state) (b : blk) (size p : Z) : Prop :=
  exists bs' a f,
    heap_rep s' bs'
    /\ In a bs' /\ baddr a = p /\ balloc a = true
    /\ adjusted_size size <= bsize a
    /\ (forall i, 0 <= i < Z.min size (bsize b - 8) ->
                  mem s' (p + i) = mem s (baddr b + i))
    /\ In f bs' /\ balloc f = false
    /\ baddr f <= baddr b /\ baddr b + bsize b <= baddr f + bsize f
    /\ heap_listp s' = heap_listp s.

(** Fuel that lets the loops walk the whole heap: a block takes 8 bytes at
    least. *)
Definition enough_fuel (s : state) (fuel : nat) : Prop :=
  mem_brk s - heap_listp s <= Z.of_nat fuel.

Definition heap_fuel (s : state) : nat := Z.to_nat (mem_brk s - heap_listp s).

(* ------------------------------------------------------------------ *)
(** ** Properties of a heap, read off the walk of [mm_checkheap] *)

(** [walked s l]: the loop of [mm_checkheap] visits exactly the block
    pointers [l], prologue first, and stops at a block of size zero. *)
Definition walked (s : state) (l : list Z) : Prop :=
  exists fuel, heap_walk fuel (mem s) (heap_listp s) = Some l.

(** The test of [checkblock], on every block of the walk. *)
Definition headers_match_footers (s : state) : Prop :=
  exists l, walked s l
    /\ forall bp, In bp l ->
         GET (mem s) (HDRP bp) = GET (mem s) (FTRP (mem s) bp).

(** No block of the walk is free together with the block after it. *)
Definition no_adjacent_free (s : state) : Prop :=
  exists l, walked s l
    /\ forall bp, In bp l -> GET_ALLOC (mem s) (HDRP bp) = 0 ->
         GET_ALLOC (mem s) (HDRP (NEXT_BLKP (mem s) bp)) <> 0.

(** [bp] is a block handed out by the allocator and not yet freed: a block
    of the walk other than the prologue, with the allocated bit set. *)
Definition allocated_block (s : state) (bp : Z) : Prop :=
  exists l, walked s l /\ In bp l /\ bp <> heap_listp s
            /\ GET_ALLOC (mem s) (HDRP bp) = 1.

(** [r] is a free block of the walk that covers the block pointers
    [lo, hi). *)
Definition free_block_at (s : state) (r lo hi : Z) : Prop :=
  exists l, walked s l /\ In r l /\ GET_ALLOC (mem s) (HDRP r) = 0
            /\ r <= lo /\ hi <= r + GET_SIZE (mem s) (HDRP r).

(** The block reached from [bp] by [n] steps of [NEXT_BLKP]. *)
Fixpoint nth_block (m : memory) (bp : Z) (n : nat) : Z :=
  match n with
  | O => bp
  | S k => nth_block m (NEXT_BLKP m bp) k
  end.

(** The test of the loop body of [find_fit]. *)
Definition fits (m : memory) (asize bp : Z) : Prop :=
  GET_ALLOC m (HDRP bp) = 0 /\ asize <= GET_SIZE m (HDRP bp).

(** The first block after the prologue. *)
Definition first_real_block (s : state) : Z := NEXT_BLKP (mem s) (heap_listp s).

(** What a search of [find_fit] for [asize] bytes does on heap [s]: it passes
    [n] blocks from the cursor on, none of them free and large enough, and
    then either returns block [n] and makes it the cursor, or finds block [n]
    to be the epilogue, resets the cursor to [heap_listp] and returns NULL. *)
Definition next_fit_scan (fuel : nat) (s : state) (asize : Z) : Prop :=
  exists n,
    (forall k, (k < n)%nat ->
       0 < GET_SIZE (mem s) (HDRP (nth_block (mem s) (next_fit_ptr s) k))
       /\ ~ fits (mem s) asize (nth_block (mem s) (next_fit_ptr s) k))
    /\ let q := nth_block (mem s) (next_fit_ptr s) n in
       (0 < GET_SIZE (mem s) (HDRP q) /\ fits (mem s) asize q
        /\ find_fit fuel s asize = Returns q (set_next_fit_ptr s q))
       \/ (GET_SIZE (mem s) (HDRP q) = 0
           /\ find_fit fuel s asize
              = Returns NULL (set_next_fit_ptr s (heap_listp s))
           /\ GET (mem s) (HDRP (heap_listp s)) = PACK OVERHEAD 1
           /\ first_real_block s = heap_listp s + DSIZE).

(** What [coalesce] does for the block [bp] of [size] bytes that has just
    become free in heap [s]: the heap it leaves is well formed; the pointer it
    returns is a free block of that heap which covers [bp]; with both
    neighbours allocated (case 1) that block is [bp] itself and the state,
    cursor included, is untouched; in the other three cases the cursor is the
    returned block. *)
Definition coalesce_outcome (s : state) (bp size : Z) : Prop :=
  let prev_alloc := GET_ALLOC (mem s) (FTRP (mem s) (PREV_BLKP (mem s) bp)) in
  let next_alloc := GET_ALLOC (mem s) (HDRP (NEXT_BLKP (mem s) bp)) in
  let r := fst (coalesce s bp) in
  let s' := snd (coalesce s bp) in
  heap_ok s'
  /\ free_block_at s' r bp (bp + size)
  /\ (prev_alloc <> 0 /\ next_alloc <> 0 -> r = bp /\ s' = s)
  /\ (prev_alloc = 0 \/ next_alloc = 0 -> next_fit_ptr s' = r).

(** What [mm_realloc] does with a live block [ptr] and a request of [size]
    bytes: either the inner [mm_malloc] returns NULL and the process prints
    its error line and exits, or [mm_realloc] returns the pointer [p] that
    [mm_malloc] returned, [p] is an allocated block with room for [size]
    bytes, the first [min(size, old payload size)] bytes at [p] are the bytes
    that were at [ptr], and [ptr] lies in a free block: the state is that of
    [mm_free(ptr)] called after the copy. *)
Definition realloc_outcome (fuel : nat) (s : state) (ptr size : Z) : Prop :=
  (mm_realloc fuel s ptr size = Exits realloc_failed 1
   /\ exists s1, mm_malloc fuel s size = Returns NULL s1)
  \/ (exists p s1 s',
        mm_malloc fuel s size = Returns p s1 /\ p <> NULL
        /\ mm_realloc fuel s ptr size = Returns p s'
        /\ s' = mm_free
                  (set_mem s1 (memcpy (mem s1) p ptr
                                 (realloc_copy_size (mem s1) ptr size)))
                  ptr
        /\ heap_ok s' /\ allocated_block s' p
        /\ size + OVERHEAD <= GET_SIZE (mem s') (HDRP p)
        /\ (forall i,
               0 <= i < Z.min size (GET_SIZE (mem s) (HDRP ptr) - OVERHEAD) ->
               mem s' (p + i) = mem s (ptr + i))
        /\ exists r,
             free_block_at s' r ptr (ptr + GET_SIZE (mem s) (HDRP ptr))).

(* ------------------------------------------------------------------ *)
(** ** Heaps built by a client that respects the interface *)

(** What [mm_init] needs from the memory source: a start address other than
    NULL, room for the 16 bytes of padding, prologue and epilogue and for the
    first chunk, and a 32-bit address space. *)
Definition init_room (s : state) : Prop :=
  0 < mem_brk s /\ mem_brk s + 4 * WSIZE + CHUNKSIZE <= mem_max_addr s
  /\ mem_max_addr s < 2 ^ 32.

(** The largest request whose adjusted size fits 32 bits. *)
Definition MAX_REQUEST : Z := 2 ^ 32 - 16.

(** States reached from [mm_init] by calls whose arguments respect the
    interface: request sizes up to [MAX_REQUEST], and pointers to blocks that
    are allocated at the time of the call. *)
Inductive reachable : state -> Prop :=
| reach_init (s : state) :
    init_room s -> reachable (snd (mm_init s))
| reach_malloc (s : state) (fuel : nat) (size p : Z) (s' : state) :
    reachable s -> 0 <= size <= MAX_REQUEST ->
    mm_malloc fuel s size = Returns p s' -> reachable s'
| reach_free (s : state) (bp : Z) :
    reachable s -> allocated_block s bp -> reachable (mm_free s bp)
| reach_realloc (s : state) (fuel : nat) (ptr size p : Z) (s' : state) :
    reachable s -> allocated_block s ptr -> 0 <= size <= MAX_REQUEST ->
    mm_realloc fuel s ptr size = Returns p s' -> reachable s'
| reach_extend (s : state) (words : Z) :
    reachable s -> 8 <= extend_heap_size words ->
    reachable (snd (extend_heap s words)).

(* ------------------------------------------------------------------ *)
(** ** Concrete heaps *)

(** A memory source of 20 MB starting at address 4096, nothing stored yet. *)
Definition fresh : state := mkState (fun _ => 0) 0 0 4096 (4096 + 20 * 2 ^ 20).

(** The heap right after [mm_init]: prologue at 4104, one free block of
    [CHUNKSIZE] bytes at 4112, break at 69648. *)
Definition heap0 : state := snd (mm_init fresh).

(** The state [mm_malloc] leaves, the state [mm_realloc] leaves, and the
    pointer an outcome returns. *)
Definition malloc_state (fuel : nat) (s : state) (size : Z) : state :=
  match mm_malloc fuel s size with
  | Returns _ s' => s'
  | _ => s
  end.

Definition realloc_state (fuel : nat) (s : state) (ptr size : Z) : state :=
  match mm_realloc fuel s ptr size with
  | Returns _ s' => s'
  | _ => s
  end.

Definition returned (o : outcome Z) : option Z :=
  match o with
  | Returns p _ => Some p
  | _ => None
  end.

(** [heap0] after [mm_malloc(8)], which returns 4112. *)
Definition heap1 : state := malloc_state 3 heap0 8.

(** [heap1] after two more [mm_malloc(8)], which return 4128 and 4144. *)
Definition heap3 : state := malloc_state 3 (malloc_state 3 heap1 8) 8.

(** [heap3] after [mm_malloc(24)], which returns 4160 (a block of 32 bytes). *)
Definition heap4 : state := malloc_state 3 heap3 24.

(** [heap4] after [mm_free(4128)] and [mm_free(4144)]: the two blocks merge
    into one free block of 32 bytes at 4128, and the cursor is 4128. *)
Definition heap6 : state := mm_free (mm_free heap4 4128) 4144.

(** [heap6] after [mm_malloc(4294967288)], which returns 4128. *)
Definition heap7 : state := malloc_state 3 heap6 4294967288.

(** [heap7] after [mm_free(4128)]. *)
Definition heap8 : state := mm_free heap7 4128.

(** [heap0] after [mm_malloc(4294967288)]: the adjusted size wraps to 0. *)
Definition heap_wrapped : state := malloc_state 3 heap0 4294967288.

(* ------------------------------------------------------------------ *)
(** ** The heap checker *)

(** A call of [printf]: its format string and the values of its arguments, a
    pointer given by its address and a character by its code. *)
Definition printf_call : Type := (string * list Z)%type.

(** The codes of the characters ['a'] and ['f']. *)
Definition char_a : Z := 97.
Definition char_f : Z := 102.

Definition printblock (m : memory) (bp : Z) : list printf_call :=
  let hsize := GET_SIZE m (HDRP bp) in
  let halloc := GET_ALLOC m (HDRP bp) in
  let fsize := GET_SIZE m (FTRP m bp) in
  let falloc := GET_ALLOC m (FTRP m bp) in
  if hsize =? 0 then [("%p: EOL
"%string, [bp])]
  else [("%p: header: [%d:%c] footer: [%d:%c]
"%string,
         [bp; to_int hsize; if negb (halloc =? 0) then char_a else char_f;
          to_int fsize; if negb (falloc =? 0) then char_a else char_f])].

Definition checkblock (m : memory) (bp : Z) : list printf_call :=
  (if negb (u32 bp mod 8 =? 0)
   then [("Error: %p is not doubleword aligned
"%string, [bp])]
   else [])
  ++ (if negb (GET m (HDRP bp) =? GET m (FTRP m bp))
      then [("Error: header does not match footer
"%string, [])]
      else []).

(** The [for] loop of [mm_checkheap], started at block [bp]: what it prints
    and the block pointer at which it stops. *)
Fixpoint checkheap_loop (fuel : nat) (verbose : Z) (m : memory) (bp : Z)
  : option (list printf_call * Z) :=
  match fuel with
  | O => None
  | S fuel' =>
      if GET_SIZE m (HDRP bp) >? 0 then
        match checkheap_loop fuel' verbose m (NEXT_BLKP m bp) with
        | Some (out, e) =>
            Some ((if negb (verbose =? 0) then printblock m bp else [])
                  ++ checkblock m bp ++ out, e)
        | None => None
        end
      else Some ([], bp)
  end.

(** [mm_checkheap]: everything it prints, or [None] when the fuel does not
    last for the walk. *)
Definition mm_checkheap (fuel : nat) (s : state) (verbose : Z)
  : option (list printf_call) :=
  let m := mem s in
  let hl := heap_listp s in
  let out1 :=
    if negb (verbose =? 0) then [("Heap (%p):
"%string, [hl])] else [] in
  let out2 :=
    if negb (GET_SIZE m (HDRP hl) =? DSIZE) || (GET_ALLOC m (HDRP hl) =? 0)
    then [("Bad prologue header
"%string, [])]
    else [] in
  let out3 := checkblock m hl in
  match checkheap_loop fuel verbose m hl with
  | None => None
  | Some (out4, bp) =>
      let out5 := if negb (verbose =? 0) then printblock m bp else [] in
      let out6 :=
        if negb (GET_SIZE m (HDRP bp) =? 0) || (GET_ALLOC m (HDRP bp) =? 0)
        then [("Bad epilogue header
"%string, [])]
        else [] in
      Some (out1 ++ out2 ++ out3 ++ out4 ++ out5 ++ out6)
  end.

(** The block pointer reached from [bp] behind the blocks [l] of a walk. *)
Definition walk_end (m : memory) (bp : Z) (l : list Z) : Z :=
  nth_block m bp (length l).

(** The sizes that the headers give for the blocks [l], added up. *)
Definition total_size (m : memory) (l : list Z) : Z :=
  fold_right (fun bp acc => GET_SIZE m (HDRP bp) + acc) 0 l.

(** The lines of a verbose check: the heading, the line of a block whose
    header and footer both show [size] and the allocated bit [alloc], and the
    line of the epilogue. *)
Definition heap_line (hl : Z) : printf_call :=
  ("Heap (%p):
"%string, [hl]).

Definition block_line (bp size alloc : Z) : printf_call :=
  let c := if negb (alloc =? 0) then char_a else char_f in
  ("%p: header: [%d:%c] footer: [%d:%c]
"%string, [bp; to_int size; c; to_int size; c]).

Definition eol_line (bp : Z) : printf_call :=
  ("%p: EOL
"%string, [bp]).

(** Between [s] and [s'] the heap has kept its start and the memory source
    its end, and the break has not moved down. *)
Definition heap_grows (s s' : state) : Prop :=
  heap_listp s' = heap_listp s /\ mem_brk s <= mem_brk s'
  /\ mem_max_addr s' = mem_max_addr s.

(** A memory source with room for the initial heap and nothing else, and the
    heap [mm_init] makes of it. *)
Definition tight : state := mkState (fun _ => 0) 0 0 4096 (4096 + 16 + 65536).
Definition heap_tight : state := snd (mm_init tight).

(* ------------------------------------------------------------------ *)
(** ** Words, tags and memory accesses *)

(** Linear arithmetic with the two powers of two written out. *)
Ltac zlia :=
  change (2 ^ 32) with 4294967296 in *;
  change (2 ^ 31) with 2147483648 in *; lia.

Lemma u32_small (x : Z) : 0 <= x < 2 ^ 32 -> u32 x = x.
Proof. intros H. unfold u32. now apply Z.mod_small. Qed.

Lemma byte_at_range (m : memory) (a : Z) : 0 <= byte_at m a < 256.
Proof. unfold byte_at. apply Z.mod_pos_bound. lia. Qed.

Lemma GET_range (m : memory) (p : Z) : 0 <= GET m p < 2 ^ 32.
Proof.
  unfold GET.
  pose proof (byte_at_range m p). pose proof (byte_at_range m (p + 1)).
  pose proof (byte_at_range m (p + 2)). pose proof (byte_at_range m (p + 3)).
  change (2 ^ 32) with 4294967296. lia.
Qed.

Lemma land_lnot7 (x : Z) : Z.land x (Z.lnot 7) = 8 * (x / 8).
Proof.
  rewrite <- Z.ldiff_land. change 7 with (Z.ones 3).
  rewrite Z.ldiff_ones_r by lia.
  rewrite Z.shiftl_mul_pow2, Z.shiftr_div_pow2 by lia.
  change (2 ^ 3) with 8. lia.
Qed.

Lemma land_1 (x : Z) : Z.land x 1 = x mod 2.
Proof. change 1 with (Z.ones 1) at 1. rewrite Z.land_ones by lia. reflexivity. Qed.

Lemma PACK_add (sz a : Z) : sz mod 8 = 0 -> a = 0 \/ a = 1 -> PACK sz a = sz + a.
Proof.
  intros Hsz Ha. unfold PACK.
  assert (Hl : Z.land sz a = 0).
  { destruct Ha; subst a; [apply Z.land_0_r|].
    rewrite land_1. 
    pose proof (Z.div_mod sz 8 ltac:(lia)).
    rewrite Hsz in H. replace sz with ((4 * (sz / 8)) * 2) by lia.
    apply Z.mod_mul. lia. }
  rewrite <- Z.lxor_lor by exact Hl.
  symmetry. apply Z.add_nocarry_lxor. exact Hl.
Qed.

Lemma GET_SIZE_eq (m : memory) (p : Z) : GET_SIZE m p = 8 * (GET m p / 8).
Proof. unfold GET_SIZE. apply land_lnot7. Qed.

Lemma GET_ALLOC_eq (m : memory) (p : Z) : GET_ALLOC m p = GET m p mod 2.
Proof. unfold GET_ALLOC. apply land_1. Qed.

Lemma GET_SIZE_range (m : memory) (p : Z) :
  0 <= GET_SIZE m p < 2 ^ 32 /\ GET_SIZE m p mod 8 = 0.
Proof.
  rewrite GET_SIZE_eq. pose proof (GET_range m p).
  change (2 ^ 32) with 4294967296 in *.
  split; [|rewrite Z.mul_comm; apply Z.mod_mul; lia].
  pose proof (Z.div_mod (GET m p) 8 ltac:(lia)).
  pose proof (Z.mod_pos_bound (GET m p) 8 ltac:(lia)). lia.
Qed.

Lemma PUT_other (m : memory) (p v a : Z) :
  a < p \/ p + 4 <= a -> PUT m p v a = m a.
Proof.
  intros H. unfold PUT.
  destruct (Z.eqb_spec a p); [lia|].
  destruct (Z.eqb_spec a (p + 1)); [lia|].
  destruct (Z.eqb_spec a (p + 2)); [lia|].
  destruct (Z.eqb_spec a (p + 3)); [lia|]. reflexivity.
Qed.

Lemma GET_ext (m m' : memory) (p : Z) :
  (forall a, p <= a < p + 4 -> byte_at m' a = byte_at m a) -> GET m' p = GET m p.
Proof. intros H. unfold GET. rewrite !H by lia. reflexivity. Qed.

Lemma GET_PUT_other (m : memory) (p v q : Z) :
  q + 4 <= p \/ p + 4 <= q -> GET (PUT m p v) q = GET m q.
Proof.
  intros H. apply GET_ext. intros a Ha. unfold byte_at.
  rewrite PUT_other by lia. reflexivity.
Qed.

Lemma GET_PUT_same (m : memory) (p v : Z) : GET (PUT m p v) p = u32 v.
Proof.
  unfold GET, byte_at, PUT, u32.
  rewrite Z.eqb_refl.
  destruct (Z.eqb_spec (p + 1) p); [lia|].
  destruct (Z.eqb_spec (p + 2) p); [lia|].
  destruct (Z.eqb_spec (p + 3) p); [lia|].
  rewrite Z.eqb_refl.
  destruct (Z.eqb_spec (p + 2) (p + 1)); [lia|].
  destruct (Z.eqb_spec (p + 3) (p + 1)); [lia|].
  rewrite Z.eqb_refl.
  destruct (Z.eqb_spec (p + 3) (p + 2)); [lia|].
  rewrite Z.eqb_refl.
  rewrite !Z.mod_mod by lia.
  change (2 ^ 32) with 4294967296.
  Z.div_mod_to_equations. lia.
Qed.

(* ------------------------------------------------------------------ *)
(** ** Lemmas on block lists *)

(** *** Chains *)

Lemma chain_app (p q : Z) (l1 l2 : list blk) :
  chain p (l1 ++ l2) q <-> exists r, chain p l1 r /\ chain r l2 q.
Proof.
  revert p. induction l1 as [|b l1 IH]; intros p; simpl.
  - split; [intros H; exists p; auto|intros [r [-> H]]; exact H].
  - rewrite IH. split.
    + intros (Ha & Hs & Hm & r & H1 & H2). exists r. tauto.
    + intros (r & (Ha & Hs & Hm & H1) & H2). repeat split; auto. exists r; auto.
Qed.

Lemma chain_fun (p q q' : Z) (l : list blk) : chain p l q -> chain p l q' -> q = q'.
Proof.
  revert p. induction l as [|b l IH]; simpl; intros p.
  - congruence.
  - intros (_ & _ & _ & H) (_ & _ & _ & H'). eauto.
Qed.

Lemma chain_le (p q : Z) (l : list blk) :
  chain p l q -> p + 8 * Z.of_nat (length l) <= q.
Proof.
  revert p. induction l as [|b l IH]; simpl length; intros p H.
  - simpl in H. lia.
  - destruct H as (_ & Hs & _ & H). apply IH in H. lia.
Qed.

Lemma chain_In (p q : Z) (l : list blk) (b : blk) :
  chain p l q -> In b l ->
  exists l1 l2, l = l1 ++ b :: l2 /\ chain p l1 (baddr b)
                /\ 8 <= bsize b /\ bsize b mod 8 = 0
                /\ chain (baddr b + bsize b) l2 q.
Proof.
  intros Hc Hin. apply in_split in Hin. destruct Hin as (l1 & l2 & ->).
  exists l1, l2. split; [reflexivity|].
  apply chain_app in Hc. destruct Hc as (r & H1 & H2).
  simpl in H2. destruct H2 as (Ha & Hs & Hm & H2). subst r. auto.
Qed.

Lemma chain_bounds (p q : Z) (l : list blk) (b : blk) :
  chain p l q -> In b l ->
  p <= baddr b /\ baddr b + bsize b <= q /\ 8 <= bsize b /\ bsize b mod 8 = 0.
Proof.
  intros Hc Hin. destruct (chain_In _ _ _ _ Hc Hin) as (l1 & l2 & _ & H1 & Hs & Hm & H2).
  apply chain_le in H1. apply chain_le in H2. lia.
Qed.

(** Two blocks of a chain are equal or do not overlap. *)
Lemma chain_disjoint (p q : Z) (l : list blk) (b c : blk) :
  chain p l q -> In b l -> In c l ->
  b = c \/ baddr b + bsize b <= baddr c \/ baddr c + bsize c <= baddr b.
Proof.
  revert p. induction l as [|x l IH]; intros p Hc Hb Hin; [contradiction|].
  simpl in Hc. destruct Hc as (Ha & Hs & Hm & Hc).
  destruct Hb as [->|Hb], Hin as [->|Hin]; auto.
  - right; left. pose proof (chain_bounds _ _ _ _ Hc Hin). lia.
  - right; right. pose proof (chain_bounds _ _ _ _ Hc Hb). lia.
  - eauto.
Qed.

Lemma chain_addr_inj (p q : Z) (l : list blk) (b c : blk) :
  chain p l q -> In b l -> In c l -> baddr b = baddr c -> b = c.
Proof.
  intros Hc Hb Hin Heq.
  destruct (chain_disjoint _ _ _ _ _ Hc Hb Hin) as [H|H]; [exact H|].
  pose proof (chain_bounds _ _ _ _ Hc Hb). pose proof (chain_bounds _ _ _ _ Hc Hin). lia.
Qed.

(** *** Adjacent free blocks *)

Lemma naf_app_cons (l1 l2 : list blk) (b : blk) :
  naf (l1 ++ b :: l2) <-> naf (l1 ++ [b]) /\ naf (b :: l2).
Proof.
  induction l1 as [|x l1 IH].
  - simpl. tauto.
  - change ((x :: l1) ++ b :: l2) with (x :: (l1 ++ b :: l2)).
    change ((x :: l1) ++ [b]) with (x :: (l1 ++ [b])).
    cbn [naf]. rewrite IH.
    destruct l1; simpl; tauto.
Qed.

Lemma naf_app (l1 l2 : list blk) : naf (l1 ++ l2) -> naf l1 /\ naf l2.
Proof.
  induction l1 as [|x l1 IH]; [simpl; tauto|].
  change ((x :: l1) ++ l2) with (x :: (l1 ++ l2)).
  cbn [naf]. intros [H1 H2]. apply IH in H2.
  split; [|tauto]. split; [|tauto].
  destruct l1; [exact I|exact H1].
Qed.

Lemma naf_snoc_alloc (l : list blk) (b : blk) :
  naf l -> balloc b = true -> naf (l ++ [b]).
Proof.
  intros Hl Hb. induction l as [|x l IH]; [simpl; auto|].
  change ((x :: l) ++ [b]) with (x :: (l ++ [b])).
  cbn [naf] in *. destruct Hl as [H1 H2]. split; [|auto].
  destruct l; simpl; auto.
Qed.

Lemma naf_cons_alloc (l : list blk) (b : blk) :
  naf l -> balloc b = true -> naf (b :: l).
Proof. intros Hl Hb. cbn [naf]. split; [destruct l; auto|exact Hl]. Qed.

(** The verdict depends on the allocated bits only. *)
Lemma naf_snoc_same (l : list blk) (b b' : blk) :
  balloc b = balloc b' -> naf (l ++ [b]) -> naf (l ++ [b']).
Proof.
  intros Hb. induction l as [|x l IH]; [simpl; auto|].
  change ((x :: l) ++ [b]) with (x :: (l ++ [b])).
  change ((x :: l) ++ [b']) with (x :: (l ++ [b'])).
  cbn [naf]. intros [H1 H2]. split; [|auto].
  destruct l; simpl in *; [rewrite <- Hb|]; auto.
Qed.

Lemma naf_cons_same (l : list blk) (b b' : blk) :
  balloc b = balloc b' -> naf (b :: l) -> naf (b' :: l).
Proof. intros Hb. cbn [naf]. rewrite Hb. auto. Qed.

(** *** Reading the tags of a block *)

Lemma tagw_eq (b : blk) : bsize b mod 8 = 0 -> tagw b = bsize b + Z.b2z (balloc b).
Proof. intros H. unfold tagw. apply PACK_add; [exact H|]. destruct (balloc b); auto. Qed.

Lemma size_of_tag (sz a : Z) : sz mod 8 = 0 -> 0 <= a <= 1 -> 8 * ((sz + a) / 8) = sz.
Proof. intros. Z.div_mod_to_equations. lia. Qed.

Lemma alloc_of_tag (sz a : Z) : sz mod 8 = 0 -> 0 <= a <= 1 -> (sz + a) mod 2 = a.
Proof. intros. Z.div_mod_to_equations. lia. Qed.

Section BlockTags.
Variables (m : memory) (b : blk).
Hypothesis Htag : tagged m b.
Hypothesis Hmod : bsize b mod 8 = 0.

Lemma b2z_range : 0 <= Z.b2z (balloc b) <= 1.
Proof. destruct (balloc b); simpl; lia. Qed.

Lemma hdr_size : GET_SIZE m (baddr b - 4) = bsize b.
Proof.
  rewrite GET_SIZE_eq. destruct Htag as [-> _]. rewrite tagw_eq by exact Hmod.
  apply size_of_tag; [exact Hmod|apply b2z_range].
Qed.

Lemma ftr_size : GET_SIZE m (baddr b + bsize b - 8) = bsize b.
Proof.
  rewrite GET_SIZE_eq. destruct Htag as [_ ->]. rewrite tagw_eq by exact Hmod.
  apply size_of_tag; [exact Hmod|apply b2z_range].
Qed.

Lemma hdr_alloc : GET_ALLOC m (baddr b - 4) = Z.b2z (balloc b).
Proof.
  rewrite GET_ALLOC_eq. destruct Htag as [-> _]. rewrite tagw_eq by exact Hmod.
  apply alloc_of_tag; [exact Hmod|apply b2z_range].
Qed.

Lemma ftr_alloc : GET_ALLOC m (baddr b + bsize b - 8) = Z.b2z (balloc b).
Proof.
  rewrite GET_ALLOC_eq. destruct Htag as [_ ->]. rewrite tagw_eq by exact Hmod.
  apply alloc_of_tag; [exact Hmod|apply b2z_range].
Qed.

Lemma bsize_u32 : 0 <= bsize b < 2 ^ 32.
Proof. rewrite <- hdr_size. apply GET_SIZE_range. Qed.
End BlockTags.

Lemma tagged_ext (m m' : memory) (b : blk) :
  (forall a, baddr b - 4 <= a < baddr b \/ baddr b + bsize b - 8 <= a < baddr b + bsize b - 4 ->
             m' a = m a) ->
  tagged m b -> tagged m' b.
Proof.
  intros H [H1 H2]. split.
  - rewrite <- H1. apply GET_ext. intros a Ha. unfold byte_at. rewrite H by lia. reflexivity.
  - rewrite <- H2. apply GET_ext. intros a Ha. unfold byte_at. rewrite H by lia. reflexivity.
Qed.

Lemma Forall_tagged_outside (m m' : memory) (p q lo hi : Z) (l : list blk) :
  chain p l q -> same_outside m m' lo hi -> q - 4 <= lo \/ hi <= p - 4 ->
  Forall (tagged m) l -> Forall (tagged m') l.
Proof.
  intros Hc Hs Hpos Hf. rewrite Forall_forall in *. intros b Hb.
  pose proof (chain_bounds _ _ _ _ Hc Hb).
  apply (tagged_ext m); [|auto]. intros a Ha. apply Hs. lia.
Qed.

(** *** Writing tags *)

Lemma GET_PUT_eq (m : memory) (p v q : Z) : q = p -> GET (PUT m p v) q = u32 v.
Proof. intros ->. apply GET_PUT_same. Qed.

Ltac get_put :=
  repeat first [rewrite GET_PUT_eq by lia | rewrite GET_PUT_other by lia].

Lemma same_outside_refl (m : memory) (lo hi : Z) : same_outside m m lo hi.
Proof. intros a _. reflexivity. Qed.

Lemma same_outside_trans (m1 m2 m3 : memory) (lo hi : Z) :
  same_outside m1 m2 lo hi -> same_outside m2 m3 lo hi -> same_outside m1 m3 lo hi.
Proof. intros H1 H2 a Ha. rewrite H2, H1 by exact Ha. reflexivity. Qed.

Lemma same_outside_weaken (m m' : memory) (lo hi lo' hi' : Z) :
  same_outside m m' lo hi -> lo' <= lo -> hi <= hi' -> same_outside m m' lo' hi'.
Proof. intros H Hl Hh a Ha. apply H. lia. Qed.

Lemma same_outside_PUT (m : memory) (x v lo hi : Z) :
  lo <= x -> x + 4 <= hi -> same_outside m (PUT m x v) lo hi.
Proof. intros Hl Hh a Ha. apply PUT_other. lia. Qed.

Lemma size_of_word (sz : Z) : sz mod 8 = 0 -> 8 * (sz / 8) = sz.
Proof. intros. Z.div_mod_to_equations. lia. Qed.

Section PutTags.
Variables (m : memory) (bp sz a : Z).
Hypothesis Hsz : 8 <= sz < 2 ^ 32.
Hypothesis Hmod : sz mod 8 = 0.
Hypothesis Ha : a = 0 \/ a = 1.

Lemma PACK_u32 : u32 (PACK sz a) = sz + a.
Proof.
  rewrite PACK_add by auto.
  apply u32_small. Z.div_mod_to_equations. lia.
Qed.

Lemma put_hdr_then_ftr :
  let m1 := PUT m (HDRP bp) (PACK sz a) in
  PUT m1 (FTRP m1 bp) (PACK sz a) = put_tags m bp sz a.
Proof.
  cbv zeta. unfold put_tags, FTRP, HDRP, WSIZE, DSIZE.
  rewrite GET_SIZE_eq, GET_PUT_same, PACK_u32.
  rewrite size_of_tag by (auto; lia). reflexivity.
Qed.

Lemma put_tags_tagged : tagged (put_tags m bp sz a) (mkBlk bp sz (a =? 1)).
Proof.
  assert (Hb : Z.b2z (a =? 1) = a) by (destruct Ha; subst a; reflexivity).
  unfold tagged, put_tags, tagw; simpl. rewrite Hb.
  split; get_put; rewrite PACK_u32; symmetry; apply PACK_add; auto.
Qed.

Lemma put_tags_outside : same_outside m (put_tags m bp sz a) (bp - 4) (bp + sz - 4).
Proof.
  unfold put_tags. eapply same_outside_trans; apply same_outside_PUT; lia.
Qed.

Lemma put_tags_next : NEXT_BLKP (put_tags m bp sz a) bp = bp + sz.
Proof.
  unfold NEXT_BLKP, WSIZE, put_tags. rewrite GET_SIZE_eq. get_put.
  rewrite PACK_u32, size_of_tag by (auto; lia). reflexivity.
Qed.
End PutTags.

(** A header and a footer stored in either order tag the block between. *)
Lemma tagged_PUT_PUT (m : memory) (b : blk) (v : Z) :
  8 <= bsize b -> u32 v = tagw b ->
  tagged (PUT (PUT m (baddr b - 4) v) (baddr b + bsize b - 8) v) b
  /\ tagged (PUT (PUT m (baddr b + bsize b - 8) v) (baddr b - 4) v) b.
Proof. intros Hs Hv. unfold tagged. repeat split; get_put; exact Hv. Qed.

(** *** Rewriting a stretch of the block list *)

Lemma heap_mem_replace (m m' : memory) (hl brk r1 r2 : Z) (L1 old new L2 : list blk) :
  heap_mem m hl brk (L1 ++ old ++ L2) ->
  chain hl L1 r1 -> chain r1 old r2 ->
  chain r1 new r2 -> Forall (tagged m') new ->
  same_outside m m' (r1 - 4) (r2 - 4) ->
  heap_mem m' hl brk (L1 ++ new ++ L2).
Proof.
  intros (Hc & Hf & He) H1 Ho Hn Hfn Hs.
  apply chain_app in Hc. destruct Hc as (r & Hc1 & Hc).
  assert (r = r1) by (eapply chain_fun; eauto). subst r.
  apply chain_app in Hc. destruct Hc as (r & Hco & Hc2).
  assert (r = r2) by (eapply chain_fun; eauto). subst r.
  apply Forall_app in Hf. destruct Hf as [Hf1 Hf].
  apply Forall_app in Hf. destruct Hf as [_ Hf2].
  pose proof (chain_le _ _ _ Hc2) as Hle.
  repeat split.
  - apply chain_app. exists r1. split; [exact H1|].
    apply chain_app. exists r2. auto.
  - apply Forall_app. split.
    + eapply Forall_tagged_outside; eauto. lia.
    + apply Forall_app. split; [exact Hfn|].
      eapply Forall_tagged_outside; eauto. lia.
  - rewrite <- He. apply GET_ext. intros a Ha. unfold byte_at.
    rewrite Hs by lia. reflexivity.
Qed.

(** A block of the heap, with what precedes and follows it. *)
Lemma heap_mem_In (m : memory) (hl brk : Z) (bs : list blk) (b : blk) :
  heap_mem m hl brk bs -> In b bs ->
  tagged m b /\ 8 <= bsize b < 2 ^ 32 /\ bsize b mod 8 = 0
  /\ hl <= baddr b /\ baddr b + bsize b <= brk.
Proof.
  intros (Hc & Hf & _) Hin.
  pose proof (chain_bounds _ _ _ _ Hc Hin) as (H1 & H2 & H3 & H4).
  rewrite Forall_forall in Hf. pose proof (Hf _ Hin) as Ht.
  pose proof (bsize_u32 m b Ht H4). split; [exact Ht|lia].
Qed.

(** *** [place] *)

Lemma place_mem (s : state) (bp asize : Z) :
  let csize := GET_SIZE (mem s) (HDRP bp) in
  8 <= asize -> asize mod 8 = 0 -> asize <= csize ->
  mem (place s bp asize) =
    if csize - asize >=? DSIZE + OVERHEAD
    then put_tags (put_tags (mem s) bp asize 1) (bp + asize) (csize - asize) 0
    else put_tags (mem s) bp csize 1.
Proof.
  intros csize Ha Hm Hc. unfold place. fold csize.
  pose proof (GET_SIZE_range (mem s) (HDRP bp)) as [Hr Hcm]. fold csize in Hr, Hcm.
  rewrite (u32_small (csize - asize)) by lia.
  unfold DSIZE, OVERHEAD. simpl Z.add.
  destruct (Z.geb_spec (csize - asize) 16) as [Hge|Hlt]; cbv zeta; simpl mem.
  - rewrite (put_hdr_then_ftr (mem s) bp asize 1) by (auto; lia).
    rewrite put_tags_next by (auto; lia).
    assert (Hrm : (csize - asize) mod 8 = 0) by (Z.div_mod_to_equations; lia).
    rewrite (put_hdr_then_ftr _ (bp + asize) (csize - asize) 0) by (auto; lia).
    reflexivity.
  - rewrite (put_hdr_then_ftr (mem s) bp csize 1) by (auto; lia).
    reflexivity.
Qed.

Lemma chain_mid (p q : Z) (l1 l2 : list blk) (b : blk) :
  chain p (l1 ++ b :: l2) q <->
  chain p l1 (baddr b) /\ 8 <= bsize b /\ bsize b mod 8 = 0
  /\ chain (baddr b + bsize b) l2 q.
Proof.
  rewrite chain_app. simpl. split.
  - intros (r & H1 & Ha & Hs & Hm & H2). subst r. auto.
  - intros (H1 & Hs & Hm & H2). exists (baddr b). auto.
Qed.

Lemma place_fields (s : state) (bp asize : Z) :
  heap_listp (place s bp asize) = heap_listp s
  /\ next_fit_ptr (place s bp asize) = next_fit_ptr s
  /\ mem_brk (place s bp asize) = mem_brk s
  /\ mem_max_addr (place s bp asize) = mem_max_addr s.
Proof. unfold place. destruct (_ >=? _); simpl; auto. Qed.

Lemma place_heap (s : state) (hl brk : Z) (L1 L2 : list blk) (c : blk) (asize : Z) :
  heap_mem (mem s) hl brk (L1 ++ c :: L2) ->
  8 <= asize -> asize mod 8 = 0 -> asize <= bsize c ->
  heap_mem (mem (place s (baddr c) asize)) hl brk (L1 ++ place_blocks c asize ++ L2)
  /\ same_outside (mem s) (mem (place s (baddr c) asize))
       (baddr c - 4) (baddr c + bsize c - 4).
Proof.
  intros Hm Ha Hmod Hle.
  destruct (heap_mem_In _ _ _ _ c Hm) as (Ht & Hs & Hcm & _);
    [apply in_or_app; right; left; reflexivity|].
  assert (Hsz : GET_SIZE (mem s) (HDRP (baddr c)) = bsize c)
    by (apply (hdr_size _ _ Ht Hcm)).
  pose proof Hm as (Hch & _). apply chain_mid in Hch. destruct Hch as (Hc1 & _ & _ & Hc2).
  assert (Hr : (bsize c - asize) mod 8 = 0) by (Z.div_mod_to_equations; lia).
  rewrite place_mem by (rewrite ?Hsz; auto).
  rewrite Hsz. unfold place_blocks.
  unfold DSIZE, OVERHEAD. simpl Z.add.
  destruct (Z.geb_spec (bsize c - asize) 16) as [Hge|Hlt].
  - assert (Hout : same_outside (mem s)
               (put_tags (put_tags (mem s) (baddr c) asize 1) (baddr c + asize)
                  (bsize c - asize) 0) (baddr c - 4) (baddr c + bsize c - 4)).
    { eapply same_outside_trans;
        (eapply same_outside_weaken; [apply put_tags_outside| |]); lia. }
    split; [|exact Hout].
    apply (heap_mem_replace (mem s) _ hl brk (baddr c) (baddr c + bsize c) L1 [c]); auto.
    + simpl. repeat split; auto; lia.
    + simpl. repeat split; auto; lia.
    + constructor; [|constructor; [|constructor]].
      * apply (tagged_ext (put_tags (mem s) (baddr c) asize 1)).
        -- intros a Hx. simpl in Hx. apply put_tags_outside; auto; lia.
        -- apply (put_tags_tagged (mem s) (baddr c) asize 1); auto; lia.
      * apply (put_tags_tagged _ (baddr c + asize) (bsize c - asize) 0); auto; lia.
  - assert (Hout : same_outside (mem s) (put_tags (mem s) (baddr c) (bsize c) 1)
               (baddr c - 4) (baddr c + bsize c - 4)) by (apply put_tags_outside; auto; lia).
    split; [|exact Hout].
    apply (heap_mem_replace (mem s) _ hl brk (baddr c) (baddr c + bsize c) L1 [c]); auto.
    + simpl. repeat split; auto; lia.
    + simpl. repeat split; auto; lia.
    + constructor; [|constructor].
      apply (put_tags_tagged (mem s) (baddr c) (bsize c) 1); auto; lia.
Qed.

(** *** Stepping between neighbours *)

Lemma NEXT_BLKP_at (m : memory) (b : blk) :
  GET m (baddr b - 4) = tagw b -> bsize b mod 8 = 0 ->
  NEXT_BLKP m (baddr b) = baddr b + bsize b.
Proof.
  intros H Hm. unfold NEXT_BLKP, WSIZE. rewrite GET_SIZE_eq, H, tagw_eq by exact Hm.
  rewrite size_of_tag by (auto; destruct (balloc b); simpl; lia). reflexivity.
Qed.

Lemma FTRP_at (m : memory) (b : blk) :
  GET m (baddr b - 4) = tagw b -> bsize b mod 8 = 0 ->
  FTRP m (baddr b) = baddr b + bsize b - 8.
Proof.
  intros H Hm. unfold FTRP, HDRP, WSIZE, DSIZE. rewrite GET_SIZE_eq, H, tagw_eq by exact Hm.
  rewrite size_of_tag by (auto; destruct (balloc b); simpl; lia). reflexivity.
Qed.

Lemma PREV_BLKP_at (m : memory) (b : blk) (bp : Z) :
  GET m (baddr b + bsize b - 8) = tagw b -> bsize b mod 8 = 0 ->
  bp = baddr b + bsize b ->
  PREV_BLKP m bp = baddr b.
Proof.
  intros H Hm ->. unfold PREV_BLKP, DSIZE. rewrite GET_SIZE_eq, H, tagw_eq by exact Hm.
  rewrite size_of_tag by (auto; destruct (balloc b); simpl; lia). lia.
Qed.

(** The epilogue header: size zero, allocated. *)
Lemma epilogue_tag (m : memory) (q : Z) :
  GET m (q - 4) = 1 -> GET_SIZE m (HDRP q) = 0 /\ GET_ALLOC m (HDRP q) = 1.
Proof.
  intros H. unfold HDRP, WSIZE. rewrite GET_SIZE_eq, GET_ALLOC_eq, H. split; reflexivity.
Qed.

(** *** [coalesce] *)

Section Coalesce.
Variables (s : state) (L1 L2 : list blk) (p c : blk).
Hypothesis Hmem :
  heap_mem (mem s) (heap_listp s) (mem_brk s) (L1 ++ p :: c :: L2).
Hypothesis Hfree : balloc c = false.
Hypothesis Hlow : 0 <= heap_listp s.
Hypothesis Hhigh : mem_brk s < 2 ^ 32.

Lemma co_facts :
  tagged (mem s) p /\ tagged (mem s) c
  /\ 8 <= bsize p /\ bsize p mod 8 = 0 /\ 8 <= bsize c /\ bsize c mod 8 = 0
  /\ baddr c = baddr p + bsize p
  /\ chain (heap_listp s) L1 (baddr p)
  /\ chain (baddr c + bsize c) L2 (mem_brk s)
  /\ heap_listp s <= baddr p /\ baddr c + bsize c <= mem_brk s.
Proof.
  destruct Hmem as (Hc & Hf & _).
  apply chain_mid in Hc. destruct Hc as (H1 & Hps & Hpm & Hc).
  simpl in Hc. destruct Hc as (Ha & Hcs & Hcm & H2).
  apply Forall_app in Hf. destruct Hf as [_ Hf].
  inversion Hf as [|? ? Hp Hf']; subst. inversion Hf' as [|? ? Hcc _]; subst.
  pose proof (chain_le _ _ _ H1). pose proof (chain_le _ _ _ H2).
  rewrite Ha in *. repeat split; auto; try lia; try apply Hp; try apply Hcc.
Qed.

Lemma co_prev : PREV_BLKP (mem s) (baddr c) = baddr p.
Proof.
  destruct co_facts as (Hp & _ & _ & Hm & _ & _ & Ha & _).
  apply PREV_BLKP_at; auto. apply Hp.
Qed.

Lemma co_prev_alloc :
  GET_ALLOC (mem s) (FTRP (mem s) (baddr p)) = Z.b2z (balloc p).
Proof.
  destruct co_facts as (Hp & _ & _ & Hm & _).
  rewrite FTRP_at by (auto; apply Hp). apply ftr_alloc; auto.
Qed.

Lemma co_size : GET_SIZE (mem s) (HDRP (baddr c)) = bsize c.
Proof.
  destruct co_facts as (_ & Hc & _ & _ & _ & Hm & _).
  apply hdr_size; auto.
Qed.

Lemma co_next : NEXT_BLKP (mem s) (baddr c) = baddr c + bsize c.
Proof.
  destruct co_facts as (_ & Hc & _ & _ & _ & Hm & _).
  apply NEXT_BLKP_at; auto. apply Hc.
Qed.

Lemma co_next_block (n : blk) (L2' : list blk) :
  L2 = n :: L2' ->
  tagged (mem s) n /\ baddr n = baddr c + bsize c /\ 8 <= bsize n
  /\ bsize n mod 8 = 0 /\ chain (baddr n + bsize n) L2' (mem_brk s).
Proof.
  intros HL. destruct co_facts as (_ & _ & _ & _ & _ & _ & _ & _ & H2 & _).
  rewrite HL in H2. simpl in H2. destruct H2 as (Ha & Hs & Hm & H2).
  destruct Hmem as (_ & Hf & _). rewrite Forall_forall in Hf.
  split; [|repeat split; auto; rewrite Ha; exact H2].
  apply Hf. subst L2. apply in_or_app. right. simpl. auto.
Qed.

Lemma co_next_alloc :
  GET_ALLOC (mem s) (HDRP (baddr c + bsize c)) = Z.b2z (next_allocated L2).
Proof.
  assert (HL : L2 = [] \/ exists n L2', L2 = n :: L2') by (destruct L2; eauto).
  destruct HL as [HL|(n & L2' & HL)].
  - destruct co_facts as (_ & _ & _ & _ & _ & _ & _ & _ & H2 & _).
    rewrite HL in H2 |- *. simpl in H2. rewrite H2. destruct Hmem as (_ & _ & He).
    apply epilogue_tag in He. apply He.
  - destruct (co_next_block n L2' HL) as (Hn & Ha & _ & Hm & _).
    unfold HDRP, WSIZE. rewrite <- Ha, HL. simpl. apply hdr_alloc; auto.
Qed.

Lemma co_sizes_bound (n : blk) (L2' : list blk) :
  L2 = n :: L2' -> bsize p + bsize c + bsize n < 2 ^ 32.
Proof.
  intros HL. destruct (co_next_block n L2' HL) as (_ & Ha & _ & _ & H2).
  apply chain_le in H2.
  destruct co_facts as (_ & _ & _ & _ & _ & _ & Hc & _ & _ & Hl & _). lia.
Qed.

Lemma co_sizes_bound2 : bsize p + bsize c < 2 ^ 32.
Proof.
  destruct co_facts as (_ & _ & _ & _ & _ & _ & Hc & _ & _ & Hl & Hr). lia.
Qed.

(** Case 1: both neighbours allocated. *)
Lemma coalesce_case1 :
  balloc p = true -> next_allocated L2 = true ->
  coalesce s (baddr c) = (baddr c, s).
Proof.
  intros Hp Hn. unfold coalesce. cbv zeta.
  rewrite co_prev, co_prev_alloc, co_next, co_next_alloc, Hp, Hn. reflexivity.
Qed.

(** Case 2: the next block is free. *)
Lemma coalesce_case2 (n : blk) (L2' : list blk) :
  balloc p = true -> L2 = n :: L2' -> balloc n = false ->
  coalesce s (baddr c) =
    (baddr c,
     set_next_fit_ptr
       (set_mem s (put_tags (mem s) (baddr c) (bsize c + bsize n) 0))
       (baddr c)).
Proof.
  intros Hp HL Hn. unfold coalesce. cbv zeta.
  rewrite co_prev, co_prev_alloc, co_next, co_next_alloc, co_size, Hp.
  pose proof (co_sizes_bound n L2' HL) as Hb.
  destruct (co_next_block n L2' HL) as (Htn & Han & Hsn & Hmn & _).
  destruct co_facts as (_ & _ & Hps & _ & Hcs & Hcm & _).
  rewrite HL. simpl next_allocated. rewrite Hn. simpl.
  assert (Hns : GET_SIZE (mem s) (HDRP (baddr c + bsize c)) = bsize n).
  { unfold HDRP, WSIZE. rewrite <- Han. apply hdr_size; auto. }
  rewrite Hns, u32_small by lia.
  rewrite put_hdr_then_ftr; auto; try lia.
  Z.div_mod_to_equations; lia.
Qed.

(** Case 3: the previous block is free. *)
Lemma coalesce_case3 :
  balloc p = false -> next_allocated L2 = true ->
  let v := PACK (bsize c + bsize p) 0 in
  coalesce s (baddr c) =
    (baddr p,
     set_next_fit_ptr
       (set_mem s (PUT (PUT (mem s) (baddr c + bsize c - 8) v) (baddr p - 4) v))
       (baddr p)).
Proof.
  intros Hp Hn v. unfold coalesce. cbv zeta.
  rewrite co_prev, co_prev_alloc, co_next, co_next_alloc, co_size, Hp, Hn.
  pose proof co_sizes_bound2 as Hb.
  destruct co_facts as (Htp & Htc & Hps & Hpm & Hcs & Hcm & Ha & _).
  simpl.
  assert (Hs : GET_SIZE (mem s) (HDRP (baddr p)) = bsize p)
    by (apply hdr_size; auto).
  rewrite Hs, u32_small by lia. fold v.
  rewrite (FTRP_at (mem s) c) by (auto; apply Htc).
  assert (H1 : PREV_BLKP (PUT (mem s) (baddr c + bsize c - 8) v) (baddr c) = baddr p).
  { apply PREV_BLKP_at; auto. get_put. apply Htp. }
  rewrite H1.
  assert (H2 : PREV_BLKP (PUT (PUT (mem s) (baddr c + bsize c - 8) v)
                            (HDRP (baddr p)) v) (baddr c) = baddr p).
  { apply PREV_BLKP_at; auto. unfold HDRP, WSIZE. get_put. apply Htp. }
  rewrite H2. reflexivity.
Qed.

(** Case 4: both neighbours are free. *)
Lemma coalesce_case4 (n : blk) (L2' : list blk) :
  balloc p = false -> L2 = n :: L2' -> balloc n = false ->
  let v := PACK (bsize c + (bsize p + bsize n)) 0 in
  coalesce s (baddr c) =
    (baddr p,
     set_next_fit_ptr
       (set_mem s (PUT (PUT (mem s) (baddr p - 4) v) (baddr n + bsize n - 8) v))
       (baddr p)).
Proof.
  intros Hp HL Hn v. unfold coalesce. cbv zeta.
  rewrite co_prev, co_prev_alloc, co_next, co_next_alloc, co_size, Hp.
  pose proof (co_sizes_bound n L2' HL) as Hb.
  destruct (co_next_block n L2' HL) as (Htn & Han & Hsn & Hmn & _).
  destruct co_facts as (Htp & Htc & Hps & Hpm & Hcs & Hcm & Ha & _).
  rewrite HL. simpl next_allocated. rewrite Hn. simpl.
  assert (Hs : GET_SIZE (mem s) (HDRP (baddr p)) = bsize p)
    by (apply hdr_size; auto).
  rewrite <- Han.
  rewrite (FTRP_at (mem s) n) by (auto; apply Htn).
  rewrite Hs, (ftr_size _ _ Htn Hmn).
  rewrite (u32_small (bsize p + bsize n)) by lia.
  rewrite u32_small by lia. fold v.
  set (m1 := PUT (mem s) (HDRP (baddr p)) v).
  assert (H1 : NEXT_BLKP m1 (baddr c) = baddr n).
  { rewrite Han. apply NEXT_BLKP_at; auto.
    unfold m1, HDRP, WSIZE. get_put. apply Htc. }
  rewrite H1.
  assert (H2 : FTRP m1 (baddr n) = baddr n + bsize n - 8).
  { apply FTRP_at; auto. unfold m1, HDRP, WSIZE. get_put. apply Htn. }
  rewrite H2.
  assert (H3 : PREV_BLKP (PUT m1 (baddr n + bsize n - 8) v) (baddr c) = baddr p).
  { apply PREV_BLKP_at; auto. unfold m1, HDRP, WSIZE. get_put. apply Htp. }
  rewrite H3. reflexivity.
Qed.
End Coalesce.

Lemma prologue_keep (P x x' : blk) (L1 t t' : list blk) :
  (exists rest, L1 ++ x :: t = P :: rest) ->
  L1 <> [] \/ x' = x ->
  exists rest, L1 ++ x' :: t' = P :: rest.
Proof.
  intros [rest H] Hx. destruct L1 as [|a L1]; simpl in *.
  - destruct Hx as [Hx| ->]; [congruence|]. inversion H; subst. eauto.
  - inversion H; subst. eauto.
Qed.

Lemma prologue_nonempty (hl : Z) (p : blk) (L1 t : list blk) :
  (exists rest, L1 ++ p :: t = mkBlk hl 8 true :: rest) ->
  balloc p = false -> L1 <> [].
Proof.
  intros [rest H] Hp. destruct L1; simpl in *; [|congruence].
  inversion H; subst. discriminate.
Qed.

Ltac in_list :=
  repeat (rewrite ?in_app_iff in *; simpl In in * );
  intuition (subst; try congruence).

Lemma coalesced_intro (s s' : state) (bs bs' : list blk) (c f : blk) :
  heap_shape s' bs' -> naf bs' -> In f bs' -> balloc f = false ->
  baddr f <= baddr c /\ baddr c + bsize c <= baddr f + bsize f ->
  same_outside (mem s) (mem s') (baddr f - 4) (baddr f + bsize f - 4) ->
  (forall x, In x bs -> balloc x = true -> In x bs') ->
  (forall x, In x bs' -> x = f \/ In x bs) ->
  heap_listp s' = heap_listp s /\ mem_brk s' = mem_brk s
  /\ mem_max_addr s' = mem_max_addr s ->
  coalesced s s' bs bs' c f (baddr f).
Proof. unfold coalesced, heap_rep. intuition. Qed.

Section CoalesceSpec.
Variables (s : state) (L1 L2 : list blk) (p c : blk).
Hypothesis Hshape : heap_shape s (L1 ++ p :: c :: L2).
Hypothesis Hfree : balloc c = false.
Hypothesis Hnaf1 : naf (L1 ++ [p]).
Hypothesis Hnaf2 : naf L2.

Let Hmem := hs_mem _ _ Hshape.

Lemma cs_low : 0 <= heap_listp s.
Proof. pose proof (hs_low _ _ Hshape). lia. Qed.

Lemma cs_high : mem_brk s < 2 ^ 32.
Proof. pose proof (hs_high _ _ Hshape). lia. Qed.

Lemma coalesce_spec1 :
  balloc p = true -> next_allocated L2 = true ->
  coalesced s (snd (coalesce s (baddr c))) (L1 ++ p :: c :: L2)
    (L1 ++ p :: c :: L2) c c (fst (coalesce s (baddr c)))
  /\ snd (coalesce s (baddr c)) = s.
Proof.
  intros Hp Hn.
  rewrite (coalesce_case1 s L1 L2 p c Hmem Hp Hn). simpl.
  split; [|reflexivity].
  apply coalesced_intro; auto; try lia.
  - apply naf_app_cons. split; [exact Hnaf1|].
    cbn [naf]. split; [auto|].
    cbn [naf]. split; [|exact Hnaf2].
    destruct L2; [exact I|]. simpl in Hn. auto.
  - in_list.
  - apply same_outside_refl.
Qed.

Lemma coalesce_spec2 (n : blk) (L2' : list blk) :
  balloc p = true -> L2 = n :: L2' -> balloc n = false ->
  let f := mkBlk (baddr c) (bsize c + bsize n) false in
  coalesced s (snd (coalesce s (baddr c))) (L1 ++ p :: c :: L2)
    (L1 ++ p :: f :: L2') c f (fst (coalesce s (baddr c)))
  /\ next_fit_ptr (snd (coalesce s (baddr c))) = baddr f.
Proof.
  intros Hp HL Hn f.
  rewrite (coalesce_case2 s L1 L2 p c Hmem cs_low cs_high n L2' Hp HL Hn). simpl.
  split; [|reflexivity].
  pose proof (co_sizes_bound s L1 L2 p c Hmem cs_low cs_high n L2' HL) as Hb.
  destruct (co_next_block s L1 L2 p c Hmem n L2' HL) as (Htn & Han & Hsn & Hmn & Hc2).
  destruct (co_facts s L1 L2 p c Hmem) as (Htp & Htc & Hps & Hpm & Hcs & Hcm & Ha & Hc1 & _).
  assert (Hfm : (bsize c + bsize n) mod 8 = 0) by (Z.div_mod_to_equations; lia).
  assert (Hout : same_outside (mem s)
            (put_tags (mem s) (baddr c) (bsize c + bsize n) 0)
            (baddr c - 4) (baddr c + (bsize c + bsize n) - 4))
    by (apply put_tags_outside; auto; lia).
  change (baddr c) with (baddr f) at 3.
  apply coalesced_intro; simpl; auto; try lia.
  - constructor; simpl; try apply Hshape.
    + eapply prologue_keep; [apply (hs_prologue _ _ Hshape)|auto].
    + replace (L1 ++ p :: f :: L2') with ((L1 ++ [p]) ++ [f] ++ L2')
        by (rewrite <- app_assoc; reflexivity).
      apply (heap_mem_replace (mem s) _ _ _ (baddr c) (baddr n + bsize n)
               (L1 ++ [p]) [c; n]).
      * rewrite <- app_assoc. simpl. rewrite <- HL. exact Hmem.
      * apply chain_mid. simpl. repeat split; auto; lia.
      * simpl. repeat split; auto; lia.
      * simpl. repeat split; auto; lia.
      * constructor; [|constructor].
        apply (put_tags_tagged (mem s) (baddr c) (bsize c + bsize n) 0); auto; lia.
      * eapply same_outside_weaken; [exact Hout| |]; lia.
    + left. exists f. split; [in_list|reflexivity].
  - apply naf_app_cons. split; [exact Hnaf1|].
    cbn [naf]. split; [auto|].
    rewrite HL in Hnaf2. apply (naf_cons_same _ n f); auto.
  - in_list.
  - subst L2. intros x Hx Hxa. in_list.
  - subst L2. intros x Hx. in_list.
Qed.

Lemma coalesce_spec3 :
  balloc p = false -> next_allocated L2 = true ->
  let f := mkBlk (baddr p) (bsize c + bsize p) false in
  coalesced s (snd (coalesce s (baddr c))) (L1 ++ p :: c :: L2)
    (L1 ++ f :: L2) c f (fst (coalesce s (baddr c)))
  /\ next_fit_ptr (snd (coalesce s (baddr c))) = baddr f.
Proof.
  intros Hp Hn f.
  rewrite (coalesce_case3 s L1 L2 p c Hmem cs_low cs_high Hp Hn). simpl.
  split; [|reflexivity].
  pose proof (co_sizes_bound2 s L1 L2 p c Hmem cs_low cs_high) as Hb.
  destruct (co_facts s L1 L2 p c Hmem)
    as (Htp & Htc & Hps & Hpm & Hcs & Hcm & Ha & Hc1 & Hc2 & _).
  assert (Hfm : (bsize c + bsize p) mod 8 = 0) by (Z.div_mod_to_equations; lia).
  set (v := PACK (bsize c + bsize p) 0).
  assert (Hv : u32 v = tagw f).
  { unfold v, tagw, f; simpl. rewrite PACK_u32 by (auto; lia).
    rewrite PACK_add by auto. reflexivity. }
  assert (Hout : same_outside (mem s)
            (PUT (PUT (mem s) (baddr c + bsize c - 8) v) (baddr p - 4) v)
            (baddr p - 4) (baddr c + bsize c - 4))
    by (eapply same_outside_trans; apply same_outside_PUT; lia).
  change (baddr p) with (baddr f) at 3.
  apply coalesced_intro; simpl; auto; try lia.
  - constructor; simpl; try apply Hshape.
    + eapply prologue_keep; [apply (hs_prologue _ _ Hshape)|left].
      eapply prologue_nonempty; [apply (hs_prologue _ _ Hshape)|exact Hp].
    + change (L1 ++ f :: L2) with (L1 ++ [f] ++ L2).
      apply (heap_mem_replace (mem s) _ _ _ (baddr p) (baddr c + bsize c) L1 [p; c]).
      * exact Hmem.
      * exact Hc1.
      * simpl. repeat split; auto; lia.
      * simpl. repeat split; auto; lia.
      * constructor; [|constructor].
        replace (baddr c + bsize c - 8) with (baddr f + bsize f - 8)
          by (simpl; lia).
        change (baddr p - 4) with (baddr f - 4).
        apply tagged_PUT_PUT; [simpl; lia|exact Hv].
      * exact Hout.
    + left. exists f. split; [in_list|reflexivity].
  - apply naf_app_cons. split; [apply (naf_snoc_same _ p f); auto|].
    cbn [naf]. split; [|exact Hnaf2].
    destruct L2; [exact I|]. simpl in Hn. auto.
  - in_list.
  - eapply same_outside_weaken; [exact Hout| |]; lia.
  - intros x Hx Hxa. in_list.
  - intros x Hx. in_list.
Qed.

Lemma coalesce_spec4 (n : blk) (L2' : list blk) :
  balloc p = false -> L2 = n :: L2' -> balloc n = false ->
  let f := mkBlk (baddr p) (bsize c + (bsize p + bsize n)) false in
  coalesced s (snd (coalesce s (baddr c))) (L1 ++ p :: c :: L2)
    (L1 ++ f :: L2') c f (fst (coalesce s (baddr c)))
  /\ next_fit_ptr (snd (coalesce s (baddr c))) = baddr f.
Proof.
  intros Hp HL Hn f.
  rewrite (coalesce_case4 s L1 L2 p c Hmem cs_low cs_high n L2' Hp HL Hn). simpl.
  split; [|reflexivity].
  pose proof (co_sizes_bound s L1 L2 p c Hmem cs_low cs_high n L2' HL) as Hb.
  destruct (co_next_block s L1 L2 p c Hmem n L2' HL) as (Htn & Han & Hsn & Hmn & Hc2).
  destruct (co_facts s L1 L2 p c Hmem)
    as (Htp & Htc & Hps & Hpm & Hcs & Hcm & Ha & Hc1 & _).
  assert (Hfm : (bsize c + (bsize p + bsize n)) mod 8 = 0)
    by (Z.div_mod_to_equations; lia).
  set (v := PACK (bsize c + (bsize p + bsize n)) 0).
  assert (Hv : u32 v = tagw f).
  { unfold v, tagw, f; simpl. rewrite PACK_u32 by (auto; lia).
    rewrite PACK_add by auto. reflexivity. }
  assert (Hout : same_outside (mem s)
            (PUT (PUT (mem s) (baddr p - 4) v) (baddr n + bsize n - 8) v)
            (baddr p - 4) (baddr n + bsize n - 4))
    by (eapply same_outside_trans; apply same_outside_PUT; lia).
  change (baddr p) with (baddr f) at 3.
  apply coalesced_intro; simpl; auto; try lia.
  - constructor; simpl; try apply Hshape.
    + eapply prologue_keep; [apply (hs_prologue _ _ Hshape)|left].
      eapply prologue_nonempty; [apply (hs_prologue _ _ Hshape)|exact Hp].
    + change (L1 ++ f :: L2') with (L1 ++ [f] ++ L2').
      apply (heap_mem_replace (mem s) _ _ _ (baddr p) (baddr n + bsize n) L1 [p; c; n]).
      * simpl. rewrite <- HL. exact Hmem.
      * exact Hc1.
      * simpl. repeat split; auto; lia.
      * simpl. repeat split; auto; lia.
      * constructor; [|constructor].
        replace (baddr n + bsize n - 8) with (baddr f + bsize f - 8)
          by (simpl; lia).
        change (baddr p - 4) with (baddr f - 4).
        apply tagged_PUT_PUT; [simpl; lia|exact Hv].
      * exact Hout.
    + left. exists f. split; [in_list|reflexivity].
  - apply naf_app_cons. split; [apply (naf_snoc_same _ p f); auto|].
    rewrite HL in Hnaf2. apply (naf_cons_same _ n f); auto.
  - in_list.
  - eapply same_outside_weaken; [exact Hout| |]; lia.
  - subst L2. intros x Hx Hxa. in_list.
  - subst L2. intros x Hx. in_list.
Qed.
End CoalesceSpec.

Lemma next_allocated_false (L2 : list blk) :
  next_allocated L2 = false -> exists n L2', L2 = n :: L2' /\ balloc n = false.
Proof. destruct L2 as [|n L2']; simpl; [discriminate|eauto]. Qed.

(** The four cases together.  The cursor is left alone in case 1 and moved
    to the merged block in the three others. *)
Lemma coalesce_spec (s : state) (L1 L2 : list blk) (p c : blk) :
  heap_shape s (L1 ++ p :: c :: L2) -> balloc c = false ->
  naf (L1 ++ [p]) -> naf L2 ->
  exists bs' f,
    coalesced s (snd (coalesce s (baddr c))) (L1 ++ p :: c :: L2) bs' c f
      (fst (coalesce s (baddr c)))
    /\ ((balloc p = true /\ next_allocated L2 = true /\ f = c
         /\ snd (coalesce s (baddr c)) = s)
        \/ ((balloc p = false \/ next_allocated L2 = false)
            /\ next_fit_ptr (snd (coalesce s (baddr c))) = baddr f)).
Proof.
  intros Hs Hc H1 H2.
  destruct (balloc p) eqn:Hp; destruct (next_allocated L2) eqn:Hn.
  - destruct (coalesce_spec1 s L1 L2 p c Hs Hc H1 H2 Hp Hn) as [Ha Hb].
    exists (L1 ++ p :: c :: L2), c. split; [exact Ha|]. left. auto.
  - destruct (next_allocated_false _ Hn) as (n & L2' & HL & Hnf).
    destruct (coalesce_spec2 s L1 L2 p c Hs Hc H1 H2 n L2' Hp HL Hnf) as [Ha Hb].
    eexists _, _. split; [exact Ha|]. right. auto.
  - destruct (coalesce_spec3 s L1 L2 p c Hs Hc H1 H2 Hp Hn) as [Ha Hb].
    eexists _, _. split; [exact Ha|]. right. auto.
  - destruct (next_allocated_false _ Hn) as (n & L2' & HL & Hnf).
    destruct (coalesce_spec4 s L1 L2 p c Hs Hc H1 H2 n L2' Hp HL Hnf) as [Ha Hb].
    eexists _, _. split; [exact Ha|]. right. auto.
Qed.

(** *** [mm_free] *)

Lemma split_with_prev (P b : blk) (rest : list blk) :
  In b (P :: rest) -> b <> P ->
  exists L1 p L2, P :: rest = L1 ++ p :: b :: L2.
Proof.
  revert P. induction rest as [|x rest IH]; intros P Hin Hne.
  - destruct Hin as [Hin|[]]. congruence.
  - destruct Hin as [Hin|Hin]; [congruence|].
    assert (Hd : b = x \/ b <> x).
    { destruct Hin as [Hin|Hin]; [auto|].
      destruct b as [ba bs0 bl], x as [xa xs xl].
      destruct (Z.eq_dec ba xa); [|right; congruence].
      destruct (Z.eq_dec bs0 xs); [|right; congruence].
      destruct (Bool.bool_dec bl xl); [left|right]; congruence. }
    destruct Hd as [->|Hd].
    + exists [], P, rest. reflexivity.
    + destruct (IH x Hin Hd) as (L1 & p & L2 & HL).
      exists (P :: L1), p, L2. simpl. rewrite HL. reflexivity.
Qed.

Lemma naf_split (L1 L2 : list blk) (p b : blk) :
  naf (L1 ++ p :: b :: L2) -> naf (L1 ++ [p]) /\ naf L2.
Proof.
  intros H. apply naf_app_cons in H. destruct H as [H1 H2].
  split; [exact H1|]. cbn [naf] in H2. destruct H2 as [_ [_ H2]]. exact H2.
Qed.

Lemma cursor_ok_same_addr (bs bs' : list blk) (brk c : Z) :
  (forall x, In x bs -> exists x', In x' bs' /\ baddr x' = baddr x) ->
  cursor_ok bs brk c -> cursor_ok bs' brk c.
Proof.
  intros H [(x & Hx & ->) | ->]; [left|right; reflexivity].
  destruct (H x Hx) as (x' & Hx' & Ha). exists x'. auto.
Qed.

(** Marking block [b] free, the first two stores of [mm_free]. *)
Lemma mark_free_shape (s : state) (L1 L2 : list blk) (p b : blk) :
  heap_shape s (L1 ++ p :: b :: L2) ->
  let m2 := put_tags (mem s) (baddr b) (bsize b) 0 in
  heap_shape (set_mem s m2) (L1 ++ p :: freed b :: L2)
  /\ same_outside (mem s) m2 (baddr b - 4) (baddr b + bsize b - 4).
Proof.
  intros Hs m2.
  pose proof (hs_mem _ _ Hs) as Hm.
  destruct (heap_mem_In _ _ _ _ b Hm) as (Ht & Hsz & Hmod & _); [in_list|].
  pose proof Hm as (Hch & _).
  replace (L1 ++ p :: b :: L2) with ((L1 ++ [p]) ++ b :: L2) in Hch
    by (rewrite <- app_assoc; reflexivity).
  apply chain_mid in Hch. destruct Hch as (Hc1 & _ & _ & Hc2).
  assert (Hout : same_outside (mem s) m2 (baddr b - 4) (baddr b + bsize b - 4))
    by (apply put_tags_outside; auto; lia).
  split; [|exact Hout].
  constructor; simpl; try apply Hs.
  - eapply prologue_keep; [apply (hs_prologue _ _ Hs)|auto].
  - replace (L1 ++ p :: freed b :: L2) with ((L1 ++ [p]) ++ [freed b] ++ L2)
      by (rewrite <- app_assoc; reflexivity).
    apply (heap_mem_replace (mem s) _ _ _ (baddr b) (baddr b + bsize b) (L1 ++ [p]) [b]).
    + rewrite <- app_assoc. exact Hm.
    + exact Hc1.
    + simpl. repeat split; auto; lia.
    + simpl. repeat split; auto; lia.
    + constructor; [|constructor].
      apply (put_tags_tagged (mem s) (baddr b) (bsize b) 0); auto; lia.
    + exact Hout.
  - eapply cursor_ok_same_addr; [|apply (hs_cursor _ _ Hs)].
    intros x Hx.
    assert (Hd : x = b \/ In x (L1 ++ p :: freed b :: L2)) by in_list.
    destruct Hd as [->|Hd]; [exists (freed b); split; [in_list|reflexivity]|eauto].
Qed.

Lemma mark_free_eq (s : state) (b : blk) :
  tagged (mem s) b -> 8 <= bsize b < 2 ^ 32 -> bsize b mod 8 = 0 ->
  mark_free s (baddr b) = set_mem s (put_tags (mem s) (baddr b) (bsize b) 0).
Proof.
  intros Ht Hs Hm. unfold mark_free. cbv zeta.
  replace (GET_SIZE (mem s) (HDRP (baddr b))) with (bsize b)
    by (symmetry; apply hdr_size; auto).
  rewrite put_hdr_then_ftr by auto. reflexivity.
Qed.

Lemma mm_free_eq (s : state) (b : blk) :
  tagged (mem s) b -> 8 <= bsize b < 2 ^ 32 -> bsize b mod 8 = 0 ->
  mm_free s (baddr b) =
    snd (coalesce (set_mem s (put_tags (mem s) (baddr b) (bsize b) 0)) (baddr b)).
Proof.
  intros Ht Hs Hm. unfold mm_free. rewrite mark_free_eq by auto. reflexivity.
Qed.

Lemma mm_free_spec (s : state) (bs : list blk) (b : blk) :
  heap_rep s bs -> In b bs -> baddr b <> heap_listp s ->
  exists bs' f,
    heap_rep (mm_free s (baddr b)) bs'
    /\ In f bs' /\ balloc f = false
    /\ baddr f <= baddr b /\ baddr b + bsize b <= baddr f + bsize f
    /\ same_outside (mem s) (mem (mm_free s (baddr b)))
         (baddr f - 4) (baddr f + bsize f - 4)
    /\ (forall x, In x bs -> balloc x = true -> x <> b -> In x bs')
    /\ heap_listp (mm_free s (baddr b)) = heap_listp s
    /\ mem_brk (mm_free s (baddr b)) = mem_brk s
    /\ mem_max_addr (mm_free s (baddr b)) = mem_max_addr s.
Proof.
  intros [Hs Hn] Hin Hne.
  destruct (hs_prologue _ _ Hs) as [rest Hbs].
  assert (HbP : b <> mkBlk (heap_listp s) 8 true) by (intros ->; simpl in Hne; lia).
  rewrite Hbs in Hin.
  destruct (split_with_prev _ _ _ Hin HbP) as (L1 & p & L2 & HL).
  clear Hin. rewrite HL in Hbs. subst bs.
  destruct (heap_mem_In _ _ _ _ b (hs_mem _ _ Hs)) as (Ht & Hsz & Hmod & _); [in_list|].
  rewrite (mm_free_eq s b Ht Hsz Hmod).
  destruct (mark_free_shape s L1 L2 p b Hs) as [Hs1 Hout1].
  destruct (naf_split _ _ _ _ Hn) as [Hn1 Hn2].
  set (s1 := set_mem s (put_tags (mem s) (baddr b) (bsize b) 0)) in *.
  destruct (coalesce_spec s1 L1 L2 p (freed b) Hs1 eq_refl Hn1 Hn2)
    as (bs' & f & Hco & _).
  simpl baddr in Hco.
  destruct Hco as (Hrep & _ & Hf & Hff & Hlo & Hhi & Hout2 & Hkeep & _ & Hh & Hb & Hx).
  simpl in Hlo, Hhi.
  exists bs', f. split; [exact Hrep|]. repeat split; auto.
  - eapply same_outside_trans; [|exact Hout2].
    eapply same_outside_weaken; [exact Hout1| |]; lia.
  - intros x Hx1 Hx2 Hx3. apply Hkeep; [|exact Hx2]. in_list.
Qed.

(** *** [find_fit] *)

Lemma find_fit_from_chain (s : state) (asize : Z) (l : list blk) :
  forall (p : Z) (fuel : nat),
    chain p l (mem_brk s) -> Forall (tagged (mem s)) l ->
    GET (mem s) (mem_brk s - 4) = 1 ->
    (length l < fuel)%nat ->
    (exists la b lb,
        l = la ++ b :: lb /\ fits_blk asize b
        /\ (forall x, In x la -> ~ fits_blk asize x)
        /\ find_fit_from fuel s asize p
           = Returns (baddr b) (set_next_fit_ptr s (baddr b)))
    \/ ((forall x, In x l -> ~ fits_blk asize x)
        /\ find_fit_from fuel s asize p
           = Returns NULL (set_next_fit_ptr s (heap_listp s))).
Proof.
  induction l as [|b l IH]; intros p fuel Hc Hf He Hfuel.
  - right. split; [intros x []|].
    destruct fuel as [|fuel]; [simpl in Hfuel; lia|].
    simpl in Hc. subst p. simpl.
    destruct (epilogue_tag _ _ He) as [-> _]. reflexivity.
  - destruct fuel as [|fuel]; [simpl in Hfuel; lia|].
    simpl in Hc. destruct Hc as (Ha & Hs & Hm & Hc). subst p.
    inversion Hf as [|? ? Hb Hf']; subst.
    cbn [find_fit_from]. unfold HDRP, WSIZE.
    rewrite (hdr_size _ _ Hb Hm), (hdr_alloc _ _ Hb Hm).
    destruct (Z.gtb_spec (bsize b) 0) as [_|Hle]; [|lia].
    destruct ((Z.b2z (balloc b) =? 0) && (asize <=? bsize b)) eqn:Hfit.
    + left. exists [], b, l. split; [reflexivity|].
      apply andb_true_iff in Hfit. destruct Hfit as [H1 H2].
      apply Z.eqb_eq in H1. apply Z.leb_le in H2.
      split; [split; [destruct (balloc b); [discriminate|reflexivity]|exact H2]|].
      split; [intros x []|reflexivity].
    + rewrite (NEXT_BLKP_at _ b) by (auto; apply Hb).
      assert (Hnb : ~ fits_blk asize b).
      { intros [H1 H2]. rewrite H1 in Hfit. simpl in Hfit.
        apply Z.leb_gt in Hfit. lia. }
      destruct (IH (baddr b + bsize b) fuel Hc Hf' He) as
        [(la & x & lb & HL & Hx & Hla & Hr)|[Hno Hr]]; [simpl in Hfuel; lia| |].
      * left. exists (b :: la), x, lb. subst l. repeat split; auto; try apply Hx.
        intros y [<-|Hy]; auto.
      * right. split; [|exact Hr]. intros y [<-|Hy]; auto.
Qed.

Lemma cursor_suffix (s : state) (bs : list blk) :
  heap_shape s bs ->
  exists l0 l, bs = l0 ++ l /\ chain (next_fit_ptr s) l (mem_brk s).
Proof.
  intros Hs. destruct (hs_mem _ _ Hs) as (Hc & _).
  destruct (hs_cursor _ _ Hs) as [(x & Hx & Hcur)|Hcur].
  - destruct (chain_In _ _ _ _ Hc Hx) as (l1 & l2 & -> & H1 & Hsz & Hm & H2).
    exists l1, (x :: l2). split; [reflexivity|]. rewrite Hcur. simpl. auto.
  - exists bs, []. rewrite app_nil_r. split; [reflexivity|]. simpl. exact Hcur.
Qed.

Lemma enough_fuel_length (s : state) (bs : list blk) (fuel : nat) :
  heap_shape s bs -> enough_fuel s fuel -> (length bs < fuel)%nat.
Proof.
  intros Hs Hf. destruct (hs_mem _ _ Hs) as (Hc & _).
  pose proof (chain_le _ _ _ Hc) as Hle.
  destruct (hs_prologue _ _ Hs) as [rest ->].
  unfold enough_fuel in Hf. simpl length in *. lia.
Qed.

Lemma find_fit_rep (s : state) (bs : list blk) (fuel : nat) (asize : Z) :
  heap_shape s bs -> enough_fuel s fuel ->
  (exists b, In b bs /\ fits_blk asize b
             /\ find_fit fuel s asize
                = Returns (baddr b) (set_next_fit_ptr s (baddr b)))
  \/ find_fit fuel s asize = Returns NULL (set_next_fit_ptr s (heap_listp s)).
Proof.
  intros Hs Hfuel.
  pose proof (enough_fuel_length _ _ _ Hs Hfuel) as Hlen.
  destruct (cursor_suffix _ _ Hs) as (l0 & l & -> & Hc).
  destruct (hs_mem _ _ Hs) as (_ & Hf & He).
  apply Forall_app in Hf. destruct Hf as [_ Hf].
  rewrite length_app in Hlen.
  destruct (find_fit_from_chain s asize l _ fuel Hc Hf He)
    as [(la & b & lb & HL & Hb & _ & Hr)|[_ Hr]]; [lia| |].
  - left. exists b. subst l. split; [in_list|]. auto.
  - right. exact Hr.
Qed.

Lemma set_cursor_shape (s : state) (bs : list blk) (c : Z) :
  heap_shape s bs -> cursor_ok bs (mem_brk s) c ->
  heap_shape (set_next_fit_ptr s c) bs.
Proof. intros Hs Hc. constructor; simpl; try apply Hs. exact Hc. Qed.

(** *** [extend_heap] *)

Lemma extend_heap_size_ok (words : Z) :
  extend_heap_size words mod 8 = 0 /\ 0 <= extend_heap_size words < 2 ^ 32.
Proof.
  unfold extend_heap_size, u32, WSIZE.
  destruct (Z.eqb_spec (words mod 2) 0) as [He|Hne]; simpl negb; cbv iota;
    (split; [|apply Z.mod_pos_bound; zlia]);
    change (2 ^ 32) with 4294967296; Z.div_mod_to_equations; zlia.
Qed.

Lemma extend_heap_format_mem (s : state) (bp size : Z) :
  8 <= size < 2 ^ 32 -> size mod 8 = 0 ->
  mem (extend_heap_format s bp size)
  = PUT (put_tags (mem s) bp size 0) (bp + size - 4) 1.
Proof.
  intros Hs Hm. unfold extend_heap_format. cbv zeta. simpl mem.
  rewrite put_hdr_then_ftr by auto.
  rewrite put_tags_next by auto. reflexivity.
Qed.

Lemma extend_format_shape (s : state) (bs : list blk) (size : Z) :
  heap_shape s bs -> 8 <= size < 2 ^ 31 -> size mod 8 = 0 ->
  mem_brk s + size <= mem_max_addr s ->
  let s1 := extend_heap_format (set_mem_brk s (mem_brk s + size)) (mem_brk s) size in
  heap_shape s1 (bs ++ [mkBlk (mem_brk s) size false])
  /\ same_outside (mem s) (mem s1) (mem_brk s - 4) (mem_brk s + size).
Proof.
  intros Hs Hsz Hm Hmax s1.
  assert (Hmem : mem s1 = PUT (put_tags (mem s) (mem_brk s) size 0)
                            (mem_brk s + size - 4) 1).
  { unfold s1. rewrite extend_heap_format_mem by (auto; zlia). reflexivity. }
  assert (Hout : same_outside (mem s) (mem s1) (mem_brk s - 4) (mem_brk s + size)).
  { rewrite Hmem.
    apply (same_outside_trans _ (put_tags (mem s) (mem_brk s) size 0)).
    - eapply same_outside_weaken; [apply put_tags_outside; auto; zlia| |]; zlia.
    - apply same_outside_PUT; zlia. }
  split; [|exact Hout].
  destruct (hs_mem _ _ Hs) as (Hc & Hf & He).
  constructor.
  - destruct (hs_prologue _ _ Hs) as [rest ->]. simpl. eauto.
  - unfold s1 at 2 3. simpl heap_listp. simpl mem_brk. repeat split.
    + apply chain_app. exists (mem_brk s). split; [exact Hc|].
      simpl. repeat split; auto; zlia.
    + apply Forall_app. split.
      * eapply Forall_tagged_outside; eauto. zlia.
      * constructor; [|constructor]. rewrite Hmem.
        apply (tagged_ext (put_tags (mem s) (mem_brk s) size 0)).
        -- intros a Ha. simpl in Ha. apply PUT_other. zlia.
        -- apply (put_tags_tagged (mem s) (mem_brk s) size 0); auto; zlia.
    + rewrite Hmem. get_put. reflexivity.
  - unfold s1. simpl.
    destruct (hs_cursor _ _ Hs) as [(x & Hx & Hcur)|Hcur].
    + left. exists x. split; [in_list|exact Hcur].
    + left. exists (mkBlk (mem_brk s) size false). split; [in_list|exact Hcur].
  - unfold s1. simpl. apply Hs.
  - unfold s1. simpl. pose proof (hs_high _ _ Hs). zlia.
Qed.

Lemma list_last_split (A : Type) (l : list A) :
  l <> [] -> exists l' x, l = l' ++ [x].
Proof.
  intros H. destruct (exists_last H) as (l' & x & ->). eauto.
Qed.

Lemma extend_heap_spec (s : state) (bs : list blk) (words : Z) :
  heap_rep s bs ->
  let size := extend_heap_size words in
  8 <= size ->
  (extend_heap s words = (NULL, s)
   /\ (2 ^ 31 <= size \/ mem_max_addr s < mem_brk s + size))
  \/ (size < 2 ^ 31 /\ mem_brk s + size <= mem_max_addr s
      /\ exists bs' f,
        let r := fst (extend_heap s words) in
        let s' := snd (extend_heap s words) in
        heap_rep s' bs' /\ r = baddr f /\ In f bs' /\ balloc f = false
        /\ size <= bsize f /\ baddr f + bsize f = mem_brk s'
        /\ mem_brk s' = mem_brk s + size
        /\ same_outside (mem s) (mem s') (baddr f - 4) (mem_brk s')
        /\ (forall x, In x bs -> balloc x = true -> In x bs')
        /\ heap_listp s' = heap_listp s /\ mem_max_addr s' = mem_max_addr s).
Proof.
  intros [Hs Hn] size Hsz.
  destruct (extend_heap_size_ok words) as [Hmod Hr]. fold size in Hmod, Hr.
  pose proof (hs_low _ _ Hs) as Hlow.
  destruct (hs_mem _ _ Hs) as (Hc & _).
  pose proof (chain_le _ _ _ Hc) as Hle.
  unfold extend_heap, mem_sbrk, to_int. fold size.
  destruct (Z.ltb_spec size (2 ^ 31)) as [Hlt|Hge].
  2:{ left. split; [|left; exact Hge].
      destruct (Z.ltb_spec (size - 2 ^ 32) 0); [reflexivity|zlia]. }
  destruct (Z.ltb_spec size 0); [zlia|].
  destruct (Z.gtb_spec (mem_brk s + size) (mem_max_addr s)) as [Hgt|Hfit];
    [left; split; [reflexivity|right; zlia]|].
  right. simpl orb. cbv iota beta.
  destruct (Z.eqb_spec (mem_brk s) (-1)); [zlia|].
  split; [exact Hlt|]. split; [exact Hfit|].
  destruct (extend_format_shape s bs size Hs) as [Hs1 Hout1]; auto; try zlia.
  set (s1 := extend_heap_format (set_mem_brk s (mem_brk s + size)) (mem_brk s) size) in *.
  set (nb := mkBlk (mem_brk s) size false) in *.
  assert (Hne : bs <> []) by (destruct (hs_prologue _ _ Hs) as [rest ->]; discriminate).
  destruct (list_last_split _ bs Hne) as (L1 & p & HL).
  assert (HL' : bs ++ [nb] = L1 ++ p :: nb :: []).
  { rewrite HL, <- app_assoc. reflexivity. }
  rewrite HL' in Hs1.
  assert (Hn1 : naf (L1 ++ [p])) by (rewrite <- HL; exact Hn).
  destruct (coalesce_spec s1 L1 [] p nb Hs1 eq_refl Hn1 I) as (bs' & f & Hco & _).
  change (baddr nb) with (mem_brk s) in Hco.
  destruct Hco as (Hrep & Hr' & Hf & Hff & Hlo & Hhi & Hout2 & Hkeep & _ & Hh & Hb & Hx).
  exists bs', f. cbv zeta.
  assert (Hbrk : mem_brk (snd (coalesce s1 (mem_brk s))) = mem_brk s + size)
    by (rewrite Hb; reflexivity).
  assert (Hend : baddr f + bsize f = mem_brk s + size).
  { destruct Hrep as [Hs' _]. destruct (hs_mem _ _ Hs') as (Hc' & _).
    pose proof (chain_bounds _ _ _ _ Hc' Hf) as Hbd. rewrite Hbrk in Hbd.
    simpl in Hhi, Hlo. zlia. }
  simpl in Hlo, Hhi.
  split; [exact Hrep|]. repeat split; auto; try zlia.
  - rewrite Hbrk. eapply same_outside_trans.
    + eapply same_outside_weaken; [exact Hout1| |]; zlia.
    + eapply same_outside_weaken; [exact Hout2| |]; zlia.
  - intros x Hx1 Hx2. apply Hkeep; [|exact Hx2]. rewrite <- HL'. in_list.
Qed.

(** *** [mm_malloc] *)

Lemma adjusted_size_ok (size : Z) :
  0 < size <= 2 ^ 32 - 16 ->
  adjusted_size size = 8 * ((size + 8 + 7) / 8)
  /\ 16 <= adjusted_size size < 2 ^ 32
  /\ adjusted_size size mod 8 = 0
  /\ size + 8 <= adjusted_size size.
Proof.
  intros H. unfold adjusted_size, u32, DSIZE, OVERHEAD.
  change (2 ^ 32) with 4294967296 in *.
  destruct (Z.leb_spec size 8).
  - simpl Z.add. repeat split; try lia. Z.div_mod_to_equations. lia.
  - rewrite (Z.mod_small (size + 8 + (8 - 1))) by lia.
    rewrite Z.mod_small by (Z.div_mod_to_equations; lia).
    repeat split; try (Z.div_mod_to_equations; lia).
Qed.

Lemma chain_next_cursor (hl brk : Z) (L1 L3 : list blk) (a : blk) :
  chain hl (L1 ++ a :: L3) brk ->
  cursor_ok (L1 ++ a :: L3) brk (baddr a + bsize a).
Proof.
  intros H. apply chain_mid in H. destruct H as (_ & _ & _ & H).
  destruct L3 as [|x L3]; simpl in H.
  - right. exact H.
  - left. exists x. split; [in_list|]. symmetry. apply H.
Qed.

Lemma place_step (s : state) (bs : list blk) (b : blk) (asize : Z) :
  heap_rep s bs -> In b bs -> balloc b = false ->
  8 <= asize -> asize mod 8 = 0 -> asize <= bsize b ->
  let s2 := place s (baddr b) asize in
  let s' := set_next_fit_ptr s2 (NEXT_BLKP (mem s2) (baddr b)) in
  exists bs' a,
    heap_rep s' bs' /\ In a bs' /\ baddr a = baddr b /\ balloc a = true
    /\ asize <= bsize a
    /\ (forall x, In x bs -> balloc x = true -> kept s s' bs' a x)
    /\ heap_listp s' = heap_listp s /\ mem_brk s' = mem_brk s
    /\ mem_max_addr s' = mem_max_addr s.
Proof.
  intros [Hs Hn] Hin Hfree Ha Hmod Hle s2 s'.
  pose proof (hs_mem _ _ Hs) as Hm.
  pose proof Hm as (Hch & _).
  destruct (in_split _ _ Hin) as (L1 & L2 & HL). subst bs.
  destruct (place_heap s _ _ L1 L2 b asize Hm Ha Hmod Hle) as [Hm2 Hout].
  fold s2 in Hm2, Hout.
  destruct (place_fields s (baddr b) asize) as (Hf1 & Hf2 & Hf3 & Hf4).
  fold s2 in Hf1, Hf2, Hf3, Hf4.
  destruct (heap_mem_In _ _ _ _ b Hm Hin) as (_ & Hbs & Hbm & _).
  assert (Hpb : exists a tl, place_blocks b asize = a :: tl
              /\ baddr a = baddr b /\ balloc a = true /\ asize <= bsize a
              /\ naf (a :: tl ++ L2)).
  { apply naf_app_cons in Hn. destruct Hn as [_ Hn2].
    unfold place_blocks. destruct (_ >=? _).
    - eexists _, _. split; [reflexivity|].
      split; [reflexivity|]. split; [reflexivity|]. split; [simpl; lia|].
      apply naf_cons_alloc; [|reflexivity].
      apply (naf_cons_same _ b); auto.
    - eexists _, _. split; [reflexivity|].
      split; [reflexivity|]. split; [reflexivity|]. split; [simpl; lia|].
      apply naf_cons_alloc; [|reflexivity].
      cbn [naf] in Hn2. apply Hn2. }
  destruct Hpb as (a & tl & Hpb & Haa & Hal & Has & Hntl).
  rewrite Hpb in Hm2. simpl in Hm2.
  assert (Hta : tagged (mem s2) a /\ bsize a mod 8 = 0).
  { destruct (heap_mem_In _ _ _ _ a Hm2) as (Ht & _ & Hmm & _); [in_list|]. auto. }
  assert (Hnext : NEXT_BLKP (mem s2) (baddr b) = baddr a + bsize a).
  { rewrite <- Haa. apply NEXT_BLKP_at; apply Hta. }
  exists (L1 ++ a :: tl ++ L2), a.
  assert (HL1 : L1 <> []).
  { eapply prologue_nonempty; [apply (hs_prologue _ _ Hs)|exact Hfree]. }
  split; [split|].
  - constructor.
    + unfold s'. simpl. rewrite Hf1.
      eapply prologue_keep; [apply (hs_prologue _ _ Hs)|left; exact HL1].
    + unfold s'. simpl. rewrite Hf1, Hf3. exact Hm2.
    + unfold s'. simpl. rewrite Hf3, Hnext.
      destruct Hm2 as (Hc2 & _). eapply chain_next_cursor. exact Hc2.
    + unfold s'. simpl. rewrite Hf1. apply Hs.
    + unfold s'. simpl. rewrite Hf3, Hf4. apply Hs.
  - apply naf_app_cons. split; [|exact Hntl].
    apply naf_app_cons in Hn. destruct Hn as [Hn1 _].
    apply naf_app in Hn1. apply naf_snoc_alloc; tauto.
  - split; [in_list|]. split; [exact Haa|]. split; [exact Hal|].
    split; [exact Has|]. split; [|unfold s'; simpl; auto].
    intros x Hx Hxa.
    assert (Hxb : x <> b) by congruence.
    destruct (chain_disjoint _ _ _ _ _ Hch Hx Hin) as [Heq|Hdis]; [contradiction|].
    pose proof (chain_bounds _ _ _ _ Hch Hx) as Hbx.
    repeat split.
    + in_list.
    + intros ->. apply Hxb. eapply chain_addr_inj; eauto.
    + intros addr Hr. unfold s'. simpl. apply Hout. lia.
Qed.

Lemma extend_request (asize : Z) :
  0 <= asize < 2 ^ 32 -> asize mod 8 = 0 ->
  let extendsize := MAX asize CHUNKSIZE in
  extend_heap_size (extendsize / WSIZE) = extendsize
  /\ asize <= extendsize /\ CHUNKSIZE <= extendsize.
Proof.
  intros Hr Hm. unfold MAX, CHUNKSIZE, extend_heap_size, WSIZE, u32.
  change (Z.shiftl 1 16) with 65536. change (2 ^ 32) with 4294967296 in *.
  destruct (Z.gtb_spec asize 65536).
  - assert (He : (asize / 4) mod 2 = 0) by (Z.div_mod_to_equations; lia).
    rewrite He. simpl. rewrite Z.mod_small by (Z.div_mod_to_equations; lia).
    repeat split; try lia. Z.div_mod_to_equations; lia.
  - simpl. repeat split; try lia; try reflexivity.
Qed.

Lemma mm_malloc_spec (fuel : nat) (s : state) (bs : list blk) (size : Z) :
  heap_rep s bs -> 0 < size <= 2 ^ 32 - 16 -> enough_fuel s fuel ->
  exists p s',
    mm_malloc fuel s size = Returns p s'
    /\ ((p = NULL /\ heap_rep s' bs /\ mem s' = mem s
         /\ mem_brk s' = mem_brk s /\ heap_listp s' = heap_listp s
         /\ mem_max_addr s' = mem_max_addr s)
        \/ (p <> NULL /\ malloc_ok s s' bs (adjusted_size size) p)).
Proof.
  intros [Hs Hn] Hsize Hfuel. unfold mm_malloc.
  destruct (Z.leb_spec size 0); [lia|].
  destruct (adjusted_size_ok size Hsize) as (_ & Hr & Hm & Hsz).
  set (asize := adjusted_size size) in *.
  pose proof (hs_low _ _ Hs) as Hlow.
  destruct (find_fit_rep s bs fuel asize Hs Hfuel)
    as [(b & Hb & [Hbf Hbs] & Hfit)|Hfit]; rewrite Hfit.
  - destruct (heap_mem_In _ _ _ _ b (hs_mem _ _ Hs) Hb) as (_ & _ & _ & Hlo & _).
    unfold NULL. destruct (Z.eqb_spec (baddr b) 0); [lia|]. simpl negb. cbv iota.
    set (s1 := set_next_fit_ptr s (baddr b)).
    assert (Hs1 : heap_rep s1 bs).
    { split; [|exact Hn]. apply set_cursor_shape; [exact Hs|]. left. eauto. }
    destruct (place_step s1 bs b asize Hs1 Hb Hbf) as
      (bs' & a & Hrep & Ha & Haa & Hal & Has & Hkeep & Hf1 & Hf2 & Hf3); auto; try lia.
    eexists _, _. split; [reflexivity|]. right. split; [exact n|].
    exists bs', a. repeat split; auto; try apply Hrep.
    + apply (Hkeep x); auto.
    + apply (Hkeep x); auto.
    + apply (Hkeep x); auto.
  - change (negb (NULL =? NULL)) with false. cbv iota.
    destruct (extend_request asize) as (Hreq & Hge & Hchunk); [lia|exact Hm|].
    set (words := MAX asize CHUNKSIZE / WSIZE) in *.
    set (s1 := set_next_fit_ptr s (heap_listp s)).
    assert (Hs1 : heap_rep s1 bs).
    { split; [|exact Hn]. apply set_cursor_shape; [exact Hs|]. left.
      destruct (hs_prologue _ _ Hs) as [rest ->]. eexists. split; [left; reflexivity|].
      reflexivity. }
    assert (H8 : 8 <= extend_heap_size words) by (rewrite Hreq; lia).
    destruct (extend_heap_spec s1 bs words Hs1 H8)
      as [[Hfail _]|(Hlt & Hroom & bs2 & f & Hext)].
    + rewrite Hfail. simpl. exists NULL, s1. split; [reflexivity|]. left.
      repeat split; auto; apply Hs1.
    + destruct (extend_heap s1 words) as [r s2] eqn:He. cbv zeta in Hext. simpl in Hext.
      destruct Hext as (Hrep2 & Hr2 & Hf & Hff & Hfs & Hfend & Hbrk & Hout & Hkeep2 & Hh2 & Hx2).
      pose proof Hrep2 as [Hs2 _].
      destruct (heap_mem_In _ _ _ _ f (hs_mem _ _ Hs2) Hf) as (_ & _ & _ & Hlo & _).
      rewrite Hh2 in Hlo. simpl in Hlo.
      subst r. unfold NULL. destruct (Z.eqb_spec (baddr f) 0); [lia|].
      destruct (place_step s2 bs2 f asize Hrep2 Hf Hff) as
        (bs' & a & Hrep & Ha & Haa & Hal & Has & Hkeep & Hf1 & Hf2 & Hf3);
        auto; try lia.
      eexists _, _. split; [reflexivity|]. right. split; [exact n|].
      exists bs', a. split; [exact Hrep|]. split; [exact Ha|]. split; [exact Haa|].
      split; [exact Hal|]. split; [exact Has|].
      split; [|rewrite Hf1, Hf3, Hh2, Hx2; auto].
      intros x Hx Hxa.
      destruct (Hkeep x (Hkeep2 x Hx Hxa) Hxa) as (Hk1 & Hk2 & Hk3).
      split; [exact Hk1|]. split; [exact Hk2|].
      intros addr Haddr. rewrite Hk3 by exact Haddr.
      change (mem s) with (mem s1). apply Hout.
      destruct (hs_mem _ _ Hs2) as (Hc2 & _).
      assert (Hxf : x <> f) by congruence.
      destruct (chain_disjoint _ _ _ _ _ Hc2 (Hkeep2 x Hx Hxa) Hf) as [Heq|Hdis];
        [contradiction|].
      pose proof (chain_bounds _ _ _ _ Hc2 (Hkeep2 x Hx Hxa)). lia.
Qed.

(** *** [mm_init] *)

Lemma mm_init_spec (s : state) :
  init_room s ->
  fst (mm_init s) = 0 /\ exists bs, heap_rep (snd (mm_init s)) bs.
Proof.
  unfold init_room, CHUNKSIZE, WSIZE. change (Z.shiftl 1 16) with 65536.
  intros (Hpos & Hroom & Hmax).
  unfold mm_init, mem_sbrk, WSIZE, DSIZE, NULL. change (4 * 4) with 16.
  destruct (Z.ltb_spec 16 0); [lia|].
  destruct (Z.gtb_spec (mem_brk s + 16) (mem_max_addr s)); [lia|].
  simpl orb. cbv iota beta.
  destruct (Z.eqb_spec (mem_brk s) 0); [lia|].
  cbv zeta. simpl heap_listp. simpl mem.
  change (PACK OVERHEAD 1) with 9. change (PACK 0 1) with 1.
  set (brk := mem_brk s) in *.
  set (m4 := PUT (PUT (PUT (PUT (mem s) brk 0) (brk + 4) 9) (brk + 8) 9) (brk + 8 + 4) 1).
  set (s4 := set_next_fit_ptr _ _).
  assert (Hs4 : heap_rep s4 [mkBlk (brk + 8) 8 true]).
  { split; [|simpl; auto]. constructor.
    - eexists. reflexivity.
    - unfold s4. simpl. split; [|split].
      + simpl. repeat split; simpl; lia.
      + constructor; [|constructor]. unfold m4. split; simpl; get_put; reflexivity.
      + unfold m4. get_put. reflexivity.
    - left. eexists. split; [left; reflexivity|reflexivity].
    - unfold s4. simpl. lia.
    - unfold s4. simpl. fold brk. zlia. }
  assert (H8 : 8 <= extend_heap_size (CHUNKSIZE / 4)) by (vm_compute; discriminate).
  destruct (extend_heap_spec s4 _ (CHUNKSIZE / 4) Hs4 H8)
    as [[_ Hfail]|(_ & _ & bs' & f & Hext)].
  - exfalso. change (extend_heap_size (CHUNKSIZE / 4)) with 65536 in Hfail.
    unfold s4 in Hfail. simpl in Hfail. fold brk in Hfail. zlia.
  - destruct (extend_heap s4 (CHUNKSIZE / 4)) as [r s5] eqn:He.
    cbv zeta in Hext. simpl in Hext.
    destruct Hext as (Hrep & Hr & Hf & _ & _ & _ & _ & _ & _ & Hh & _).
    pose proof Hrep as [Hs5 _].
    destruct (heap_mem_In _ _ _ _ f (hs_mem _ _ Hs5) Hf) as (_ & _ & _ & Hlo & _).
    rewrite Hh in Hlo. unfold s4 in Hlo. simpl in Hlo.
    destruct (Z.eqb_spec r 0); [lia|]. simpl. eauto.
Qed.

(* ------------------------------------------------------------------ *)
(** ** Fuel *)

Lemma find_fit_from_mono (s : state) (asize : Z) (fuel fuel' : nat) :
  forall bp r s',
    find_fit_from fuel s asize bp = Returns r s' -> (fuel <= fuel')%nat ->
    find_fit_from fuel' s asize bp = Returns r s'.
Proof.
  revert fuel'. induction fuel as [|fuel IH]; intros fuel' bp r s' H Hle;
    [discriminate|].
  destruct fuel' as [|fuel']; [lia|].
  simpl in *. destruct (_ >? _); [|exact H].
  destruct (_ && _); [exact H|]. apply IH; [exact H|lia].
Qed.

Lemma find_fit_from_no_exit (s : state) (asize : Z) (fuel : nat) :
  forall bp out st, find_fit_from fuel s asize bp <> Exits out st.
Proof.
  induction fuel as [|fuel IH]; intros bp out st; simpl; [discriminate|].
  destruct (_ >? _); [|discriminate]. destruct (_ && _); [discriminate|apply IH].
Qed.

Lemma mm_malloc_mono (s : state) (size : Z) (fuel fuel' : nat) (p : Z) (s' : state) :
  mm_malloc fuel s size = Returns p s' -> (fuel <= fuel')%nat ->
  mm_malloc fuel' s size = Returns p s'.
Proof.
  unfold mm_malloc, find_fit. intros H Hle.
  destruct (size <=? 0); [exact H|].
  destruct (find_fit_from fuel s _ _) as [bp s1| |] eqn:Hf; try discriminate.
  rewrite (find_fit_from_mono _ _ _ _ _ _ _ Hf Hle). exact H.
Qed.

Lemma mm_malloc_no_exit (s : state) (size : Z) (fuel : nat) (out : string) (st : Z) :
  mm_malloc fuel s size <> Exits out st.
Proof.
  unfold mm_malloc, find_fit. destruct (size <=? 0); [discriminate|].
  destruct (find_fit_from fuel s _ _) as [bp s1| |] eqn:Hf; try discriminate.
  - destruct (negb _); [discriminate|].
    destruct (extend_heap _ _). destruct (_ =? _); discriminate.
  - exfalso. eapply find_fit_from_no_exit. exact Hf.
Qed.

Lemma heap_walk_mono (m : memory) (fuel fuel' : nat) :
  forall bp l, heap_walk fuel m bp = Some l -> (fuel <= fuel')%nat ->
               heap_walk fuel' m bp = Some l.
Proof.
  revert fuel'. induction fuel as [|fuel IH]; intros fuel' bp l H Hle;
    [discriminate|].
  destruct fuel' as [|fuel']; [lia|].
  simpl in *. destruct (_ >? _); [|exact H].
  destruct (heap_walk fuel m _) as [l'|] eqn:Hw; [|discriminate].
  rewrite (IH fuel' _ _ Hw) by lia. exact H.
Qed.

Lemma heap_walk_det (m : memory) (f1 f2 : nat) (bp : Z) (l1 l2 : list Z) :
  heap_walk f1 m bp = Some l1 -> heap_walk f2 m bp = Some l2 -> l1 = l2.
Proof.
  intros H1 H2.
  apply (heap_walk_mono _ _ (Nat.max f1 f2)) in H1; [|lia].
  apply (heap_walk_mono _ _ (Nat.max f1 f2)) in H2; [|lia].
  congruence.
Qed.

Lemma heap_walk_chain (m : memory) (brk : Z) (l : list blk) :
  forall p fuel,
    chain p l brk -> Forall (tagged m) l -> GET m (brk - 4) = 1 ->
    (length l < fuel)%nat ->
    heap_walk fuel m p = Some (map baddr l).
Proof.
  induction l as [|b l IH]; intros p fuel Hc Hf He Hfuel;
    (destruct fuel as [|fuel]; [simpl in Hfuel; lia|]).
  - simpl in Hc. subst p. simpl.
    destruct (epilogue_tag _ _ He) as [-> _]. reflexivity.
  - simpl in Hc. destruct Hc as (Ha & Hs & Hm & Hc). subst p.
    inversion Hf as [|? ? Hb Hf']; subst.
    cbn [heap_walk map]. unfold HDRP, WSIZE. rewrite (hdr_size _ _ Hb Hm).
    destruct (Z.gtb_spec (bsize b) 0); [|lia].
    rewrite (NEXT_BLKP_at _ b) by (auto; apply Hb).
    rewrite (IH _ fuel Hc Hf' He) by (simpl in Hfuel; lia). reflexivity.
Qed.

(* ------------------------------------------------------------------ *)
(** ** The walk and the block list *)

Lemma walked_rep (s : state) (bs : list blk) :
  heap_shape s bs -> walked s (map baddr bs).
Proof.
  intros Hs. destruct (hs_mem _ _ Hs) as (Hc & Hf & He).
  exists (S (length bs)). apply (heap_walk_chain _ (mem_brk s)); auto.
Qed.

Lemma walked_rep_inv (s : state) (bs : list blk) (l : list Z) :
  heap_shape s bs -> walked s l -> l = map baddr bs.
Proof.
  intros Hs [f1 H1]. destruct (walked_rep _ _ Hs) as [f2 H2].
  eapply heap_walk_det; eauto.
Qed.

Lemma rep_headers_match (s : state) (bs : list blk) :
  heap_shape s bs -> headers_match_footers s.
Proof.
  intros Hs. exists (map baddr bs). split; [apply walked_rep; exact Hs|].
  intros bp Hin. apply in_map_iff in Hin. destruct Hin as (b & <- & Hb).
  destruct (heap_mem_In _ _ _ _ b (hs_mem _ _ Hs) Hb) as (Ht & _ & Hm & _).
  rewrite (FTRP_at _ b) by (auto; apply Ht).
  unfold HDRP, WSIZE. destruct Ht as [-> ->]. reflexivity.
Qed.

Lemma rep_next_alloc (s : state) (L1 L2 : list blk) (b : blk) :
  heap_shape s (L1 ++ b :: L2) ->
  GET_ALLOC (mem s) (HDRP (NEXT_BLKP (mem s) (baddr b)))
  = Z.b2z (next_allocated L2).
Proof.
  intros Hs. pose proof (hs_mem _ _ Hs) as Hm.
  destruct (heap_mem_In _ _ _ _ b Hm) as (Ht & _ & Hmod & _); [in_list|].
  rewrite (NEXT_BLKP_at _ b) by (auto; apply Ht).
  destruct Hm as (Hc & Hf & He). apply chain_mid in Hc.
  destruct Hc as (_ & _ & _ & Hc).
  destruct L2 as [|n L2]; simpl in Hc |- *.
  - rewrite Hc. apply epilogue_tag in He. apply He.
  - destruct Hc as (Ha & _ & Hnm & _). rewrite <- Ha.
    rewrite Forall_forall in Hf. apply hdr_alloc; auto. apply Hf. in_list.
Qed.

Lemma rep_no_adjacent_free (s : state) (bs : list blk) :
  heap_rep s bs -> no_adjacent_free s.
Proof.
  intros [Hs Hn]. exists (map baddr bs). split; [apply walked_rep; exact Hs|].
  intros bp Hin Hfree. apply in_map_iff in Hin. destruct Hin as (b & <- & Hb).
  destruct (in_split _ _ Hb) as (L1 & L2 & ->).
  rewrite (rep_next_alloc s L1 L2 b Hs).
  destruct (heap_mem_In _ _ _ _ b (hs_mem _ _ Hs) Hb) as (Ht & _ & Hm & _).
  unfold HDRP, WSIZE in Hfree. rewrite (hdr_alloc _ _ Ht Hm) in Hfree.
  apply naf_app_cons in Hn. destruct Hn as [_ Hn]. cbn [naf] in Hn.
  destruct L2 as [|n L2]; simpl; [discriminate|].
  destruct Hn as [[Hn|Hn] _]; rewrite Hn in *; simpl in *; discriminate.
Qed.

Lemma allocated_block_rep (s : state) (bs : list blk) (bp : Z) :
  heap_shape s bs -> allocated_block s bp ->
  exists b, In b bs /\ baddr b = bp /\ balloc b = true /\ bp <> heap_listp s.
Proof.
  intros Hs (l & Hw & Hin & Hne & Ha).
  rewrite (walked_rep_inv _ _ _ Hs Hw) in Hin.
  apply in_map_iff in Hin. destruct Hin as (b & <- & Hb).
  exists b. repeat split; auto.
  destruct (heap_mem_In _ _ _ _ b (hs_mem _ _ Hs) Hb) as (Ht & _ & Hm & _).
  unfold HDRP, WSIZE in Ha. rewrite (hdr_alloc _ _ Ht Hm) in Ha.
  destruct (balloc b); [reflexivity|discriminate].
Qed.

Lemma rep_allocated_block (s : state) (bs : list blk) (b : blk) :
  heap_shape s bs -> In b bs -> balloc b = true -> baddr b <> heap_listp s ->
  allocated_block s (baddr b).
Proof.
  intros Hs Hb Ha Hne. exists (map baddr bs).
  split; [apply walked_rep; exact Hs|]. split; [apply in_map; exact Hb|].
  split; [exact Hne|].
  destruct (heap_mem_In _ _ _ _ b (hs_mem _ _ Hs) Hb) as (Ht & _ & Hm & _).
  unfold HDRP, WSIZE. rewrite (hdr_alloc _ _ Ht Hm), Ha. reflexivity.
Qed.


(* ------------------------------------------------------------------ *)
(** ** [mm_realloc] *)

(** Bytes written into the payload of a listed block leave the tags alone. *)
Lemma heap_mem_payload_write (m m' : memory) (hl brk : Z) (bs : list blk) (a : blk) :
  heap_mem m hl brk bs -> In a bs ->
  (forall addr, addr < baddr a \/ baddr a + bsize a - 8 <= addr -> m' addr = m addr) ->
  heap_mem m' hl brk bs.
Proof.
  intros (Hc & Hf & He) Ha Hout.
  pose proof (chain_bounds _ _ _ _ Hc Ha) as Hba.
  split; [exact Hc|]. split.
  - rewrite Forall_forall in *. intros x Hx.
    apply (tagged_ext m); [|auto]. intros addr Haddr. apply Hout.
    pose proof (chain_bounds _ _ _ _ Hc Hx) as Hbx.
    destruct (chain_disjoint _ _ _ _ _ Hc Hx Ha) as [->|Hd]; lia.
  - rewrite <- He. apply GET_ext. intros addr Haddr. unfold byte_at.
    rewrite Hout by lia. reflexivity.
Qed.

Lemma memcpy_outside (m : memory) (dst src n addr : Z) :
  addr < dst \/ dst + n <= addr -> memcpy m dst src n addr = m addr.
Proof.
  intros H. unfold memcpy.
  destruct (Z.leb_spec dst addr); destruct (Z.ltb_spec addr (dst + n)); simpl;
    try reflexivity. lia.
Qed.

Lemma memcpy_inside (m : memory) (dst src n i : Z) :
  0 <= i < n -> memcpy m dst src n (dst + i) = m (src + i).
Proof.
  intros H. unfold memcpy.
  destruct (Z.leb_spec dst (dst + i)); [|lia].
  destruct (Z.ltb_spec (dst + i) (dst + n)); [|lia].
  simpl. f_equal. lia.
Qed.

Lemma mm_realloc_spec (fuel : nat) (s : state) (bs : list blk) (b : blk) (size : Z) :
  heap_rep s bs -> In b bs -> balloc b = true -> baddr b <> heap_listp s ->
  0 < size <= 2 ^ 32 - 16 -> enough_fuel s fuel ->
  (exists s1, mm_malloc fuel s size = Returns NULL s1
              /\ mm_realloc fuel s (baddr b) size = Exits realloc_failed 1)
  \/ (exists p s1 s' bs' a f,
        mm_malloc fuel s size = Returns p s1 /\ p <> NULL
        /\ mm_realloc fuel s (baddr b) size = Returns p s'
        /\ heap_rep s' bs'
        /\ In a bs' /\ baddr a = p /\ balloc a = true
        /\ adjusted_size size <= bsize a
        /\ (forall i, 0 <= i < Z.min size (bsize b - 8) ->
                      mem s' (p + i) = mem s (baddr b + i))
        /\ In f bs' /\ balloc f = false
        /\ baddr f <= baddr b /\ baddr b + bsize b <= baddr f + bsize f
        /\ heap_listp s' = heap_listp s).
Proof.
  intros Hrep Hb Hba Hne Hsize Hfuel.
  destruct (adjusted_size_ok size Hsize) as (_ & Hr & _ & Hsz).
  destruct (mm_malloc_spec fuel s bs size Hrep Hsize Hfuel)
    as (p & s1 & Hm & [(-> & _)|(Hp & bs1 & a & Hrep1 & Ha & Haa & Hal & Has & Hkeep & Hh1 & Hx1)]).
  - left. exists s1. split; [exact Hm|]. unfold mm_realloc. rewrite Hm. reflexivity.
  - right. unfold mm_realloc. rewrite Hm.
    destruct (Z.eqb_spec p NULL); [contradiction|].
    destruct (Hkeep b Hb Hba) as (Hb1 & Hbne & Hbsame).
    pose proof Hrep1 as [Hs1 Hn1].
    pose proof (hs_mem _ _ Hs1) as Hm1. pose proof Hm1 as (Hc1 & _).
    destruct (heap_mem_In _ _ _ _ b Hm1 Hb1) as (Htb & Hbs & Hbm & _).
    destruct (heap_mem_In _ _ _ _ a Hm1 Ha) as (_ & Has' & _ & _).
    assert (Hcopy : realloc_copy_size (mem s1) (baddr b) size
                    = if size <? bsize b then size else bsize b).
    { unfold realloc_copy_size, HDRP, WSIZE. rewrite (hdr_size _ _ Htb Hbm). reflexivity. }
    set (cnt := realloc_copy_size (mem s1) (baddr b) size) in *.
    assert (Hn : cnt <= size /\ cnt <= bsize b /\ Z.min size (bsize b - 8) <= cnt).
    { rewrite Hcopy. destruct (Z.ltb_spec size (bsize b)); lia. }
    set (s2 := set_mem s1 (memcpy (mem s1) p (baddr b) cnt)).
    assert (Hrep2 : heap_rep s2 bs1).
    { split; [|exact Hn1]. constructor; try apply Hs1.
      unfold s2. simpl.
      apply (heap_mem_payload_write (mem s1) _ _ _ _ a Hm1 Ha).
      intros addr Haddr. apply memcpy_outside. lia. }
    assert (Hne2 : baddr b <> heap_listp s2) by (unfold s2; simpl; congruence).
    destruct (mm_free_spec s2 bs1 b Hrep2 Hb1 Hne2)
      as (bs' & f & Hrep' & Hf & Hff & Hflo & Hfhi & Hout & Hkeep' & Hh' & _).
    exists p, s1, (mm_free s2 (baddr b)), bs', a, f.
    assert (Ha' : In a bs') by (apply Hkeep'; auto).
    split; [reflexivity|]. split; [exact Hp|]. split; [reflexivity|].
    split; [exact Hrep'|]. split; [exact Ha'|]. split; [exact Haa|].
    split; [exact Hal|]. split; [exact Has|].
    split; [|repeat split; auto; rewrite Hh'; unfold s2; simpl; exact Hh1].
    intros i Hi.
    assert (Haf : a <> f) by congruence.
    destruct Hrep' as [Hs' _]. destruct (hs_mem _ _ Hs') as (Hc' & _).
    pose proof (chain_bounds _ _ _ _ Hc' Ha') as Hba'.
    pose proof (chain_bounds _ _ _ _ Hc' Hf) as Hbf'.
    rewrite Hout.
    + unfold s2. simpl. subst p. rewrite memcpy_inside by lia.
      apply Hbsame. lia.
    + destruct (chain_disjoint _ _ _ _ _ Hc' Ha' Hf) as [Heq|Hd]; [contradiction|].
      lia.
Qed.

(* ------------------------------------------------------------------ *)
(** ** Results that do not depend on the fuel *)

Lemma heap_fuel_enough (s : state) (fuel : nat) :
  (heap_fuel s <= fuel)%nat -> enough_fuel s fuel.
Proof. unfold heap_fuel, enough_fuel. lia. Qed.

Lemma mm_malloc_returns (fuel : nat) (s : state) (bs : list blk) (size p : Z) (s' : state) :
  heap_rep s bs -> 0 < size <= 2 ^ 32 - 16 ->
  mm_malloc fuel s size = Returns p s' ->
  (p = NULL /\ heap_rep s' bs /\ mem s' = mem s
   /\ mem_brk s' = mem_brk s /\ heap_listp s' = heap_listp s
   /\ mem_max_addr s' = mem_max_addr s)
  \/ (p <> NULL /\ malloc_ok s s' bs (adjusted_size size) p).
Proof.
  intros Hrep Hsize Hm.
  set (big := Nat.max fuel (heap_fuel s)).
  apply (mm_malloc_mono _ _ _ big) in Hm; [|unfold big; lia].
  destruct (mm_malloc_spec big s bs size Hrep Hsize) as (p2 & s2 & Hm2 & Hspec).
  - apply heap_fuel_enough. unfold big. lia.
  - rewrite Hm in Hm2. inversion Hm2; subst. exact Hspec.
Qed.

Lemma mm_realloc_mono (s : state) (ptr size : Z) (fuel fuel' : nat) (p : Z) (s' : state) :
  mm_realloc fuel s ptr size = Returns p s' -> (fuel <= fuel')%nat ->
  mm_realloc fuel' s ptr size = Returns p s'.
Proof.
  unfold mm_realloc. intros H Hle.
  destruct (mm_malloc fuel s size) as [q s1| |] eqn:Hm; try discriminate.
  rewrite (mm_malloc_mono _ _ _ _ _ _ Hm Hle). exact H.
Qed.

Lemma mm_realloc_returns (fuel : nat) (s : state) (bs : list blk) (b : blk)
      (size p : Z) (s' : state) :
  heap_rep s bs -> In b bs -> balloc b = true -> baddr b <> heap_listp s ->
  0 < size <= 2 ^ 32 - 16 ->
  mm_realloc fuel s (baddr b) size = Returns p s' ->
  p <> NULL /\ (exists s1, mm_malloc fuel s size = Returns p s1)
  /\ realloc_ok s s' b size p.
Proof.
  intros Hrep Hb Hba Hne Hsize Hr.
  assert (Hm : exists s1, mm_malloc fuel s size = Returns p s1).
  { unfold mm_realloc in Hr.
    destruct (mm_malloc fuel s size) as [q s1| |]; try discriminate.
    destruct (q =? NULL); [discriminate|]. inversion Hr; subst. eauto. }
  set (big := Nat.max fuel (heap_fuel s)).
  apply (mm_realloc_mono _ _ _ _ big) in Hr; [|unfold big; lia].
  destruct (mm_realloc_spec big s bs b size Hrep Hb Hba Hne Hsize)
    as [(s1 & _ & He)|(p2 & s1 & s2 & bs' & a & f & _ & Hp & Hr2 & Hrest)].
  - apply heap_fuel_enough. unfold big. lia.
  - rewrite Hr in He. discriminate.
  - rewrite Hr in Hr2. inversion Hr2; subst p2 s2.
    split; [exact Hp|]. split; [exact Hm|].
    exists bs', a, f. exact Hrest.
Qed.

(* ------------------------------------------------------------------ *)
(** ** The invariant holds in every reachable state *)

Lemma mm_malloc_zero (fuel : nat) (s : state) (size : Z) :
  size <= 0 -> mm_malloc fuel s size = Returns NULL s.
Proof.
  intros H. unfold mm_malloc. destruct (Z.leb_spec size 0); [reflexivity|lia].
Qed.

Lemma mm_malloc_heap_ok (fuel : nat) (s : state) (size p : Z) (s' : state) :
  heap_ok s -> 0 <= size <= MAX_REQUEST ->
  mm_malloc fuel s size = Returns p s' -> heap_ok s'.
Proof.
  intros [bs Hrep] Hsize Hm. unfold MAX_REQUEST in Hsize.
  destruct (Z.eq_dec size 0) as [->|Hnz].
  - rewrite mm_malloc_zero in Hm by lia. inversion Hm; subst. exists bs. exact Hrep.
  - destruct (mm_malloc_returns fuel s bs size p s' Hrep) as
      [(_ & H & _)|(_ & bs' & a & H & _)]; auto; try lia; eexists; exact H.
Qed.

Lemma mm_free_heap_ok (s : state) (bp : Z) :
  heap_ok s -> allocated_block s bp -> heap_ok (mm_free s bp).
Proof.
  intros [bs Hrep] Ha. pose proof Hrep as [Hs _].
  destruct (allocated_block_rep _ _ _ Hs Ha) as (b & Hb & <- & _ & Hne).
  destruct (mm_free_spec s bs b Hrep Hb Hne) as (bs' & f & H & _).
  exists bs'. exact H.
Qed.

Lemma mm_realloc_heap_ok (fuel : nat) (s : state) (ptr size p : Z) (s' : state) :
  heap_ok s -> allocated_block s ptr -> 0 <= size <= MAX_REQUEST ->
  mm_realloc fuel s ptr size = Returns p s' -> heap_ok s'.
Proof.
  intros [bs Hrep] Ha Hsize Hr. pose proof Hrep as [Hs _]. unfold MAX_REQUEST in Hsize.
  destruct (allocated_block_rep _ _ _ Hs Ha) as (b & Hb & <- & Hba & Hne).
  destruct (Z.eq_dec size 0) as [->|Hnz].
  - unfold mm_realloc in Hr. rewrite mm_malloc_zero in Hr by lia. discriminate.
  - destruct (mm_realloc_returns fuel s bs b size p s' Hrep Hb Hba Hne) as
      (_ & _ & bs' & a & f & H & _); auto; try lia.
    exists bs'. exact H.
Qed.

Lemma extend_heap_heap_ok (s : state) (words : Z) :
  heap_ok s -> 8 <= extend_heap_size words -> heap_ok (snd (extend_heap s words)).
Proof.
  intros [bs Hrep] H8.
  destruct (extend_heap_spec s bs words Hrep H8) as [[-> _]|(_ & _ & bs' & f & H)].
  - exists bs. exact Hrep.
  - exists bs'. apply H.
Qed.

Lemma reachable_heap_ok (s : state) : reachable s -> heap_ok s.
Proof.
  induction 1 as [s Hroom|s fuel size p s' _ IH Hsize Hm|s bp _ IH Ha
                  |s fuel ptr size p s' _ IH Ha Hsize Hr|s words _ IH H8].
  - apply mm_init_spec. exact Hroom.
  - eapply mm_malloc_heap_ok; eauto.
  - apply mm_free_heap_ok; auto.
  - eapply mm_realloc_heap_ok; eauto.
  - apply extend_heap_heap_ok; auto.
Qed.

(* ------------------------------------------------------------------ *)
(** ** Facts about the concrete heaps *)

Lemma fresh_room : init_room fresh.
Proof. unfold init_room. vm_compute. intuition discriminate. Qed.

Lemma heap0_reachable : reachable heap0.
Proof. apply reach_init. exact fresh_room. Qed.

Lemma heap1_malloc : mm_malloc 3 heap0 8 = Returns 4112 heap1.
Proof. vm_compute. reflexivity. Qed.

Lemma heap1_reachable : reachable heap1.
Proof.
  apply (reach_malloc heap0 3 8 4112); [exact heap0_reachable| |exact heap1_malloc].
  unfold MAX_REQUEST. lia.
Qed.

Lemma heap3_reachable : reachable heap3.
Proof.
  apply (reach_malloc (malloc_state 3 heap1 8) 3 8 4144).
  - apply (reach_malloc heap1 3 8 4128); [exact heap1_reachable| |].
    + unfold MAX_REQUEST. lia.
    + vm_compute. reflexivity.
  - unfold MAX_REQUEST. lia.
  - vm_compute. reflexivity.
Qed.

(* ------------------------------------------------------------------ *)
(** ** The claims *)

(** C9: [mm_malloc] of a size that is <= 0 returns NULL and leaves the whole
    allocator state as it was: no tag is written, the cursor keeps its value
    and the break does not move.  The size is a [size_t]: whatever integer
    [arg] the caller passes, the function sees [u32 arg], so 0 is the only
    size that is <= 0, and a negative argument is a large positive size that
    does not take this branch. *)
Theorem mm_malloc_nonpositive_is_noop (fuel : nat) (s : state) (arg : Z) :
  let size := u32 arg in
  size <= 0 -> size = 0 /\ mm_malloc fuel s size = Returns NULL s.
Proof.
  intros size H. assert (H0 : 0 <= size) by (apply Z.mod_pos_bound; reflexivity).
  split; [lia|]. unfold mm_malloc. destruct (Z.leb_spec size 0); [reflexivity|lia].
Qed.

Lemma mm_malloc_nonpositive_is_noop_witness :
  u32 0 = 0 /\ mm_malloc 0 heap0 (u32 0) = Returns NULL heap0.
Proof.
  apply (mm_malloc_nonpositive_is_noop 0 heap0 0). vm_compute. discriminate.
Defined.

(** C10: [mm_realloc(ptr, 0)] never returns, whatever [ptr] and whatever the
    heap: the inner [mm_malloc(0)] returns NULL without touching the heap, and
    [mm_realloc] takes that NULL for a failed allocation, prints its error
    line and exits with status 1. *)
Theorem mm_realloc_zero_exits (fuel : nat) (s : state) (ptr : Z) :
  mm_malloc fuel s 0 = Returns NULL s
  /\ mm_realloc fuel s ptr 0 = Exits realloc_failed 1.
Proof.
  assert (H : mm_malloc fuel s 0 = Returns NULL s) by (apply mm_malloc_zero; lia).
  split; [exact H|]. unfold mm_realloc. rewrite H. reflexivity.
Qed.

(** C6: the placement that the claim does not hold for.  On the fresh heap
    [mm_malloc(2^32 - 8)] computes the adjusted size 0, [find_fit] returns the
    free block 4112 of 65536 bytes, and [place(4112, 0)] is called.  There
    [csize - asize >= 16], but no allocated block of size [asize] is cut off:
    [PACK(0, 1)] goes to the header and to [FTRP(bp) = bp - 8], the footer of
    the prologue; [NEXT_BLKP(bp)] is then [bp] itself, and the tags written for
    the remainder put the block back as it was, free with 65536 bytes. *)
Lemma place_zero_size :
  let s1 := set_next_fit_ptr heap0 4112 in
  let m' := mem (place s1 4112 0) in
  adjusted_size 4294967288 = 0
  /\ find_fit 3 heap0 0 = Returns 4112 s1
  /\ returned (mm_malloc 3 heap0 4294967288) = Some 4112
  /\ GET_SIZE (mem s1) (HDRP 4112) = 65536
  /\ GET_ALLOC (mem s1) (HDRP 4112) = 0
  /\ DSIZE + OVERHEAD <= GET_SIZE (mem s1) (HDRP 4112) - 0
  /\ GET m' (HDRP 4112) = PACK 65536 0
  /\ GET_ALLOC m' (HDRP 4112) = 0
  /\ GET_SIZE m' (HDRP 4112) <> 0
  /\ GET (mem s1) (HDRP 4104) = PACK 8 1
  /\ GET (mem s1) (FTRP (mem s1) 4104) = PACK 8 1
  /\ GET m' (HDRP 4104) = PACK 8 1
  /\ GET m' (FTRP m' 4104) = PACK 0 1.
Proof. vm_compute. repeat split; try reflexivity; intros H; discriminate H. Qed.

(** X24: [place] of a size [asize] that is a positive multiple of 8 (the
    adjusted sizes that have not wrapped are such multiples, 16 at least) into
    a block of size [csize >= asize].  If [csize - asize >= 16] the block becomes an allocated
    block of size [asize] followed at once by a free block of size
    [csize - asize] that ends where the old block ended, each with header
    equal to footer; otherwise the whole block is marked allocated with its
    size [csize]. *)
Theorem place_splits_or_fills (s : state) (bp asize : Z) :
  let csize := GET_SIZE (mem s) (HDRP bp) in
  DSIZE <= asize -> asize mod DSIZE = 0 -> asize <= csize ->
  let m' := mem (place s bp asize) in
  (DSIZE + OVERHEAD <= csize - asize ->
     GET m' (HDRP bp) = PACK asize 1 /\ GET m' (FTRP m' bp) = PACK asize 1
     /\ GET_SIZE m' (HDRP bp) = asize /\ GET_ALLOC m' (HDRP bp) = 1
     /\ NEXT_BLKP m' bp = bp + asize
     /\ GET m' (HDRP (bp + asize)) = PACK (csize - asize) 0
     /\ GET m' (FTRP m' (bp + asize)) = PACK (csize - asize) 0
     /\ GET_SIZE m' (HDRP (bp + asize)) = csize - asize
     /\ GET_ALLOC m' (HDRP (bp + asize)) = 0
     /\ NEXT_BLKP m' (bp + asize) = bp + csize)
  /\ (csize - asize < DSIZE + OVERHEAD ->
     GET m' (HDRP bp) = PACK csize 1 /\ GET m' (FTRP m' bp) = PACK csize 1
     /\ GET_SIZE m' (HDRP bp) = csize /\ GET_ALLOC m' (HDRP bp) = 1
     /\ NEXT_BLKP m' bp = bp + csize).
Proof.
  intros csize Ha Hmod Hle m'. unfold DSIZE, OVERHEAD in *. simpl Z.add in *.
  pose proof (GET_SIZE_range (mem s) (HDRP bp)) as [Hr Hcm]. fold csize in Hr, Hcm.
  assert (Hm' : m' = if csize - asize >=? 16
                     then put_tags (put_tags (mem s) bp asize 1) (bp + asize)
                            (csize - asize) 0
                     else put_tags (mem s) bp csize 1).
  { unfold m'. rewrite place_mem by (fold csize; auto; lia). reflexivity. }
  assert (Hrm : (csize - asize) mod 8 = 0) by (Z.div_mod_to_equations; lia).
  split; intros Hcase.
  - destruct (Z.geb_spec (csize - asize) 16) as [_|]; [|lia].
    set (a := mkBlk bp asize true). set (r := mkBlk (bp + asize) (csize - asize) false).
    assert (Hr' : tagged m' r).
    { rewrite Hm'. apply (put_tags_tagged _ (bp + asize) (csize - asize) 0); auto; lia. }
    assert (Ha' : tagged m' a).
    { rewrite Hm'. apply (tagged_ext (put_tags (mem s) bp asize 1)).
      - intros x Hx. simpl in Hx. apply put_tags_outside; auto; lia.
      - apply (put_tags_tagged (mem s) bp asize 1); auto; lia. }
    pose proof Ha' as [Ha1 Ha2]. pose proof Hr' as [Hr1 Hr2].
    pose proof (FTRP_at m' a Ha1 Hmod) as Hfa. simpl in Hfa.
    pose proof (FTRP_at m' r Hr1 Hrm) as Hfr. simpl in Hfr.
    split; [exact Ha1|].
    split; [rewrite Hfa; exact Ha2|].
    split; [exact (hdr_size m' a Ha' Hmod)|].
    split; [exact (hdr_alloc m' a Ha' Hmod)|].
    split; [exact (NEXT_BLKP_at m' a Ha1 Hmod)|].
    split; [exact Hr1|].
    split; [rewrite Hfr; exact Hr2|].
    split; [exact (hdr_size m' r Hr' Hrm)|].
    split; [exact (hdr_alloc m' r Hr' Hrm)|].
    pose proof (NEXT_BLKP_at m' r Hr1 Hrm) as Hnr. simpl in Hnr.
    rewrite Hnr. lia.
  - destruct (Z.geb_spec (csize - asize) 16) as [|_]; [lia|].
    set (a := mkBlk bp csize true).
    assert (Ha' : tagged m' a).
    { rewrite Hm'. apply (put_tags_tagged (mem s) bp csize 1); auto; lia. }
    pose proof Ha' as [Ha1 Ha2].
    pose proof (FTRP_at m' a Ha1 Hcm) as Hfa. simpl in Hfa.
    split; [exact Ha1|].
    split; [rewrite Hfa; exact Ha2|].
    split; [exact (hdr_size m' a Ha' Hcm)|].
    split; [exact (hdr_alloc m' a Ha' Hcm)|].
    exact (NEXT_BLKP_at m' a Ha1 Hcm).
Qed.

Lemma place_splits_or_fills_witness :
  GET_SIZE (mem (place heap0 4112 24)) (HDRP 4112) = 24
  /\ GET_SIZE (mem (place heap0 4112 24)) (HDRP 4136) = 65512.
Proof.
  assert (H1 : DSIZE <= 24) by (vm_compute; discriminate).
  assert (H2 : 24 mod DSIZE = 0) by reflexivity.
  assert (H3 : 24 <= GET_SIZE (mem heap0) (HDRP 4112)) by (vm_compute; discriminate).
  destruct (place_splits_or_fills heap0 4112 24 H1 H2 H3) as [Hsplit _].
  assert (H4 : DSIZE + OVERHEAD <= GET_SIZE (mem heap0) (HDRP 4112) - 24)
    by (vm_compute; discriminate).
  destruct (Hsplit H4) as (_ & _ & Ha & _ & _ & _ & _ & Hb & _).
  split; [exact Ha|exact Hb].
Defined.

Lemma adjusted_size_aligned (size : Z) :
  0 <= adjusted_size size < 2 ^ 32 /\ adjusted_size size mod 8 = 0.
Proof.
  unfold adjusted_size, DSIZE, OVERHEAD. destruct (size <=? 8).
  - split; [zlia|reflexivity].
  - unfold u32. change (2 ^ 32) with 4294967296.
    split; [apply Z.mod_pos_bound; lia|].
    Z.div_mod_to_equations. lia.
Qed.

Lemma mem_sbrk_success (s : state) (size bp : Z) (s1 : state) :
  0 <= size < 2 ^ 32 ->
  mem_sbrk s (to_int size) = (bp, s1) -> bp <> -1 ->
  size < 2 ^ 31 /\ to_int size = size /\ bp = mem_brk s
  /\ s1 = set_mem_brk s (mem_brk s + size)
  /\ mem_brk s + size <= mem_max_addr s.
Proof.
  intros Hr Hs Hbp. unfold mem_sbrk, to_int in *.
  destruct (Z.ltb_spec size (2 ^ 31)) as [Hlt|Hge].
  - destruct (Z.ltb_spec size 0); [lia|].
    destruct (Z.gtb_spec (mem_brk s + size) (mem_max_addr s));
      inversion Hs; subst; [contradiction|]. repeat split; auto; lia.
  - destruct (Z.ltb_spec (size - 2 ^ 32) 0); [|zlia].
    inversion Hs; subst. contradiction.
Qed.

Lemma extend_heap_format_facts (s : state) (bp size : Z) :
  8 <= size < 2 ^ 32 -> size mod 8 = 0 ->
  let m := mem (extend_heap_format s bp size) in
  GET m (HDRP bp) = PACK size 0
  /\ GET m (FTRP m bp) = PACK size 0
  /\ GET_SIZE m (HDRP bp) = size
  /\ GET_ALLOC m (HDRP bp) = 0
  /\ NEXT_BLKP m bp = bp + size
  /\ GET m (HDRP (NEXT_BLKP m bp)) = PACK 0 1.
Proof.
  intros Hsz Hmod. cbv zeta. rewrite extend_heap_format_mem by auto.
  set (m := PUT (put_tags (mem s) bp size 0) (bp + size - 4) 1).
  set (nb := mkBlk bp size false).
  assert (Hnb : tagged m nb).
  { apply (tagged_ext (put_tags (mem s) bp size 0)).
    - intros a Ha. simpl in Ha. apply PUT_other. lia.
    - apply (put_tags_tagged (mem s) bp size 0); auto. }
  pose proof Hnb as [Hn1 Hn2].
  pose proof (FTRP_at _ nb Hn1 Hmod) as Hf. simpl in Hf.
  pose proof (NEXT_BLKP_at _ nb Hn1 Hmod) as Hnx. simpl in Hnx.
  split; [exact Hn1|]. split; [rewrite Hf; exact Hn2|].
  split; [exact (hdr_size _ nb Hnb Hmod)|].
  split; [exact (hdr_alloc _ nb Hnb Hmod)|].
  split; [exact Hnx|].
  rewrite Hnx. unfold m, HDRP, WSIZE. get_put. reflexivity.
Qed.

(** C7: [extend_heap] rounds the word count up to an even number and asks the
    memory source for that many words of 4 bytes; when the source grants the
    region, the region is tagged as one free block (header equal to footer),
    a new epilogue header [PACK(0, 1)] is stored right behind it, at the new
    break, and the result is what [coalesce] returns on that heap; when
    [mm_malloc] finds no fit it extends by [MAX(asize, CHUNKSIZE)] bytes, and
    [mm_init] extends by [CHUNKSIZE] bytes. *)
Theorem extend_heap_contract :
  (forall words, 0 <= words -> words + 1 < 2 ^ 30 ->
     extend_heap_size words = WSIZE * (words + words mod 2)
     /\ (words + words mod 2) mod 2 = 0)
  /\ (forall s words bp s1,
        let size := extend_heap_size words in
        8 <= size ->
        mem_sbrk s (to_int size) = (bp, s1) -> bp <> -1 ->
        let sf := extend_heap_format s1 bp size in
        to_int size = size
        /\ bp = mem_brk s /\ mem_brk s1 = mem_brk s + size
        /\ GET (mem sf) (HDRP bp) = PACK size 0
        /\ GET (mem sf) (FTRP (mem sf) bp) = PACK size 0
        /\ GET_SIZE (mem sf) (HDRP bp) = size
        /\ GET_ALLOC (mem sf) (HDRP bp) = 0
        /\ NEXT_BLKP (mem sf) bp = mem_brk s1
        /\ GET (mem sf) (HDRP (NEXT_BLKP (mem sf) bp)) = PACK 0 1
        /\ extend_heap s words = coalesce sf bp)
  /\ (forall fuel s size s1,
        0 < size ->
        find_fit fuel s (adjusted_size size) = Returns NULL s1 ->
        let asize := adjusted_size size in
        let extendsize := MAX asize CHUNKSIZE in
        asize <= extendsize /\ CHUNKSIZE <= extendsize
        /\ (extendsize = asize \/ extendsize = CHUNKSIZE)
        /\ 0 <= extendsize / WSIZE /\ extendsize / WSIZE + 1 < 2 ^ 30
        /\ extend_heap_size (extendsize / WSIZE) = extendsize
        /\ mm_malloc fuel s size =
             (let '(bp, s2) := extend_heap s1 (extendsize / WSIZE) in
              if bp =? NULL then Returns NULL s2
              else
                let s3 := place s2 bp asize in
                Returns bp (set_next_fit_ptr s3 (NEXT_BLKP (mem s3) bp))))
  /\ extend_heap_size (CHUNKSIZE / WSIZE) = CHUNKSIZE.
Proof.
  split; [|split; [|split]].
  - intros words H0 H1. unfold extend_heap_size, u32, WSIZE.
    change (2 ^ 30) with 1073741824 in H1. change (2 ^ 32) with 4294967296.
    destruct (Z.eqb_spec (words mod 2) 0) as [He|Hne]; simpl negb; cbv iota.
    + rewrite Z.mod_small by lia. rewrite He. split; [lia|].
      rewrite Z.add_0_r. exact He.
    + assert (Hm : words mod 2 = 1) by (Z.div_mod_to_equations; lia).
      rewrite Z.mod_small by lia. rewrite Hm. split; [lia|].
      Z.div_mod_to_equations. lia.
  - intros s words bp s1 size Hsz Hsbrk Hbp sf.
    destruct (extend_heap_size_ok words) as [Hmod Hr]. fold size in Hmod, Hr.
    destruct (mem_sbrk_success s size bp s1 Hr Hsbrk Hbp)
      as (Hlt & Hint & Hb1 & Hs1 & _).
    assert (He : extend_heap s words = coalesce sf bp).
    { unfold extend_heap. fold size. rewrite Hsbrk.
      destruct (Z.eqb_spec bp (-1)); [contradiction|reflexivity]. }
    assert (Hb2 : mem_brk s1 = mem_brk s + size) by (rewrite Hs1; reflexivity).
    destruct (extend_heap_format_facts s1 bp size) as (F1 & F2 & F3 & F4 & F5 & F6);
      [zlia|exact Hmod|].
    fold sf in F1, F2, F3, F4, F5, F6.
    split; [exact Hint|]. split; [exact Hb1|]. split; [exact Hb2|].
    split; [exact F1|]. split; [exact F2|]. split; [exact F3|].
    split; [exact F4|]. split; [rewrite F5, Hb2, Hb1; reflexivity|].
    split; [exact F6|exact He].
  - intros fuel s size s1 Hpos Hfit asize extendsize.
    destruct (adjusted_size_aligned size) as [Hr Hm]. fold asize in Hr, Hm.
    destruct (extend_request asize Hr Hm) as (Hreq & Hge & Hchunk).
    fold extendsize in Hreq, Hge, Hchunk.
    assert (Hcases : extendsize = asize \/ extendsize = CHUNKSIZE)
      by (unfold extendsize, MAX; destruct (asize >? CHUNKSIZE); auto).
    split; [exact Hge|]. split; [exact Hchunk|]. split; [exact Hcases|].
    assert (Hw : 0 <= extendsize / WSIZE /\ extendsize / WSIZE + 1 < 2 ^ 30).
    { unfold WSIZE. change (2 ^ 30) with 1073741824.
      change (2 ^ 32) with 4294967296 in Hr.
      destruct Hcases as [->| ->].
      - Z.div_mod_to_equations. lia.
      - vm_compute. split; [discriminate|reflexivity]. }
    split; [apply Hw|]. split; [apply Hw|].
    split; [exact Hreq|].
    unfold mm_malloc. destruct (Z.leb_spec size 0); [lia|].
    rewrite Hfit. reflexivity.
  - reflexivity.
Qed.

Lemma extend_heap_contract_witness :
  extend_heap_size 16385 = WSIZE * (16385 + 16385 mod 2)
  /\ (16385 + 16385 mod 2) mod 2 = 0.
Proof.
  apply (proj1 extend_heap_contract 16385); [lia|reflexivity].
Defined.

Lemma find_fit_from_scan (s : state) (asize : Z) (fuel : nat) :
  forall bp r s',
    find_fit_from fuel s asize bp = Returns r s' ->
    exists n,
      (forall k, (k < n)%nat ->
         0 < GET_SIZE (mem s) (HDRP (nth_block (mem s) bp k))
         /\ ~ fits (mem s) asize (nth_block (mem s) bp k))
      /\ let q := nth_block (mem s) bp n in
         (0 < GET_SIZE (mem s) (HDRP q) /\ fits (mem s) asize q
          /\ r = q /\ s' = set_next_fit_ptr s q)
         \/ (GET_SIZE (mem s) (HDRP q) = 0
             /\ r = NULL /\ s' = set_next_fit_ptr s (heap_listp s)).
Proof.
  induction fuel as [|fuel IH]; intros bp r s' H; [discriminate|].
  simpl in H.
  destruct (Z.gtb_spec (GET_SIZE (mem s) (HDRP bp)) 0) as [Hpos|Hz].
  - destruct ((GET_ALLOC (mem s) (HDRP bp) =? 0)
              && (asize <=? GET_SIZE (mem s) (HDRP bp))) eqn:Hfit.
    + inversion H; subst. exists 0%nat. split; [intros k Hk; lia|].
      left. apply andb_true_iff in Hfit. destruct Hfit as [H1 H2].
      apply Z.eqb_eq in H1. apply Z.leb_le in H2.
      simpl. unfold fits. repeat split; auto; lia.
    + destruct (IH _ _ _ H) as (n & Hbefore & Hat).
      exists (S n). split; [|exact Hat].
      intros [|k] Hk; simpl.
      * split; [lia|]. intros [H1 H2].
        rewrite H1 in Hfit. simpl in Hfit. apply Z.leb_gt in Hfit. lia.
      * apply Hbefore. lia.
  - inversion H; subst. exists 0%nat. split; [intros k Hk; lia|].
    right. simpl. pose proof (GET_SIZE_range (mem s) (HDRP bp)).
    repeat split; auto. lia.
Qed.

(** C5, as amended: on a well-formed heap [find_fit] returns; it steps from
    the cursor with [NEXT_BLKP], passing blocks that are allocated or too
    small, and either stops at the first free block of size at least [asize],
    which becomes the cursor and the result, or reaches the epilogue, sets the
    cursor to [heap_listp] (the prologue block, whose tag is [PACK(8, 1)] and
    which lies 8 bytes before the first real block) and returns NULL; blocks
    before the cursor are never looked at. *)
Theorem find_fit_scans_forward (fuel : nat) (s : state) (asize : Z) :
  heap_ok s -> (heap_fuel s <= fuel)%nat -> next_fit_scan fuel s asize.
Proof.
  intros [bs [Hs _]] Hfuel.
  assert (Hr : exists r s', find_fit fuel s asize = Returns r s').
  { destruct (find_fit_rep s bs fuel asize Hs (heap_fuel_enough _ _ Hfuel))
      as [(b & _ & _ & H)|H]; eauto. }
  destruct Hr as (r & s' & Hr). pose proof Hr as Hr'. unfold find_fit in Hr'.
  destruct (find_fit_from_scan _ _ _ _ _ _ Hr') as (n & Hbefore & Hat).
  exists n. split; [exact Hbefore|]. cbv zeta in *.
  destruct Hat as [(H1 & H2 & -> & ->)|(H1 & -> & ->)].
  - left. auto.
  - right. split; [exact H1|]. split; [exact Hr|].
    destruct (hs_prologue _ _ Hs) as [rest Hbs].
    destruct (heap_mem_In _ _ _ _ (mkBlk (heap_listp s) 8 true) (hs_mem _ _ Hs))
      as (Ht & _); [rewrite Hbs; left; reflexivity|].
    split; [apply Ht|].
    unfold first_real_block. apply (NEXT_BLKP_at _ (mkBlk (heap_listp s) 8 true));
      [apply Ht|reflexivity].
Qed.

Lemma find_fit_scans_forward_witness :
  heap_ok heap1 /\ next_fit_scan (heap_fuel heap1) heap1 24.
Proof.
  assert (Hok : heap_ok heap1).
  { apply reachable_heap_ok. apply (reach_malloc heap0 3 8 4112).
    - apply reach_init. unfold init_room. vm_compute. intuition discriminate.
    - unfold MAX_REQUEST. lia.
    - vm_compute. reflexivity. }
  split; [exact Hok|].
  apply (find_fit_scans_forward (heap_fuel heap1) heap1 24 Hok). apply Nat.le_refl.
Defined.

(** Where the claim of C5 goes wrong: from [heap1] (cursor at 4128) a search
    for 70000 bytes reaches the epilogue, and the cursor it leaves is 4104,
    the prologue, not 4112, the first real block. *)
Lemma find_fit_reset_counterexample :
  let s' := set_next_fit_ptr heap1 (heap_listp heap1) in
  next_fit_ptr heap1 = 4128
  /\ find_fit 3 heap1 70000 = Returns NULL s'
  /\ next_fit_ptr s' = 4104
  /\ first_real_block heap1 = 4112
  /\ next_fit_ptr s' <> first_real_block heap1
  /\ GET (mem s') (HDRP (next_fit_ptr s')) = PACK OVERHEAD 1.
Proof. vm_compute. repeat split; intros H; discriminate H. Qed.

Lemma rep_free_block_at (s : state) (bs : list blk) (f : blk) (lo hi : Z) :
  heap_shape s bs -> In f bs -> balloc f = false ->
  baddr f <= lo -> hi <= baddr f + bsize f ->
  free_block_at s (baddr f) lo hi.
Proof.
  intros Hs Hf Hff Hlo Hhi. exists (map baddr bs).
  split; [apply walked_rep; exact Hs|]. split; [apply in_map; exact Hf|].
  destruct (heap_mem_In _ _ _ _ f (hs_mem _ _ Hs) Hf) as (Ht & _ & Hm & _).
  unfold HDRP, WSIZE. rewrite (hdr_alloc _ _ Ht Hm), (hdr_size _ _ Ht Hm), Hff.
  auto.
Qed.

Lemma coalesce_outcome_rep (s : state) (L1 L2 : list blk) (p c : blk) :
  heap_shape s (L1 ++ p :: c :: L2) -> balloc c = false ->
  naf (L1 ++ [p]) -> naf L2 ->
  coalesce_outcome s (baddr c) (bsize c).
Proof.
  intros Hs Hc Hn1 Hn2. unfold coalesce_outcome. cbv zeta.
  pose proof (hs_mem _ _ Hs) as Hm.
  rewrite (co_prev s L1 L2 p c Hm), (co_prev_alloc s L1 L2 p c Hm),
    (co_next s L1 L2 p c Hm), (co_next_alloc s L1 L2 p c Hm).
  destruct (coalesce_spec s L1 L2 p c Hs Hc Hn1 Hn2) as (bs' & f & Hco & Hcur).
  destruct Hco as (Hrep & Hr & Hf & Hff & Hlo & Hhi & _).
  split; [exists bs'; exact Hrep|].
  split; [rewrite Hr; apply (rep_free_block_at _ bs'); auto; apply Hrep|].
  destruct Hcur as [(Hp & Hnx & Hfc & Hsame)|[Hor Hcur]].
  - split.
    + intros _. rewrite Hr, Hfc. auto.
    + rewrite Hp, Hnx. simpl. intros [H|H]; discriminate.
  - split.
    + intros [H1 H2]. destruct Hor as [Hor|Hor]; rewrite Hor in *; simpl in *;
        congruence.
    + intros _. rewrite Hcur, Hr. reflexivity.
Qed.

(** C2, as amended: for a block that becomes free, by [mm_free] or as the new
    region of [extend_heap], [coalesce] returns the free block that results;
    in the three merging cases the cursor is set to that block, and in case 1
    (both neighbours allocated, nothing merged) the early return leaves the
    cursor where it was. *)
Theorem coalesce_cursor_policy :
  (forall s bp,
      heap_ok s -> allocated_block s bp ->
      coalesce_outcome (mark_free s bp) bp (GET_SIZE (mem s) (HDRP bp)))
  /\ (forall s words bp s1,
        heap_ok s ->
        let size := extend_heap_size words in
        8 <= size ->
        mem_sbrk s (to_int size) = (bp, s1) -> bp <> -1 ->
        coalesce_outcome (extend_heap_format s1 bp size) bp size).
Proof.
  split.
  - intros s bp [bs [Hs Hn]] Ha.
    destruct (allocated_block_rep _ _ _ Hs Ha) as (b & Hb & <- & Hba & Hne).
    destruct (hs_prologue _ _ Hs) as [rest Hbs].
    assert (HbP : b <> mkBlk (heap_listp s) 8 true) by (intros ->; simpl in Hne; lia).
    rewrite Hbs in Hb.
    destruct (split_with_prev _ _ _ Hb HbP) as (L1 & p & L2 & HL).
    clear Hb. rewrite HL in Hbs. subst bs.
    destruct (heap_mem_In _ _ _ _ b (hs_mem _ _ Hs)) as (Ht & Hsz & Hmod & _); [in_list|].
    rewrite (mark_free_eq s b Ht Hsz Hmod).
    destruct (mark_free_shape s L1 L2 p b Hs) as [Hs1 _].
    destruct (naf_split _ _ _ _ Hn) as [Hn1 Hn2].
    replace (GET_SIZE (mem s) (HDRP (baddr b))) with (bsize b)
      by (symmetry; apply (hdr_size _ _ Ht Hmod)).
    apply (coalesce_outcome_rep _ L1 L2 p (freed b) Hs1 eq_refl Hn1 Hn2).
  - intros s words bp s1 [bs [Hs Hn]] size Hsz Hsbrk Hbp.
    destruct (extend_heap_size_ok words) as [Hmod Hr]. fold size in Hmod, Hr.
    destruct (mem_sbrk_success s size bp s1 Hr Hsbrk Hbp)
      as (Hlt & _ & -> & -> & Hroom).
    destruct (extend_format_shape s bs size Hs) as [Hs1 _]; auto.
    assert (Hne : bs <> []) by (destruct (hs_prologue _ _ Hs) as [rest ->]; discriminate).
    destruct (list_last_split _ bs Hne) as (L1 & p & HL).
    set (nb := mkBlk (mem_brk s) size false) in *.
    assert (HL' : bs ++ [nb] = L1 ++ p :: nb :: []).
    { rewrite HL, <- app_assoc. reflexivity. }
    rewrite HL' in Hs1.
    assert (Hn1 : naf (L1 ++ [p])) by (rewrite <- HL; exact Hn).
    apply (coalesce_outcome_rep _ L1 [] p nb Hs1 eq_refl Hn1 I).
Qed.

Lemma heap3_block_4128 : allocated_block heap3 4128.
Proof.
  exists [4104; 4112; 4128; 4144; 4160].
  split; [exists 6%nat; vm_compute; reflexivity|].
  split; [simpl; auto|]. split; [vm_compute; discriminate|].
  vm_compute. reflexivity.
Qed.

Lemma coalesce_cursor_policy_witness :
  coalesce_outcome (mark_free heap3 4128) 4128 (GET_SIZE (mem heap3) (HDRP 4128)).
Proof.
  apply (proj1 coalesce_cursor_policy heap3 4128).
  - apply reachable_heap_ok. exact heap3_reachable.
  - exact heap3_block_4128.
Defined.

(** Where the claim of C2 goes wrong: in [heap3] the blocks 4112, 4128 and
    4144 are allocated and the cursor is 4160.  Freeing 4128 is case 1 of
    [coalesce]: the resulting free block is 4128, the cursor is still 4160. *)
Lemma coalesce_case1_counterexample :
  let sm := mark_free heap3 4128 in
  next_fit_ptr heap3 = 4160
  /\ GET_ALLOC (mem sm) (FTRP (mem sm) (PREV_BLKP (mem sm) 4128)) = 1
  /\ GET_ALLOC (mem sm) (HDRP (NEXT_BLKP (mem sm) 4128)) = 1
  /\ fst (coalesce sm 4128) = 4128
  /\ GET_ALLOC (mem (mm_free heap3 4128)) (HDRP 4128) = 0
  /\ next_fit_ptr (mm_free heap3 4128) = 4160
  /\ next_fit_ptr (mm_free heap3 4128) <> fst (coalesce sm 4128).
Proof. vm_compute. repeat split; intros H; discriminate H. Qed.

(** X25: in every state reached from [mm_init] by [mm_malloc],
    [mm_free], [mm_realloc] and [extend_heap] called with request sizes up to
    [MAX_REQUEST] and with pointers to allocated blocks, the walk of the heap
    ends at the epilogue and every block on it, prologue included, has a footer
    word identical to its header word. *)
Theorem headers_match_footers_invariant (s : state) :
  reachable s -> headers_match_footers s.
Proof.
  intros Hr. destruct (reachable_heap_ok s Hr) as [bs [Hs _]].
  apply (rep_headers_match s bs Hs).
Qed.

Lemma headers_match_footers_invariant_witness :
  reachable heap1 /\ headers_match_footers heap1.
Proof.
  assert (Hr : reachable heap1).
  { apply (reach_malloc heap0 3 8 4112).
    - apply reach_init. unfold init_room. vm_compute. intuition discriminate.
    - unfold MAX_REQUEST. lia.
    - vm_compute. reflexivity. }
  split; [exact Hr|]. apply (headers_match_footers_invariant heap1 Hr).
Defined.

(** C4: the heap on which a header differs from its footer.  On the fresh
    heap a request of
    2^32 - 8 bytes gets the adjusted size 0; [place] then stores [PACK(0, 1)]
    at [FTRP(bp)], which is the footer of the prologue, whose header stays
    [PACK(8, 1)]; the call returns 4112. *)
Lemma header_footer_counterexample :
  adjusted_size 4294967288 = 0
  /\ mm_malloc 3 heap0 4294967288 = Returns 4112 heap_wrapped
  /\ GET (mem heap_wrapped) (HDRP 4104) = 9
  /\ GET (mem heap_wrapped) (FTRP (mem heap_wrapped) 4104) = 1
  /\ ~ headers_match_footers heap_wrapped.
Proof.
  split; [vm_compute; reflexivity|]. split; [vm_compute; reflexivity|].
  split; [vm_compute; reflexivity|]. split; [vm_compute; reflexivity|].
  intros (l & [fuel Hw] & H).
  assert (Hl : l = [4104; 4112]).
  { apply (heap_walk_det _ _ 3 _ _ _ Hw). vm_compute. reflexivity. }
  subst l. specialize (H 4104 (or_introl eq_refl)).
  vm_compute in H. discriminate H.
Qed.

(** X26: in every state reached from [mm_init] by [mm_malloc],
    [mm_free], [mm_realloc] and [extend_heap] called with request sizes up to
    [MAX_REQUEST] and with pointers to allocated blocks, no block of the walk
    is free together with the block that follows it. *)
Theorem no_adjacent_free_invariant (s : state) :
  reachable s -> no_adjacent_free s.
Proof.
  intros Hr. destruct (reachable_heap_ok s Hr) as [bs Hrep].
  apply (rep_no_adjacent_free s bs Hrep).
Qed.

Lemma no_adjacent_free_invariant_witness :
  reachable (mm_free heap3 4128) /\ no_adjacent_free (mm_free heap3 4128).
Proof.
  assert (Hr : reachable (mm_free heap3 4128)).
  { apply reach_free; [exact heap3_reachable|].
    exists [4104; 4112; 4128; 4144; 4160].
    split; [exists 6%nat; vm_compute; reflexivity|].
    split; [simpl; auto|]. split; [vm_compute; discriminate|].
    vm_compute. reflexivity. }
  split; [exact Hr|]. apply (no_adjacent_free_invariant _ Hr).
Defined.

(** C3: the heap on which two adjacent blocks are free.  [heap6] holds the
    allocated block 4112,
    the free block 4128 of 32 bytes, the allocated block 4160 of 32 bytes and
    the free rest at 4192.  A request of 2^32 - 8 bytes gets the adjusted size
    0, returns 4128 and overwrites the footer of block 4112; freeing the
    returned pointer then makes [coalesce] take 4128 for its own free
    predecessor and double its size, so that the walk finds the free block
    4128 followed at once by the free block 4192. *)
Lemma adjacent_free_counterexample :
  mm_malloc 3 heap3 24 = Returns 4160 heap4
  /\ allocated_block heap4 4128
  /\ allocated_block (mm_free heap4 4128) 4144
  /\ no_adjacent_free heap6
  /\ mm_malloc 3 heap6 4294967288 = Returns 4128 heap7
  /\ heap_walk 5 (mem heap8) (heap_listp heap8) = Some [4104; 4112; 4128; 4192]
  /\ GET_ALLOC (mem heap8) (HDRP 4128) = 0
  /\ NEXT_BLKP (mem heap8) 4128 = 4192
  /\ GET_ALLOC (mem heap8) (HDRP 4192) = 0
  /\ ~ no_adjacent_free heap8.
Proof.
  split; [vm_compute; reflexivity|].
  split.
  { exists [4104; 4112; 4128; 4144; 4160; 4192].
    split; [exists 7%nat; vm_compute; reflexivity|].
    split; [simpl; auto|]. split; [vm_compute; discriminate|].
    vm_compute. reflexivity. }
  split.
  { exists [4104; 4112; 4128; 4144; 4160; 4192].
    split; [exists 7%nat; vm_compute; reflexivity|].
    split; [simpl; auto 6|]. split; [vm_compute; discriminate|].
    vm_compute. reflexivity. }
  split.
  { exists [4104; 4112; 4128; 4160; 4192].
    split; [exists 6%nat; vm_compute; reflexivity|].
    intros bp Hin. simpl in Hin.
    destruct Hin as [<-|[<-|[<-|[<-|[<-|[]]]]]]; vm_compute; congruence. }
  split; [vm_compute; reflexivity|]. split; [vm_compute; reflexivity|].
  split; [vm_compute; reflexivity|]. split; [vm_compute; reflexivity|].
  split; [vm_compute; reflexivity|].
  intros (l & [fuel Hw] & H).
  assert (Hl : l = [4104; 4112; 4128; 4192]).
  { apply (heap_walk_det _ _ 5 _ _ _ Hw). vm_compute. reflexivity. }
  subst l.
  assert (Hin : In 4128 [4104; 4112; 4128; 4192]) by (simpl; auto).
  specialize (H 4128 Hin). apply H; vm_compute; reflexivity.
Qed.

Lemma rep_block_facts (s' : state) (bs' : list blk) (a : blk) (asize : Z) :
  heap_rep s' bs' -> In a bs' -> balloc a = true -> 16 <= asize <= bsize a ->
  heap_ok s' /\ allocated_block s' (baddr a)
  /\ asize <= GET_SIZE (mem s') (HDRP (baddr a)).
Proof.
  intros Hrep Ha Hal Has. pose proof Hrep as [Hs _].
  destruct (heap_mem_In _ _ _ _ a (hs_mem _ _ Hs) Ha) as (Ht & _ & Hm & _).
  split; [exists bs'; exact Hrep|]. split.
  - apply (rep_allocated_block s' bs'); auto.
    intros Heq. destruct (hs_prologue _ _ Hs) as [rest Hbs].
    destruct (hs_mem _ _ Hs) as (Hc & _).
    assert (HP : In (mkBlk (heap_listp s') 8 true) bs') by (rewrite Hbs; left; reflexivity).
    assert (a = mkBlk (heap_listp s') 8 true)
      by (eapply chain_addr_inj; eauto).
    subst a. simpl in Has. lia.
  - unfold HDRP, WSIZE. rewrite (hdr_size _ _ Ht Hm). lia.
Qed.

Lemma malloc_ok_block (s s' : state) (bs : list blk) (asize p : Z) :
  16 <= asize -> malloc_ok s s' bs asize p ->
  heap_ok s' /\ allocated_block s' p /\ asize <= GET_SIZE (mem s') (HDRP p).
Proof.
  intros H16 (bs' & a & Hrep & Ha & <- & Hal & Has & _).
  apply (rep_block_facts s' bs'); auto.
Qed.

(** X27: for a request of [size] bytes with
    [0 < size <= MAX_REQUEST] the adjusted size is [size + OVERHEAD] rounded
    up to a multiple of 8, which is at least the minimum block size 16; on a
    well-formed heap [mm_malloc] returns, and a block it returns is an
    allocated block of the heap whose size is at least the adjusted size. *)
Theorem mm_malloc_fit_sufficient (size : Z) :
  0 < size <= MAX_REQUEST ->
  adjusted_size size = DSIZE * ((size + OVERHEAD + (DSIZE - 1)) / DSIZE)
  /\ DSIZE + OVERHEAD <= adjusted_size size
  /\ size + OVERHEAD <= adjusted_size size < size + OVERHEAD + DSIZE
  /\ (forall fuel s,
         heap_ok s -> (heap_fuel s <= fuel)%nat ->
         exists p s', mm_malloc fuel s size = Returns p s')
  /\ (forall fuel s p s',
         heap_ok s -> mm_malloc fuel s size = Returns p s' -> p <> NULL ->
         heap_ok s' /\ allocated_block s' p
         /\ adjusted_size size <= GET_SIZE (mem s') (HDRP p)).
Proof.
  unfold MAX_REQUEST. intros Hsize.
  destruct (adjusted_size_ok size Hsize) as (Heq & Hr & Hm & Hsz).
  unfold DSIZE, OVERHEAD. simpl Z.add. simpl Z.sub.
  split; [exact Heq|]. split; [lia|].
  split; [rewrite Heq in *; Z.div_mod_to_equations; lia|].
  split.
  - intros fuel s [bs Hrep] Hfuel.
    destruct (mm_malloc_spec fuel s bs size Hrep Hsize (heap_fuel_enough _ _ Hfuel))
      as (p & s' & H & _). eauto.
  - intros fuel s p s' [bs Hrep] Hmal Hp.
    destruct (mm_malloc_returns fuel s bs size p s' Hrep Hsize Hmal)
      as [(Hnull & _)|(_ & Hok)]; [contradiction|].
    apply (malloc_ok_block s s' bs); [lia|exact Hok].
Qed.

Lemma mm_malloc_fit_sufficient_witness :
  0 < 100 <= MAX_REQUEST /\ adjusted_size 100 = 112.
Proof.
  assert (H : 0 < 100 <= MAX_REQUEST) by (unfold MAX_REQUEST; lia).
  split; [exact H|].
  destruct (mm_malloc_fit_sufficient 100 H) as (Heq & _). rewrite Heq. reflexivity.
Defined.

(** C8: the request that gets too small a block.  For the request
    2^32 - 1 the sum
    [size + OVERHEAD + (DSIZE-1)] wraps around, the adjusted size is 8, and on
    the fresh heap [mm_malloc] returns a block of 8 bytes in all. *)
Lemma fit_sufficiency_counterexample :
  let s' := malloc_state 3 heap0 4294967295 in
  adjusted_size 4294967295 = 8
  /\ DSIZE * ((4294967295 + OVERHEAD + (DSIZE - 1)) / DSIZE) = 4294967304
  /\ mm_malloc 3 heap0 4294967295 = Returns 4112 s'
  /\ GET_SIZE (mem s') (HDRP 4112) = 8
  /\ GET_SIZE (mem s') (HDRP 4112) < 4294967295.
Proof. vm_compute. repeat split; reflexivity. Qed.

(** C1, as amended: for [0 < size <= MAX_REQUEST] and a live allocated block
    [ptr] of a well-formed heap, [mm_realloc] allocates with
    [mm_malloc(size)]; if that returns NULL it prints its error and exits;
    otherwise it returns the new pointer, the first
    [min(size, old payload size)] bytes of the old content are found at the new
    pointer, and the old block has been freed. *)
Theorem mm_realloc_contract (fuel : nat) (s : state) (ptr size : Z) :
  heap_ok s -> allocated_block s ptr -> 0 < size <= MAX_REQUEST ->
  (heap_fuel s <= fuel)%nat ->
  realloc_outcome fuel s ptr size.
Proof.
  unfold MAX_REQUEST. intros [bs Hrep] Ha Hsize Hfuel.
  pose proof Hrep as [Hs _].
  destruct (allocated_block_rep _ _ _ Hs Ha) as (b & Hb & <- & Hba & Hne).
  destruct (heap_mem_In _ _ _ _ b (hs_mem _ _ Hs) Hb) as (Ht & _ & Hmod & _).
  assert (Hsz : GET_SIZE (mem s) (HDRP (baddr b)) = bsize b)
    by (apply (hdr_size _ _ Ht Hmod)).
  destruct (adjusted_size_ok size Hsize) as (_ & Hr & _ & Hge).
  destruct (mm_realloc_spec fuel s bs b size Hrep Hb Hba Hne Hsize
              (heap_fuel_enough _ _ Hfuel))
    as [(s1 & Hm & He)|(p & s1 & s' & bs' & a & f & Hm & Hp & Hre & Hrep' & Hrest)].
  - left. split; [exact He|]. exists s1. exact Hm.
  - right. exists p, s1, s'.
    destruct Hrest as (Hain & Haa & Hal & Has & Hcopy & Hf & Hff & Hflo & Hfhi & Hh).
    split; [exact Hm|]. split; [exact Hp|]. split; [exact Hre|].
    split.
    { unfold mm_realloc in Hre. rewrite Hm in Hre.
      destruct (Z.eqb_spec p NULL); [contradiction|]. inversion Hre. reflexivity. }
    destruct (rep_block_facts s' bs' a (adjusted_size size)) as (H1 & H2 & H3);
      auto; [lia|]. rewrite Haa in H2, H3.
    split; [exact H1|]. split; [exact H2|].
    split; [unfold OVERHEAD; lia|].
    split; [rewrite Hsz; unfold OVERHEAD; exact Hcopy|].
    exists (baddr f). rewrite Hsz.
    apply (rep_free_block_at s' bs'); auto; try lia. apply Hrep'.
Qed.

Lemma heap1_block_4112 : allocated_block heap1 4112.
Proof.
  exists [4104; 4112; 4128].
  split; [exists 4%nat; vm_compute; reflexivity|].
  split; [simpl; auto|]. split; [vm_compute; discriminate|].
  vm_compute. reflexivity.
Qed.

Lemma mm_realloc_contract_witness :
  realloc_outcome (heap_fuel heap1) heap1 4112 100.
Proof.
  apply (mm_realloc_contract (heap_fuel heap1) heap1 4112 100).
  - apply reachable_heap_ok. exact heap1_reachable.
  - exact heap1_block_4112.
  - unfold MAX_REQUEST. lia.
  - apply Nat.le_refl.
Defined.

(** Where the claim of C1 goes wrong.  In [heap1] the block 4112 is allocated
    with 16 bytes in all, so its payload has 8 bytes.  [mm_realloc(4112, 0)]
    does not return: it exits.  [mm_realloc(4112, 16)] returns 4128 after
    handing 16 bytes to [memcpy], the block size and not the payload size 8:
    byte 8 of the new block, 0 before the copy, is afterwards the first byte
    of the footer [PACK(16, 1)] of the old block. *)
Lemma realloc_copy_counterexample :
  let s1 := malloc_state 3 heap1 16 in
  let s' := realloc_state 3 heap1 4112 16 in
  mm_realloc 3 heap1 4112 0 = Exits realloc_failed 1
  /\ GET_SIZE (mem heap1) (HDRP 4112) - OVERHEAD = 8
  /\ mm_malloc 3 heap1 16 = Returns 4128 s1
  /\ realloc_copy_size (mem s1) 4112 16 = 16
  /\ realloc_copy_size (mem s1) 4112 16
     <> Z.min 16 (GET_SIZE (mem heap1) (HDRP 4112) - OVERHEAD)
  /\ returned (mm_realloc 3 heap1 4112 16) = Some 4128
  /\ GET (mem s1) (FTRP (mem s1) 4112) = PACK 16 1
  /\ mem s1 (4128 + 8) = 0
  /\ mem s' (4128 + 8) = 17.
Proof. vm_compute. repeat split; try reflexivity; intros H; discriminate H. Qed.

(* ------------------------------------------------------------------ *)
(** ** Further properties: the heap checker *)

Lemma u32_mod8 (x : Z) : u32 x mod 8 = x mod 8.
Proof.
  unfold u32. change (2 ^ 32) with 4294967296. Z.div_mod_to_equations. lia.
Qed.

Lemma chain_aligned (l : list blk) :
  forall p q, chain p l q -> p mod 8 = 0 ->
              q mod 8 = 0 /\ forall b, In b l -> baddr b mod 8 = 0.
Proof.
  induction l as [|b l IH]; intros p q Hc Hp; simpl in Hc.
  - subst q. split; [exact Hp|]. intros b [].
  - destruct Hc as (Ha & _ & Hm & Hc).
    destruct (IH _ _ Hc) as [Hq Hall]; [Z.div_mod_to_equations; lia|].
    split; [exact Hq|]. intros x [<-|Hx]; [rewrite Ha; exact Hp|auto].
Qed.

Lemma checkblock_tagged (m : memory) (b : blk) :
  tagged m b -> bsize b mod 8 = 0 -> baddr b mod 8 = 0 ->
  checkblock m (baddr b) = [].
Proof.
  intros Ht Hm Ha. unfold checkblock. rewrite u32_mod8, Ha.
  rewrite (FTRP_at _ b) by (auto; apply Ht).
  unfold HDRP, WSIZE. destruct Ht as [-> ->]. rewrite !Z.eqb_refl. reflexivity.
Qed.

Lemma printblock_tagged (m : memory) (b : blk) :
  tagged m b -> 8 <= bsize b -> bsize b mod 8 = 0 ->
  printblock m (baddr b)
  = [block_line (baddr b) (bsize b) (Z.b2z (balloc b))].
Proof.
  intros Ht Hs Hm. unfold printblock, block_line.
  rewrite (FTRP_at _ b) by (auto; apply Ht). unfold HDRP, WSIZE.
  rewrite (hdr_size _ _ Ht Hm), (hdr_alloc _ _ Ht Hm),
    (ftr_size _ _ Ht Hm), (ftr_alloc _ _ Ht Hm).
  destruct (Z.eqb_spec (bsize b) 0); [lia|]. reflexivity.
Qed.

Lemma printblock_epilogue (m : memory) (q : Z) :
  GET m (q - 4) = 1 -> printblock m q = [eol_line q].
Proof.
  intros He. unfold printblock. destruct (epilogue_tag _ _ He) as [-> _].
  reflexivity.
Qed.

Lemma flat_map_single (A B : Type) (f : A -> B) (l : list A) :
  flat_map (fun x => [f x]) l = map f l.
Proof. induction l as [|x l IH]; simpl; [reflexivity|]. rewrite IH. reflexivity. Qed.

Lemma flat_map_none (A B : Type) (l : list A) :
  flat_map (fun _ : A => @nil B) l = [].
Proof. induction l as [|x l IH]; simpl; [reflexivity|exact IH]. Qed.

(** The lines a verbose loop prints for the blocks [l]. *)
Lemma checkheap_loop_chain (m : memory) (v brk : Z) (l : list blk) :
  forall p fuel,
    chain p l brk -> Forall (tagged m) l -> GET m (brk - 4) = 1 ->
    p mod 8 = 0 -> (length l < fuel)%nat ->
    checkheap_loop fuel v m p
    = Some (flat_map
              (fun b => if negb (v =? 0)
                        then [block_line (baddr b) (bsize b) (Z.b2z (balloc b))]
                        else []) l, brk).
Proof.
  induction l as [|b l IH]; intros p fuel Hc Hf He Hp Hfuel;
    (destruct fuel as [|fuel]; [simpl in Hfuel; lia|]).
  - simpl in Hc. subst p. simpl.
    destruct (epilogue_tag _ _ He) as [-> _]. reflexivity.
  - simpl in Hc. destruct Hc as (Ha & Hs & Hm & Hc). subst p.
    inversion Hf as [|? ? Hb Hf']; subst.
    cbn [checkheap_loop flat_map].
    rewrite (checkblock_tagged _ _ Hb Hm Hp).
    rewrite (printblock_tagged _ _ Hb Hs Hm).
    unfold HDRP at 1, WSIZE. rewrite (hdr_size _ _ Hb Hm).
    destruct (Z.gtb_spec (bsize b) 0); [|lia].
    rewrite (NEXT_BLKP_at _ b) by (auto; apply Hb).
    rewrite (IH _ fuel Hc Hf' He) by
      (try (simpl in Hfuel; lia); Z.div_mod_to_equations; lia).
    destruct (negb (v =? 0)); reflexivity.
Qed.

Lemma prologue_tags (s : state) (bs : list blk) :
  heap_shape s bs ->
  GET_SIZE (mem s) (HDRP (heap_listp s)) = 8
  /\ GET_ALLOC (mem s) (HDRP (heap_listp s)) = 1
  /\ tagged (mem s) (mkBlk (heap_listp s) 8 true).
Proof.
  intros Hs. destruct (hs_prologue _ _ Hs) as [rest Hbs].
  destruct (heap_mem_In _ _ _ _ (mkBlk (heap_listp s) 8 true) (hs_mem _ _ Hs))
    as (Ht & _ & Hm & _); [rewrite Hbs; left; reflexivity|].
  unfold HDRP, WSIZE.
  split; [exact (hdr_size _ _ Ht Hm)|]. split; [exact (hdr_alloc _ _ Ht Hm)|].
  exact Ht.
Qed.

(** On a heap that holds a block list and starts at a multiple of 8 the
    checker prints the heading, one line for each block and the line of the
    epilogue when it is verbose, and nothing else. *)
Lemma mm_checkheap_shape (fuel : nat) (s : state) (bs : list blk) (v : Z) :
  heap_shape s bs -> heap_listp s mod 8 = 0 -> enough_fuel s fuel ->
  mm_checkheap fuel s v
  = Some (if negb (v =? 0)
          then heap_line (heap_listp s)
               :: map (fun b => block_line (baddr b) (bsize b) (Z.b2z (balloc b))) bs
               ++ [eol_line (mem_brk s)]
          else []).
Proof.
  intros Hs Hal Hfuel. unfold mm_checkheap.
  destruct (prologue_tags _ _ Hs) as (Hps & Hpa & Hpt).
  destruct (hs_mem _ _ Hs) as (Hc & Hf & He).
  rewrite (checkheap_loop_chain _ v (mem_brk s) bs _ fuel Hc Hf He Hal)
    by (eapply enough_fuel_length; eauto).
  rewrite Hps, Hpa. change (checkblock (mem s) (heap_listp s))
    with (checkblock (mem s) (baddr (mkBlk (heap_listp s) 8 true))).
  rewrite (checkblock_tagged _ _ Hpt) by (simpl; auto).
  destruct (epilogue_tag _ _ He) as [-> ->].
  rewrite (printblock_epilogue _ _ He). simpl orb. cbv iota.
  destruct (negb (v =? 0)).
  - rewrite flat_map_single. reflexivity.
  - rewrite flat_map_none. reflexivity.
Qed.

Lemma flat_map_nil_inv (A B : Type) (f : A -> list B) (l : list A) :
  flat_map f l = [] -> forall x, In x l -> f x = [].
Proof.
  induction l as [|y l IH]; simpl; intros H x Hx; [contradiction|].
  apply app_eq_nil in H. destruct H as [Hy Hl].
  destruct Hx as [<-|Hx]; [exact Hy|apply IH; assumption].
Qed.

(** What a silent loop of the checker has walked over. *)
Lemma checkheap_loop_sound (m : memory) (fuel : nat) :
  forall bp out e,
    checkheap_loop fuel 0 m bp = Some (out, e) ->
    exists l, heap_walk fuel m bp = Some l
              /\ out = flat_map (checkblock m) l
              /\ e = walk_end m bp l
              /\ GET_SIZE m (HDRP e) = 0.
Proof.
  induction fuel as [|fuel IH]; intros bp out e H; [discriminate|].
  simpl in H. cbn [heap_walk].
  destruct (Z.gtb_spec (GET_SIZE m (HDRP bp)) 0) as [Hpos|Hz].
  - destruct (checkheap_loop fuel 0 m (NEXT_BLKP m bp)) as [[out' e']|] eqn:Hl;
      [|discriminate].
    destruct (IH _ _ _ Hl) as (l & Hw & Hout & He & Hsz).
    rewrite Hw. exists (bp :: l). inversion H; subst.
    repeat split; auto.
  - inversion H; subst. exists []. repeat split; auto.
    pose proof (GET_SIZE_range m (HDRP e)). lia.
Qed.

Lemma checkblock_nil (m : memory) (bp : Z) :
  checkblock m bp = [] ->
  u32 bp mod 8 = 0 /\ GET m (HDRP bp) = GET m (FTRP m bp).
Proof.
  unfold checkblock. intros H. apply app_eq_nil in H. destruct H as [H1 H2].
  destruct (Z.eqb_spec (u32 bp mod 8) 0); [|discriminate].
  destruct (Z.eqb_spec (GET m (HDRP bp)) (GET m (FTRP m bp))); [|discriminate].
  auto.
Qed.

(** X5: on every heap reached through the interface whose first block
    pointer is a multiple of 8, a quiet [mm_checkheap] prints nothing: no
    block is misaligned, no header differs from its footer, and prologue and
    epilogue are as the checker wants them. *)
Theorem mm_checkheap_silent (fuel : nat) (s : state) :
  reachable s -> heap_listp s mod 8 = 0 -> (heap_fuel s <= fuel)%nat ->
  mm_checkheap fuel s 0 = Some [].
Proof.
  intros Hr Hal Hfuel. destruct (reachable_heap_ok _ Hr) as [bs [Hs _]].
  rewrite (mm_checkheap_shape fuel s bs 0 Hs Hal (heap_fuel_enough _ _ Hfuel)).
  reflexivity.
Qed.

Lemma mm_checkheap_silent_witness :
  mm_checkheap (heap_fuel heap1) heap1 0 = Some [].
Proof.
  apply (mm_checkheap_silent (heap_fuel heap1) heap1).
  - exact heap1_reachable.
  - vm_compute. reflexivity.
  - apply Nat.le_refl.
Defined.

(** X6: what a quiet [mm_checkheap] that prints nothing has established,
    on any memory whatever: the prologue header shows size 8 and the allocated
    bit, the walk from [heap_listp] ends, every block of the walk is aligned
    to 8 bytes and has a footer equal to its header, and the header at which
    the walk stops shows size 0 and the allocated bit. *)
Theorem mm_checkheap_sound (fuel : nat) (s : state) :
  mm_checkheap fuel s 0 = Some [] ->
  GET_SIZE (mem s) (HDRP (heap_listp s)) = DSIZE
  /\ GET_ALLOC (mem s) (HDRP (heap_listp s)) <> 0
  /\ headers_match_footers s
  /\ exists l,
       walked s l
       /\ (forall bp, In bp l -> u32 bp mod 8 = 0)
       /\ GET_SIZE (mem s) (HDRP (walk_end (mem s) (heap_listp s) l)) = 0
       /\ GET_ALLOC (mem s) (HDRP (walk_end (mem s) (heap_listp s) l)) <> 0.
Proof.
  unfold mm_checkheap. intros H.
  destruct (checkheap_loop fuel 0 (mem s) (heap_listp s)) as [[out e]|] eqn:Hl;
    [|discriminate].
  destruct (checkheap_loop_sound _ _ _ _ _ Hl) as (l & Hw & Hout & He & Hsz).
  inversion H as [H']. clear H. simpl app in H'.
  apply app_eq_nil in H'. destruct H' as [Hp H'].
  apply app_eq_nil in H'. destruct H' as [_ H'].
  apply app_eq_nil in H'. destruct H' as [Ho Hepi].
  destruct (Z.eqb_spec (GET_SIZE (mem s) (HDRP (heap_listp s))) DSIZE)
    as [Hps|]; [|discriminate].
  destruct (Z.eqb_spec (GET_ALLOC (mem s) (HDRP (heap_listp s))) 0)
    as [|Hpa]; [discriminate|].
  destruct (Z.eqb_spec (GET_ALLOC (mem s) (HDRP e)) 0) as [Hz|Hea].
  { rewrite orb_true_r in Hepi. discriminate. }
  subst out.
  assert (Hall : forall bp, In bp l ->
            u32 bp mod 8 = 0
            /\ GET (mem s) (HDRP bp) = GET (mem s) (FTRP (mem s) bp)).
  { intros bp Hin. apply checkblock_nil.
    exact (flat_map_nil_inv _ _ _ _ Ho bp Hin). }
  split; [exact Hps|]. split; [exact Hpa|].
  split.
  { exists l. split; [exists fuel; exact Hw|]. intros bp Hin. apply Hall, Hin. }
  exists l. split; [exists fuel; exact Hw|].
  split; [intros bp Hin; apply Hall, Hin|].
  rewrite <- He. split; assumption.
Qed.

Lemma mm_checkheap_sound_witness :
  headers_match_footers heap0.
Proof.
  apply (mm_checkheap_sound 3 heap0). vm_compute. reflexivity.
Defined.

(** X7: [mm_checkheap] has no test for adjacent free blocks.  Clear the
    allocated bit in header and footer of a live block whose successor is
    free, as [mm_free] does before it coalesces: two neighbours of the
    resulting heap are free, and the checker still prints nothing. *)
Theorem mm_checkheap_misses_adjacent_free (fuel : nat) (s : state) (bp : Z) :
  reachable s -> heap_listp s mod 8 = 0 -> allocated_block s bp ->
  GET_ALLOC (mem s) (HDRP (NEXT_BLKP (mem s) bp)) = 0 ->
  (heap_fuel s <= fuel)%nat ->
  mm_checkheap fuel (mark_free s bp) 0 = Some []
  /\ ~ no_adjacent_free (mark_free s bp).
Proof.
  intros Hr Hal Hbp Hnext Hfuel.
  destruct (reachable_heap_ok _ Hr) as [bs [Hs _]].
  destruct (allocated_block_rep _ _ _ Hs Hbp) as (b & Hb & <- & Hba & Hne).
  destruct (heap_mem_In _ _ _ _ b (hs_mem _ _ Hs) Hb) as (Ht & Hsz & Hm & _).
  destruct (hs_prologue _ _ Hs) as [rest Hbs]. subst bs.
  destruct (split_with_prev (mkBlk (heap_listp s) 8 true) b rest)
    as (L1 & p & L2 & HL);
    [exact Hb|intros ->; apply Hne; reflexivity|].
  rewrite HL in Hs, Hb.
  rewrite (mark_free_eq s b Ht Hsz Hm).
  destruct (mark_free_shape s L1 L2 p b Hs) as [Hs' _].
  cbv zeta in Hs'.
  set (s' := set_mem s (put_tags (mem s) (baddr b) (bsize b) 0)) in *.
  split.
  - apply (mm_checkheap_shape fuel s' _ 0 Hs'); [exact Hal|].
    apply heap_fuel_enough in Hfuel. exact Hfuel.
  - intros (l & Hw & Hnaf).
    rewrite (walked_rep_inv _ _ _ Hs' Hw) in Hnaf.
    assert (Hs2 : heap_shape s ((L1 ++ [p]) ++ b :: L2))
      by (rewrite <- app_assoc; exact Hs).
    assert (Hs2' : heap_shape s' ((L1 ++ [p]) ++ freed b :: L2))
      by (rewrite <- app_assoc; exact Hs').
    rewrite (rep_next_alloc s _ _ _ Hs2) in Hnext.
    pose proof (rep_next_alloc s' _ _ _ Hs2') as Hn'. simpl baddr in Hn'.
    apply (Hnaf (baddr b)).
    + apply in_map_iff. exists (freed b). split; [reflexivity|in_list].
    + destruct (heap_mem_In _ _ _ _ (freed b) (hs_mem _ _ Hs'))
        as (Ht' & _ & Hm' & _); [in_list|].
      unfold HDRP, WSIZE.
      exact (hdr_alloc _ _ Ht' Hm').
    + rewrite Hn'. exact Hnext.
Qed.

Lemma mm_checkheap_misses_adjacent_free_witness :
  mm_checkheap (heap_fuel heap1) (mark_free heap1 4112) 0 = Some []
  /\ ~ no_adjacent_free (mark_free heap1 4112).
Proof.
  apply (mm_checkheap_misses_adjacent_free (heap_fuel heap1) heap1 4112).
  - exact heap1_reachable.
  - vm_compute. reflexivity.
  - exact heap1_block_4112.
  - vm_compute. reflexivity.
  - apply Nat.le_refl.
Defined.

(** X8: a verbose [mm_checkheap] on a heap reached through the interface
    prints the heading with [heap_listp], then for every block of the walk one
    line in which the footer shows the same size and the same letter as the
    header, then the end-of-list line of the epilogue, which sits at the
    break; no error line is among them. *)
Theorem mm_checkheap_verbose (fuel : nat) (s : state) (verbose : Z) :
  reachable s -> heap_listp s mod 8 = 0 -> (heap_fuel s <= fuel)%nat ->
  verbose <> 0 ->
  exists l,
    walked s l
    /\ mm_checkheap fuel s verbose
       = Some (heap_line (heap_listp s)
               :: map (fun bp => block_line bp (GET_SIZE (mem s) (HDRP bp))
                                   (GET_ALLOC (mem s) (HDRP bp))) l
               ++ [eol_line (mem_brk s)]).
Proof.
  intros Hr Hal Hfuel Hv. destruct (reachable_heap_ok _ Hr) as [bs [Hs _]].
  exists (map baddr bs). split; [apply walked_rep; exact Hs|].
  rewrite (mm_checkheap_shape fuel s bs verbose Hs Hal (heap_fuel_enough _ _ Hfuel)).
  destruct (Z.eqb_spec verbose 0); [contradiction|]. simpl negb. cbv iota.
  rewrite map_map. f_equal. f_equal. f_equal.
  apply map_ext_in. intros b Hb.
  destruct (heap_mem_In _ _ _ _ b (hs_mem _ _ Hs) Hb) as (Ht & _ & Hm & _).
  unfold HDRP, WSIZE. rewrite (hdr_size _ _ Ht Hm), (hdr_alloc _ _ Ht Hm).
  reflexivity.
Qed.

Lemma mm_checkheap_verbose_witness :
  exists l,
    walked heap1 l
    /\ mm_checkheap (heap_fuel heap1) heap1 1
       = Some (heap_line (heap_listp heap1)
               :: map (fun bp => block_line bp (GET_SIZE (mem heap1) (HDRP bp))
                                   (GET_ALLOC (mem heap1) (HDRP bp))) l
               ++ [eol_line (mem_brk heap1)]).
Proof.
  apply (mm_checkheap_verbose (heap_fuel heap1) heap1 1).
  - exact heap1_reachable.
  - vm_compute. reflexivity.
  - apply Nat.le_refl.
  - discriminate.
Defined.

(* ------------------------------------------------------------------ *)
(** ** Further properties: tags and the block sequence *)

(** X1: a tag written with [PUT] and [PACK] reads back through
    [GET_SIZE] and [GET_ALLOC], for every size that is a multiple of 8 below
    2^32 and either allocated bit, and the store leaves every word that does
    not overlap it as it was. *)
Theorem tag_round_trip (m : memory) (p q size alloc : Z) :
  0 <= size < 2 ^ 32 -> size mod 8 = 0 -> alloc = 0 \/ alloc = 1 ->
  let m' := PUT m p (PACK size alloc) in
  GET_SIZE m' p = size /\ GET_ALLOC m' p = alloc
  /\ (q + 4 <= p \/ p + 4 <= q -> GET m' q = GET m q).
Proof.
  intros Hs Hm Ha m'. unfold m'.
  assert (Hw : GET (PUT m p (PACK size alloc)) p = size + alloc).
  { rewrite GET_PUT_same, (PACK_add _ _ Hm Ha). apply u32_small.
    assert (size <= 2 ^ 32 - 8) by (Z.div_mod_to_equations; zlia). zlia. }
  split; [|split].
  - rewrite GET_SIZE_eq, Hw. apply size_of_tag; [exact Hm|lia].
  - rewrite GET_ALLOC_eq, Hw. apply alloc_of_tag; [exact Hm|lia].
  - intros Hq. apply GET_PUT_other. exact Hq.
Qed.

Lemma tag_round_trip_witness :
  GET_SIZE (PUT (fun _ => 0) 100 (PACK 24 1)) 100 = 24
  /\ GET_ALLOC (PUT (fun _ => 0) 100 (PACK 24 1)) 100 = 1
  /\ (96 + 4 <= 100 \/ 100 + 4 <= 96 ->
      GET (PUT (fun _ => 0) 100 (PACK 24 1)) 96 = GET (fun _ => 0) 96).
Proof.
  apply (tag_round_trip (fun _ => 0) 100 96 24 1).
  - vm_compute. split; [discriminate|reflexivity].
  - reflexivity.
  - right. reflexivity.
Defined.

(** X2: the boundary tags let the heap be walked in both directions.  On
    a heap reached through the interface, stepping from a block of the walk to
    the next and back with [PREV_BLKP] returns to the block; and every block
    but the prologue has a predecessor in the walk, from which [NEXT_BLKP]
    leads back to it. *)
Theorem boundary_tag_navigation (s : state) (l : list Z) (bp : Z) :
  reachable s -> walked s l -> In bp l ->
  PREV_BLKP (mem s) (NEXT_BLKP (mem s) bp) = bp
  /\ (bp <> heap_listp s ->
      In (PREV_BLKP (mem s) bp) l
      /\ NEXT_BLKP (mem s) (PREV_BLKP (mem s) bp) = bp).
Proof.
  intros Hr Hw Hin. destruct (reachable_heap_ok _ Hr) as [bs [Hs _]].
  rewrite (walked_rep_inv _ _ _ Hs Hw) in *. clear Hw.
  apply in_map_iff in Hin. destruct Hin as (b & <- & Hb).
  destruct (heap_mem_In _ _ _ _ b (hs_mem _ _ Hs) Hb) as (Ht & _ & Hm & _).
  split.
  - rewrite (NEXT_BLKP_at _ b) by (auto; apply Ht).
    apply (PREV_BLKP_at _ b); auto. apply Ht.
  - intros Hne. destruct (hs_prologue _ _ Hs) as [rest Hbs]. subst bs.
    destruct (split_with_prev (mkBlk (heap_listp s) 8 true) b rest)
      as (L1 & p & L2 & HL);
      [exact Hb|intros ->; apply Hne; reflexivity|].
    rewrite HL in *.
    destruct (hs_mem _ _ Hs) as (Hc & Hf & _).
    apply chain_mid in Hc. destruct Hc as (_ & _ & Hpm & Hc).
    simpl in Hc. destruct Hc as (Hadj & _).
    rewrite Forall_forall in Hf.
    assert (Hp : tagged (mem s) p) by (apply Hf; in_list).
    assert (Hprev : PREV_BLKP (mem s) (baddr b) = baddr p)
      by (apply (PREV_BLKP_at _ p); auto; apply Hp).
    rewrite Hprev. split.
    + apply in_map. in_list.
    + rewrite (NEXT_BLKP_at _ p) by (auto; apply Hp). lia.
Qed.

Lemma boundary_tag_navigation_witness :
  PREV_BLKP (mem heap1) (NEXT_BLKP (mem heap1) 4112) = 4112
  /\ (4112 <> heap_listp heap1 ->
      In (PREV_BLKP (mem heap1) 4112) [4104; 4112; 4128]
      /\ NEXT_BLKP (mem heap1) (PREV_BLKP (mem heap1) 4112) = 4112).
Proof.
  apply (boundary_tag_navigation heap1 [4104; 4112; 4128] 4112).
  - exact heap1_reachable.
  - exists 4%nat. vm_compute. reflexivity.
  - simpl. auto.
Defined.

Lemma chain_total (m : memory) (l : list blk) :
  forall p q, chain p l q -> Forall (tagged m) l ->
              total_size m (map baddr l) = q - p
              /\ walk_end m p (map baddr l) = q.
Proof.
  unfold walk_end.
  induction l as [|b l IH]; intros p q Hc Hf; simpl in Hc.
  - subst q. simpl. split; [lia|reflexivity].
  - destruct Hc as (Ha & _ & Hm & Hc). subst p.
    inversion Hf as [|? ? Hb Hf']; subst.
    destruct (IH _ _ Hc Hf') as [Ht He].
    cbn [map total_size fold_right length nth_block].
    fold (total_size m (map baddr l)).
    rewrite (NEXT_BLKP_at _ b) by (auto; apply Hb).
    unfold HDRP, WSIZE. rewrite (hdr_size _ _ Hb Hm), Ht.
    split; [lia|exact He].
Qed.

(** X9: the walk accounts for the whole heap.  On a heap reached through
    the interface the walk from [heap_listp] ends, it stops exactly at the
    break, where the epilogue header [PACK(0, 1)] sits, the sizes of the
    walked blocks add up to the distance from [heap_listp] to the break, and
    the break lies within the memory source. *)
Theorem heap_accounting (s : state) :
  reachable s ->
  exists l,
    walked s l
    /\ walk_end (mem s) (heap_listp s) l = mem_brk s
    /\ total_size (mem s) l = mem_brk s - heap_listp s
    /\ GET (mem s) (HDRP (mem_brk s)) = PACK 0 1
    /\ mem_brk s <= mem_max_addr s.
Proof.
  intros Hr. destruct (reachable_heap_ok _ Hr) as [bs [Hs _]].
  destruct (hs_mem _ _ Hs) as (Hc & Hf & He).
  destruct (chain_total _ _ _ _ Hc Hf) as [Ht Hend].
  exists (map baddr bs). split; [apply walked_rep; exact Hs|].
  split; [exact Hend|]. split; [exact Ht|].
  split; [exact He|]. apply (hs_high _ _ Hs).
Qed.

Lemma heap_accounting_witness :
  exists l,
    walked heap1 l
    /\ walk_end (mem heap1) (heap_listp heap1) l = mem_brk heap1
    /\ total_size (mem heap1) l = mem_brk heap1 - heap_listp heap1
    /\ GET (mem heap1) (HDRP (mem_brk heap1)) = PACK 0 1
    /\ mem_brk heap1 <= mem_max_addr heap1.
Proof. apply (heap_accounting heap1). exact heap1_reachable. Defined.

(** X10: the next-fit cursor never dangles.  On a heap reached through
    the interface [next_fit_ptr] is the pointer of a block of the walk or the
    pointer at which the walk stops, the epilogue at the break. *)
Theorem cursor_on_block (s : state) :
  reachable s ->
  exists l,
    walked s l /\ (In (next_fit_ptr s) l \/ next_fit_ptr s = mem_brk s).
Proof.
  intros Hr. destruct (reachable_heap_ok _ Hr) as [bs [Hs _]].
  exists (map baddr bs). split; [apply walked_rep; exact Hs|].
  destruct (hs_cursor _ _ Hs) as [(b & Hb & ->)|Hc]; [left|right; exact Hc].
  apply in_map. exact Hb.
Qed.

Lemma cursor_on_block_witness :
  exists l,
    walked heap3 l /\ (In (next_fit_ptr heap3) l \/ next_fit_ptr heap3 = mem_brk heap3).
Proof. apply (cursor_on_block heap3). exact heap3_reachable. Defined.

(* ------------------------------------------------------------------ *)
(** ** Further properties: [mm_init] *)

(** The block list that [mm_init] builds. *)
Lemma mm_init_blocks (s : state) :
  init_room s ->
  let s' := snd (mm_init s) in
  fst (mm_init s) = 0
  /\ heap_rep s' [mkBlk (mem_brk s + 8) 8 true; mkBlk (mem_brk s + 16) 65536 false]
  /\ heap_listp s' = mem_brk s + 8
  /\ next_fit_ptr s' = mem_brk s + 8
  /\ mem_brk s' = mem_brk s + 16 + 65536
  /\ mem_max_addr s' = mem_max_addr s
  /\ GET (mem s') (mem_brk s) = 0.
Proof.
  unfold init_room, CHUNKSIZE, WSIZE. change (Z.shiftl 1 16) with 65536.
  intros (Hpos & Hroom & Hmax).
  unfold mm_init, mem_sbrk, WSIZE, DSIZE, NULL. change (4 * 4) with 16.
  destruct (Z.ltb_spec 16 0); [lia|].
  destruct (Z.gtb_spec (mem_brk s + 16) (mem_max_addr s)); [lia|].
  simpl orb. cbv iota beta.
  destruct (Z.eqb_spec (mem_brk s) 0); [lia|].
  cbv zeta. simpl heap_listp. simpl mem.
  change (PACK OVERHEAD 1) with 9. change (PACK 0 1) with 1.
  set (brk := mem_brk s) in *.
  set (m4 := PUT (PUT (PUT (PUT (mem s) brk 0) (brk + 4) 9) (brk + 8) 9) (brk + 8 + 4) 1).
  set (s4 := set_next_fit_ptr _ _).
  assert (Hs4 : heap_shape s4 [mkBlk (brk + 8) 8 true]).
  { constructor.
    - eexists. reflexivity.
    - unfold s4. simpl. split; [|split].
      + simpl. repeat split; simpl; lia.
      + constructor; [|constructor]. unfold m4. split; simpl; get_put; reflexivity.
      + unfold m4. get_put. reflexivity.
    - left. eexists. split; [left; reflexivity|reflexivity].
    - unfold s4. simpl. lia.
    - unfold s4. simpl. fold brk. zlia. }
  assert (Hb4 : mem_brk s4 = brk + 16) by reflexivity.
  destruct (extend_format_shape s4 _ 65536 Hs4) as [HsF Hout];
    [zlia|reflexivity|rewrite Hb4; unfold s4; simpl; fold brk; lia|].
  cbv zeta in HsF, Hout. rewrite Hb4 in HsF, Hout.
  set (sF := extend_heap_format (set_mem_brk s4 (brk + 16 + 65536)) (brk + 16) 65536) in *.
  assert (He : extend_heap s4 (CHUNKSIZE / 4) = (brk + 16, sF)).
  { unfold extend_heap. change (extend_heap_size (CHUNKSIZE / 4)) with 65536.
    change (to_int 65536) with 65536. unfold mem_sbrk. rewrite Hb4.
    destruct (Z.ltb_spec 65536 0); [lia|].
    change (mem_max_addr s4) with (mem_max_addr s).
    destruct (Z.gtb_spec (brk + 16 + 65536) (mem_max_addr s)); [lia|].
    simpl orb. cbv iota beta.
    destruct (Z.eqb_spec (brk + 16) (-1)); [lia|].
    fold sF.
    destruct (coalesce_spec1 sF [] [] (mkBlk (brk + 8) 8 true)
                (mkBlk (brk + 16) 65536 false) HsF) as [Hco Heq];
      try reflexivity; simpl; auto.
    simpl baddr in *. destruct Hco as (_ & Hr & _).
    rewrite (surjective_pairing (coalesce sF (brk + 16))), Heq, Hr. reflexivity. }
  rewrite He. destruct (Z.eqb_spec (brk + 16) 0); [lia|]. simpl fst. simpl snd.
  split; [reflexivity|].
  split; [split; [exact HsF|simpl; auto]|].
  split; [reflexivity|]. split; [reflexivity|]. split; [reflexivity|].
  split; [reflexivity|].
  transitivity (GET (mem s4) brk).
  - apply GET_ext. intros a Ha. unfold byte_at. rewrite (Hout a) by lia. reflexivity.
  - unfold s4, m4. simpl. get_put. reflexivity.
Qed.

(** X3: [mm_init] on a memory source with room for 16 bytes and one
    chunk (and a start address other than NULL) returns 0 and leaves this
    heap: a padding word 0 at the old break, the prologue of 8 bytes with
    header and footer [PACK(8, 1)] and [heap_listp] on its footer, one free
    block of [CHUNKSIZE] bytes, and the epilogue header as last word before the new
    break; the walk sees the prologue and the free block, and the cursor is
    [heap_listp], the prologue. *)
Theorem mm_init_layout (s : state) :
  init_room s ->
  let s' := snd (mm_init s) in
  let hl := heap_listp s' in
  fst (mm_init s) = 0
  /\ hl = mem_brk s + DSIZE
  /\ next_fit_ptr s' = hl
  /\ mem_brk s' = mem_brk s + 4 * WSIZE + CHUNKSIZE
  /\ GET (mem s') (mem_brk s) = 0
  /\ GET (mem s') (HDRP hl) = PACK OVERHEAD 1
  /\ GET (mem s') hl = PACK OVERHEAD 1
  /\ walked s' [hl; hl + DSIZE]
  /\ GET (mem s') (HDRP (hl + DSIZE)) = PACK CHUNKSIZE 0
  /\ GET (mem s') (FTRP (mem s') (hl + DSIZE)) = PACK CHUNKSIZE 0
  /\ GET (mem s') (HDRP (mem_brk s')) = PACK 0 1.
Proof.
  intros Hroom s' hl.
  destruct (mm_init_blocks s Hroom) as (H0 & [Hs _] & Hhl & Hc & Hb & _ & Hpad).
  fold s' in Hs, Hhl, Hc, Hb, Hpad. fold hl in Hhl.
  destruct (hs_mem _ _ Hs) as (_ & Hf & He).
  inversion Hf as [|? ? HP Hf1]; subst. inversion Hf1 as [|? ? HC _]; subst.
  destruct HP as [HP1 HP2]. simpl in HP1, HP2.
  pose proof HC as [HC1 HC2]. simpl in HC1, HC2.
  pose proof (walked_rep _ _ Hs) as Hw. simpl map in Hw.
  pose proof (FTRP_at (mem s') (mkBlk (mem_brk s + 16) 65536 false) HC1 eq_refl) as Hft. cbn [baddr bsize] in Hft.
  unfold DSIZE, WSIZE, HDRP, CHUNKSIZE, OVERHEAD.
  change (Z.shiftl 1 16) with 65536.
  replace (hl + 8) with (mem_brk s + 16) by lia.
  rewrite Hft.
  split; [exact H0|]. split; [exact Hhl|]. split; [lia|]. split; [lia|].
  split; [exact Hpad|].
  split; [rewrite Hhl; exact HP1|].
  split; [replace hl with (mem_brk s + 8 + 8 - 8) by lia; exact HP2|].
  split; [rewrite Hhl; exact Hw|].
  split; [exact HC1|]. split; [exact HC2|]. exact He.
Qed.

Lemma mm_init_layout_witness :
  fst (mm_init fresh) = 0 /\ heap_listp heap0 = 4104 /\ mem_brk heap0 = 69648.
Proof.
  destruct (mm_init_layout fresh fresh_room) as (H0 & H1 & _ & H2 & _).
  split; [exact H0|]. split; [exact H1|exact H2].
Defined.

(** X4: [mm_init] on a memory source that has room for the first 16
    bytes but not for the first chunk behind them returns -1: the first
    [mem_sbrk] succeeds, the prologue and the first epilogue are written, and
    the [mem_sbrk] of [extend_heap] fails.  The 16 bytes are not given back:
    [heap_listp] is on the prologue and the break stays 16 bytes up. *)
Theorem mm_init_no_room (s : state) :
  0 < mem_brk s -> mem_brk s + 4 * WSIZE <= mem_max_addr s ->
  mem_max_addr s < mem_brk s + 4 * WSIZE + CHUNKSIZE ->
  fst (mm_init s) = -1
  /\ heap_listp (snd (mm_init s)) = mem_brk s + DSIZE
  /\ mem_brk (snd (mm_init s)) = mem_brk s + 4 * WSIZE
  /\ GET (mem (snd (mm_init s))) (mem_brk s + WSIZE) = PACK OVERHEAD 1
  /\ GET (mem (snd (mm_init s))) (mem_brk s + DSIZE) = PACK OVERHEAD 1
  /\ GET (mem (snd (mm_init s))) (mem_brk s + DSIZE + WSIZE) = PACK 0 1.
Proof.
  unfold CHUNKSIZE, WSIZE, DSIZE. change (Z.shiftl 1 16) with 65536.
  intros Hpos Hfit Hroom.
  unfold mm_init, mem_sbrk, WSIZE, DSIZE, NULL. change (4 * 4) with 16.
  destruct (Z.ltb_spec 16 0); [lia|]. simpl orb.
  destruct (Z.gtb_spec (mem_brk s + 16) (mem_max_addr s)); [lia|].
  cbv iota beta.
  destruct (Z.eqb_spec (mem_brk s) 0); [lia|]. cbv zeta.
  unfold extend_heap. change (extend_heap_size (CHUNKSIZE / 4)) with 65536.
  change (to_int 65536) with 65536. unfold mem_sbrk. simpl mem_brk.
  simpl mem_max_addr.
  destruct (Z.ltb_spec 65536 0); [lia|]. simpl orb.
  destruct (Z.gtb_spec (mem_brk s + 16 + 65536) (mem_max_addr s)); [|lia].
  cbv iota beta. change (-1 =? -1) with true. cbv iota.
  change (0 =? 0) with true. cbv iota. simpl fst. simpl snd.
  simpl heap_listp. simpl mem.
  change (PACK OVERHEAD 1) with 9. change (PACK 0 1) with 1.
  split; [reflexivity|]. split; [reflexivity|]. split; [reflexivity|].
  split; [get_put; reflexivity|]. split; get_put; reflexivity.
Qed.

Lemma mm_init_no_room_witness :
  fst (mm_init (mkState (fun _ => 0) 0 0 4096 8192)) = -1.
Proof.
  apply (mm_init_no_room (mkState (fun _ => 0) 0 0 4096 8192));
    vm_compute; [reflexivity|discriminate|reflexivity].
Defined.

(* ------------------------------------------------------------------ *)
(** ** Further properties: [mm_malloc] and [mm_free] *)

(** A listed block other than the prologue starts 8 bytes behind
    [heap_listp] at the earliest. *)
Lemma rep_behind_prologue (s : state) (bs : list blk) (a : blk) :
  heap_shape s bs -> In a bs -> 8 < bsize a -> heap_listp s + 8 <= baddr a.
Proof.
  intros Hs Ha Hsz. destruct (hs_prologue _ _ Hs) as [rest Hbs].
  destruct (hs_mem _ _ Hs) as (Hc & _). rewrite Hbs in Hc, Ha.
  simpl in Hc. destruct Hc as (_ & _ & _ & Hc).
  destruct Ha as [<-|Ha]; [simpl in Hsz; lia|].
  destruct (chain_bounds _ _ _ _ Hc Ha) as [Hlo _]. exact Hlo.
Qed.

(** X11: a pointer returned by [mm_malloc] is aligned to 8 bytes when
    [heap_listp] is, and the [size] bytes behind it lie inside the heap,
    between the prologue and the epilogue header. *)
Theorem mm_malloc_aligned_in_heap (fuel : nat) (s : state) (size p : Z) (s' : state) :
  reachable s -> heap_listp s mod 8 = 0 -> 0 < size <= MAX_REQUEST ->
  mm_malloc fuel s size = Returns p s' -> p <> NULL ->
  p mod 8 = 0
  /\ heap_listp s' + DSIZE <= p
  /\ p + size <= mem_brk s' - DSIZE.
Proof.
  intros Hr Hal Hsize Hm Hp. destruct (reachable_heap_ok _ Hr) as [bs Hrep].
  unfold MAX_REQUEST in Hsize.
  destruct (mm_malloc_returns _ _ _ _ _ _ Hrep Hsize Hm)
    as [[Hnull _]|(_ & bs' & a & [Hs' _] & Ha & Hpa & _ & Hfit & _ & Hhl & _)];
    [contradiction|].
  destruct (adjusted_size_ok size Hsize) as (_ & Hr16 & _ & Hge).
  destruct (hs_mem _ _ Hs') as (Hc & _).
  destruct (chain_aligned _ _ _ Hc) as [_ Hall]; [rewrite Hhl; exact Hal|].
  destruct (chain_bounds _ _ _ _ Hc Ha) as (_ & Hhi & _).
  pose proof (rep_behind_prologue _ _ _ Hs' Ha) as Hlo.
  unfold DSIZE. rewrite <- Hpa.
  split; [apply Hall; exact Ha|]. split; lia.
Qed.

Lemma mm_malloc_aligned_in_heap_witness :
  4112 mod 8 = 0
  /\ heap_listp heap1 + DSIZE <= 4112
  /\ 4112 + 8 <= mem_brk heap1 - DSIZE.
Proof.
  apply (mm_malloc_aligned_in_heap 3 heap0 8 4112 heap1).
  - exact heap0_reachable.
  - vm_compute. reflexivity.
  - unfold MAX_REQUEST. lia.
  - exact heap1_malloc.
  - discriminate.
Defined.

(** What the block list says about a listed block, in terms of the words of
    the heap. *)
Lemma rep_block_words (s : state) (bs : list blk) (x : blk) :
  heap_shape s bs -> In x bs ->
  GET_SIZE (mem s) (HDRP (baddr x)) = bsize x
  /\ GET_ALLOC (mem s) (HDRP (baddr x)) = Z.b2z (balloc x).
Proof.
  intros Hs Hx.
  destruct (heap_mem_In _ _ _ _ x (hs_mem _ _ Hs) Hx) as (Ht & _ & Hm & _).
  unfold HDRP, WSIZE. split; [exact (hdr_size _ _ Ht Hm)|exact (hdr_alloc _ _ Ht Hm)].
Qed.

(** X12: [mm_malloc] leaves the blocks that are allocated alone.  A
    block [q] that was allocated before the call is allocated after it, with
    the size it had and with every byte of its payload unchanged, and the
    block handed out does not overlap it. *)
Theorem mm_malloc_keeps_live_blocks
        (fuel : nat) (s : state) (size p : Z) (s' : state) (q : Z) :
  reachable s -> 0 < size <= MAX_REQUEST ->
  mm_malloc fuel s size = Returns p s' -> allocated_block s q ->
  allocated_block s' q
  /\ GET_SIZE (mem s') (HDRP q) = GET_SIZE (mem s) (HDRP q)
  /\ (forall a, q <= a < q + GET_SIZE (mem s) (HDRP q) - OVERHEAD ->
                mem s' a = mem s a)
  /\ (p <> NULL ->
      q + GET_SIZE (mem s) (HDRP q) <= p
      \/ p + GET_SIZE (mem s') (HDRP p) <= q).
Proof.
  intros Hr Hsize Hm Hq. destruct (reachable_heap_ok _ Hr) as [bs Hrep].
  pose proof Hrep as [Hs _]. unfold MAX_REQUEST in Hsize.
  destruct (allocated_block_rep _ _ _ Hs Hq) as (x & Hx & <- & Hxa & Hne).
  destruct (rep_block_words _ _ _ Hs Hx) as [Hxs _]. rewrite Hxs.
  destruct (mm_malloc_returns _ _ _ _ _ _ Hrep Hsize Hm)
    as [(Hnull & [Hs' _] & Hmem & _ & Hhl & _)
       |(Hp & bs' & a & [Hs' _] & Ha & Hpa & Haa & Hfit & Hkept & Hhl & _)].
  - destruct (rep_block_words _ _ _ Hs' Hx) as [Hxs' _].
    split; [apply (rep_allocated_block _ bs); auto; rewrite Hhl; exact Hne|].
    split; [exact Hxs'|]. split; [intros; rewrite Hmem; reflexivity|].
    intros Hp. contradiction.
  - destruct (Hkept x Hx Hxa) as (Hx' & Hxa' & Hbytes).
    destruct (rep_block_words _ _ _ Hs' Hx') as [Hxs' _].
    destruct (rep_block_words _ _ _ Hs' Ha) as [Has' _].
    split; [apply (rep_allocated_block _ bs'); auto; rewrite Hhl; exact Hne|].
    split; [exact Hxs'|].
    split; [intros addr Haddr; apply Hbytes; unfold OVERHEAD in Haddr; lia|].
    intros _. rewrite <- Hpa, Has'.
    destruct (hs_mem _ _ Hs') as (Hc & _).
    destruct (chain_disjoint _ _ _ _ _ Hc Hx' Ha) as [Heq|[H|H]];
      [contradiction|left; exact H|right; exact H].
Qed.

Lemma mm_malloc_keeps_live_blocks_witness :
  allocated_block (malloc_state 3 heap1 8) 4112
  /\ GET_SIZE (mem (malloc_state 3 heap1 8)) (HDRP 4112)
     = GET_SIZE (mem heap1) (HDRP 4112).
Proof.
  assert (Hm : mm_malloc 3 heap1 8 = Returns 4128 (malloc_state 3 heap1 8))
    by (vm_compute; reflexivity).
  assert (Hsize : 0 < 8 <= MAX_REQUEST) by (unfold MAX_REQUEST; lia).
  destruct (mm_malloc_keeps_live_blocks 3 heap1 8 4128 _ 4112
              heap1_reachable Hsize Hm heap1_block_4112) as (H1 & H2 & _).
  split; [exact H1|exact H2].
Defined.

(** Why [mm_malloc] returns NULL for a positive size in range. *)
Lemma mm_malloc_null (fuel : nat) (s : state) (bs : list blk) (size : Z) (s' : state) :
  heap_rep s bs -> 0 < size <= 2 ^ 32 - 16 ->
  mm_malloc fuel s size = Returns NULL s' ->
  let extendsize := MAX (adjusted_size size) CHUNKSIZE in
  s' = set_next_fit_ptr s (heap_listp s)
  /\ find_fit fuel s (adjusted_size size) = Returns NULL s'
  /\ (2 ^ 31 <= extendsize \/ mem_max_addr s < mem_brk s + extendsize).
Proof.
  intros [Hs Hn] Hsize Hm ext.
  destruct (adjusted_size_ok size Hsize) as (_ & Hr16 & Hmod & Hsz).
  set (asize := adjusted_size size) in *.
  set (big := Nat.max fuel (heap_fuel s)).
  assert (Hbig : enough_fuel s big) by (apply heap_fuel_enough; unfold big; lia).
  pose proof (hs_low _ _ Hs) as Hlow.
  unfold mm_malloc in Hm. destruct (Z.leb_spec size 0); [lia|]. fold asize in Hm.
  unfold find_fit in *.
  destruct (find_fit_from fuel s asize (next_fit_ptr s)) as [bp s1| |] eqn:Hf;
    try discriminate.
  pose proof (find_fit_from_mono _ _ _ big _ _ _ Hf) as Hf'.
  destruct (find_fit_rep s bs big asize Hs Hbig)
    as [(b & Hb & [Hbf Hbs] & Hfit)|Hfit];
    unfold find_fit in Hfit; rewrite Hf' in Hfit by (unfold big; lia);
    inversion Hfit; subst bp s1; clear Hfit.
  - exfalso.
    destruct (heap_mem_In _ _ _ _ b (hs_mem _ _ Hs) Hb) as (_ & _ & _ & Hlo & _).
    unfold NULL in Hm. destruct (Z.eqb_spec (baddr b) 0); [lia|].
    simpl in Hm. inversion Hm. contradiction.
  - change (negb (NULL =? NULL)) with false in Hm. cbv iota in Hm.
    destruct (extend_request asize) as (Hreq & Hge & Hchunk); [lia|exact Hmod|].
    fold ext in Hreq, Hge, Hchunk, Hm.
    set (s1 := set_next_fit_ptr s (heap_listp s)) in *.
    assert (Hs1 : heap_rep s1 bs).
    { split; [|exact Hn]. apply set_cursor_shape; [exact Hs|]. left.
      destruct (hs_prologue _ _ Hs) as [rest ->]. eexists.
      split; [left; reflexivity|reflexivity]. }
    assert (H8 : 8 <= extend_heap_size (ext / WSIZE)) by (rewrite Hreq; lia).
    destruct (extend_heap_spec s1 bs (ext / WSIZE) Hs1 H8)
      as [[Hfail Hwhy]|(Hlt & Hroom & bs2 & f & Hext)].
    + rewrite Hfail in Hm. simpl in Hm. inversion Hm. subst s'.
      split; [reflexivity|]. split; [reflexivity|].
      rewrite Hreq in Hwhy. exact Hwhy.
    + exfalso. destruct (extend_heap s1 (ext / WSIZE)) as [r s2] eqn:He.
      cbv zeta in Hext. simpl in Hext.
      destruct Hext as ([Hs2 _] & Hr2 & Hfin & _ & _ & _ & _ & _ & _ & Hh2 & _).
      destruct (heap_mem_In _ _ _ _ f (hs_mem _ _ Hs2) Hfin) as (_ & _ & _ & Hlo & _).
      rewrite Hh2 in Hlo. simpl in Hlo. subst r.
      unfold NULL in Hm. destruct (Z.eqb_spec (baddr f) 0); [lia|].
      inversion Hm. contradiction.
Qed.

(** X13: a failing [mm_malloc].  When a request of a positive size in
    range returns NULL, no free block from the cursor on was large enough and
    the heap could not grow by max(adjusted size, CHUNKSIZE) bytes: that many
    bytes do not fit an [int], or they are not left in the memory source.
    The heap is then as before, except for the cursor, which is back at
    [heap_listp]. *)
Theorem mm_malloc_failure (fuel : nat) (s : state) (size : Z) (s' : state) :
  reachable s -> 0 < size <= MAX_REQUEST ->
  mm_malloc fuel s size = Returns NULL s' ->
  let extendsize := MAX (adjusted_size size) CHUNKSIZE in
  s' = set_next_fit_ptr s (heap_listp s)
  /\ find_fit fuel s (adjusted_size size) = Returns NULL s'
  /\ (2 ^ 31 <= extendsize \/ mem_max_addr s < mem_brk s + extendsize).
Proof.
  intros Hr Hsize Hm. destruct (reachable_heap_ok _ Hr) as [bs Hrep].
  apply (mm_malloc_null fuel s bs size s' Hrep Hsize Hm).
Qed.

Lemma tight_reachable : reachable heap_tight.
Proof.
  apply reach_init. unfold init_room. vm_compute. intuition discriminate.
Qed.

Lemma mm_malloc_failure_witness :
  malloc_state 3 heap_tight 70000 = set_next_fit_ptr heap_tight (heap_listp heap_tight)
  /\ find_fit 3 heap_tight (adjusted_size 70000)
     = Returns NULL (malloc_state 3 heap_tight 70000)
  /\ (2 ^ 31 <= MAX (adjusted_size 70000) CHUNKSIZE
      \/ mem_max_addr heap_tight
         < mem_brk heap_tight + MAX (adjusted_size 70000) CHUNKSIZE).
Proof.
  apply (mm_malloc_failure 3 heap_tight 70000 (malloc_state 3 heap_tight 70000)).
  - exact tight_reachable.
  - unfold MAX_REQUEST. lia.
  - vm_compute. reflexivity.
Defined.

(** X14: [mm_free] leaves the other allocated blocks alone.  When [bp]
    is freed, a different allocated block [q] stays allocated, with the size
    it had and with every byte of its payload unchanged. *)
Theorem mm_free_keeps_live_blocks (s : state) (bp q : Z) :
  reachable s -> allocated_block s bp -> allocated_block s q -> q <> bp ->
  allocated_block (mm_free s bp) q
  /\ GET_SIZE (mem (mm_free s bp)) (HDRP q) = GET_SIZE (mem s) (HDRP q)
  /\ forall a, q <= a < q + GET_SIZE (mem s) (HDRP q) - OVERHEAD ->
               mem (mm_free s bp) a = mem s a.
Proof.
  intros Hr Hbp Hq Hne. destruct (reachable_heap_ok _ Hr) as [bs Hrep].
  pose proof Hrep as [Hs _].
  destruct (allocated_block_rep _ _ _ Hs Hbp) as (b & Hb & <- & Hba & Hbn).
  destruct (allocated_block_rep _ _ _ Hs Hq) as (x & Hx & <- & Hxa & Hxn).
  destruct (rep_block_words _ _ _ Hs Hx) as [Hxs _]. rewrite Hxs.
  destruct (mm_free_spec s bs b Hrep Hb Hbn)
    as (bs' & f & [Hs' _] & Hf & Hff & _ & _ & Hout & Hkeep & Hhl & _).
  assert (Hxb : x <> b) by congruence.
  pose proof (Hkeep x Hx Hxa Hxb) as Hx'.
  destruct (rep_block_words _ _ _ Hs' Hx') as [Hxs' _].
  split; [apply (rep_allocated_block _ bs'); auto; rewrite Hhl; exact Hxn|].
  split; [exact Hxs'|].
  intros a Ha. unfold OVERHEAD in Ha. apply Hout.
  destruct (hs_mem _ _ Hs') as (Hc & _).
  assert (Hxf : x <> f) by congruence.
  destruct (chain_disjoint _ _ _ _ _ Hc Hx' Hf) as [Heq|Hdis]; [contradiction|].
  pose proof (chain_bounds _ _ _ _ Hc Hx'). lia.
Qed.

Lemma mm_free_keeps_live_blocks_witness :
  allocated_block (mm_free heap3 4128) 4112
  /\ GET_SIZE (mem (mm_free heap3 4128)) (HDRP 4112)
     = GET_SIZE (mem heap3) (HDRP 4112).
Proof.
  assert (H4112 : allocated_block heap3 4112).
  { exists [4104; 4112; 4128; 4144; 4160].
    split; [exists 6%nat; vm_compute; reflexivity|].
    split; [simpl; auto|]. split; [vm_compute; discriminate|].
    vm_compute. reflexivity. }
  assert (Hne : 4112 <> 4128) by discriminate.
  destruct (mm_free_keeps_live_blocks heap3 4128 4112
              heap3_reachable heap3_block_4128 H4112 Hne) as (H1 & H2 & _).
  split; [exact H1|exact H2].
Defined.

Lemma coalesce_fields (s : state) (bp : Z) :
  heap_listp (snd (coalesce s bp)) = heap_listp s
  /\ mem_brk (snd (coalesce s bp)) = mem_brk s
  /\ mem_max_addr (snd (coalesce s bp)) = mem_max_addr s.
Proof.
  unfold coalesce.
  destruct (_ && _); [simpl; auto|].
  destruct (_ && _); [simpl; auto|].
  destruct (_ && _); simpl; auto.
Qed.

Lemma extend_heap_grows (s : state) (words : Z) :
  heap_grows s (snd (extend_heap s words)).
Proof.
  unfold heap_grows, extend_heap, mem_sbrk.
  destruct (Z.ltb_spec (to_int (extend_heap_size words)) 0) as [|Hpos];
    simpl orb; cbv iota beta.
  - change (-1 =? -1) with true. simpl. lia.
  - destruct (mem_brk s + to_int (extend_heap_size words) >? mem_max_addr s).
    + change (-1 =? -1) with true. simpl. lia.
    + destruct (mem_brk s =? -1); [simpl; lia|].
      destruct (coalesce_fields
                  (extend_heap_format
                     (set_mem_brk s (mem_brk s + to_int (extend_heap_size words)))
                     (mem_brk s) (extend_heap_size words)) (mem_brk s))
        as (H1 & H2 & H3).
      rewrite H1, H2, H3. simpl. lia.
Qed.

Lemma find_fit_from_state (s : state) (asize : Z) (fuel : nat) :
  forall bp r s', find_fit_from fuel s asize bp = Returns r s' ->
                  s' = set_next_fit_ptr s (next_fit_ptr s').
Proof.
  induction fuel as [|fuel IH]; intros bp r s' H; [discriminate|].
  simpl in H. destruct (_ >? _).
  - destruct (_ && _); [inversion H; reflexivity|eapply IH; exact H].
  - inversion H. reflexivity.
Qed.

Lemma mm_malloc_grows (fuel : nat) (s : state) (size p : Z) (s' : state) :
  mm_malloc fuel s size = Returns p s' -> heap_grows s s'.
Proof.
  unfold mm_malloc, find_fit. intros H.
  destruct (size <=? 0); [inversion H; unfold heap_grows; lia|].
  destruct (find_fit_from fuel s _ _) as [bp s1| |] eqn:Hf; try discriminate.
  apply find_fit_from_state in Hf.
  assert (H1 : heap_grows s s1) by (rewrite Hf; unfold heap_grows; simpl; lia).
  clear Hf. destruct (negb (bp =? NULL)).
  - injection H as Hp Hs'. subst s'.
    destruct (place_fields s1 bp (adjusted_size size)) as (F1 & _ & F3 & F4).
    unfold heap_grows, set_next_fit_ptr in *.
    cbn [heap_listp mem_brk mem_max_addr]. rewrite F1, F3, F4. exact H1.
  - pose proof (extend_heap_grows s1 (MAX (adjusted_size size) CHUNKSIZE / WSIZE)) as H2.
    destruct (extend_heap s1 _) as [r s2]. simpl in H2.
    assert (H12 : heap_grows s s2) by (unfold heap_grows in *; lia).
    destruct (r =? NULL); injection H as Hp Hs'; subst s'; [exact H12|].
    destruct (place_fields s2 r (adjusted_size size)) as (F1 & _ & F3 & F4).
    unfold heap_grows, set_next_fit_ptr in *.
    cbn [heap_listp mem_brk mem_max_addr]. rewrite F1, F3, F4. exact H12.
Qed.

Lemma mm_free_fields (s : state) (bp : Z) :
  heap_listp (mm_free s bp) = heap_listp s
  /\ mem_brk (mm_free s bp) = mem_brk s
  /\ mem_max_addr (mm_free s bp) = mem_max_addr s.
Proof. unfold mm_free. apply (coalesce_fields (mark_free s bp) bp). Qed.



(** X18: allocated blocks never overlap.  On a heap reached through
    the interface two different allocated blocks lie one entirely behind the
    other, headers and footers included. *)
Theorem allocated_blocks_disjoint (s : state) (p q : Z) :
  reachable s -> allocated_block s p -> allocated_block s q -> p <> q ->
  p + GET_SIZE (mem s) (HDRP p) <= q \/ q + GET_SIZE (mem s) (HDRP q) <= p.
Proof.
  intros Hr Hp Hq Hne. destruct (reachable_heap_ok _ Hr) as [bs [Hs _]].
  destruct (allocated_block_rep _ _ _ Hs Hp) as (x & Hx & <- & _).
  destruct (allocated_block_rep _ _ _ Hs Hq) as (y & Hy & <- & _).
  destruct (rep_block_words _ _ _ Hs Hx) as [-> _].
  destruct (rep_block_words _ _ _ Hs Hy) as [-> _].
  destruct (hs_mem _ _ Hs) as (Hc & _).
  destruct (chain_disjoint _ _ _ _ _ Hc Hx Hy) as [Heq|H]; [|exact H].
  exfalso. apply Hne. rewrite Heq. reflexivity.
Qed.

Lemma heap3_block_4112 : allocated_block heap3 4112.
Proof.
  exists [4104; 4112; 4128; 4144; 4160].
  split; [exists 6%nat; vm_compute; reflexivity|].
  split; [simpl; auto|]. split; [vm_compute; discriminate|].
  vm_compute. reflexivity.
Qed.

Lemma allocated_blocks_disjoint_witness :
  4112 + GET_SIZE (mem heap3) (HDRP 4112) <= 4128
  \/ 4128 + GET_SIZE (mem heap3) (HDRP 4128) <= 4112.
Proof.
  apply (allocated_blocks_disjoint heap3 4112 4128).
  - exact heap3_reachable.
  - exact heap3_block_4112.
  - exact heap3_block_4128.
  - discriminate.
Defined.

(** Storing the word that is already there changes no byte. *)
Lemma PUT_same_bytes (m : memory) (p v a : Z) :
  GET m p = u32 v -> byte_at (PUT m p v) a = byte_at m a.
Proof.
  unfold GET, PUT, byte_at, u32. change (2 ^ 32) with 4294967296. intros H.
  destruct (Z.eqb_spec a p); [subst a|];
    [|destruct (Z.eqb_spec a (p + 1)); [subst a|];
      [|destruct (Z.eqb_spec a (p + 2)); [subst a|];
        [|destruct (Z.eqb_spec a (p + 3)); [subst a|reflexivity]]]];
    Z.div_mod_to_equations; lia.
Qed.

Lemma put_tags_same_bytes (m : memory) (b : blk) :
  tagged m b -> 8 <= bsize b < 2 ^ 32 -> bsize b mod 8 = 0 ->
  forall q, GET (put_tags m (baddr b) (bsize b) (Z.b2z (balloc b))) q = GET m q.
Proof.
  intros [Hh Hf] Hs Hm q. unfold put_tags. apply GET_ext. intros a _.
  assert (Hu : u32 (tagw b) = tagw b).
  { apply u32_small. rewrite <- Hh. apply GET_range. }
  fold (tagw b).
  rewrite PUT_same_bytes.
  - apply PUT_same_bytes. rewrite Hu. exact Hh.
  - rewrite Hu. destruct (Z.eq_dec (baddr b + bsize b - 8) (baddr b - 4)) as [e|n].
    + rewrite e, GET_PUT_same. exact Hu.
    + rewrite GET_PUT_other by lia. exact Hf.
Qed.

(** X17: freeing a block that is free already changes nothing.  On a
    heap reached through the interface, [mm_free] of a free block of the walk
    rewrites the tags that are there and finds both neighbours allocated:
    every word of the heap reads as before, and cursor, [heap_listp] and
    break are as before. *)
Theorem mm_free_of_free_block (s : state) (l : list Z) (bp : Z) :
  reachable s -> walked s l -> In bp l ->
  GET_ALLOC (mem s) (HDRP bp) = 0 ->
  (forall q, GET (mem (mm_free s bp)) q = GET (mem s) q)
  /\ next_fit_ptr (mm_free s bp) = next_fit_ptr s
  /\ heap_listp (mm_free s bp) = heap_listp s
  /\ mem_brk (mm_free s bp) = mem_brk s.
Proof.
  intros Hr Hw Hin Hfree. destruct (reachable_heap_ok _ Hr) as [bs [Hs Hn]].
  rewrite (walked_rep_inv _ _ _ Hs Hw) in Hin. clear Hw.
  apply in_map_iff in Hin. destruct Hin as (b & <- & Hb).
  destruct (rep_block_words _ _ _ Hs Hb) as [_ Hba]. rewrite Hba in Hfree.
  assert (Hbf : balloc b = false) by (destruct (balloc b); [discriminate|reflexivity]).
  destruct (heap_mem_In _ _ _ _ b (hs_mem _ _ Hs) Hb) as (Ht & Hsz & Hm & _).
  destruct (hs_prologue _ _ Hs) as [rest Hbs]. subst bs.
  destruct (split_with_prev (mkBlk (heap_listp s) 8 true) b rest)
    as (L1 & p & L2 & HL); [exact Hb|intros ->; discriminate|].
  rewrite HL in Hs, Hn, Hb.
  assert (Hfb : freed b = b) by (destruct b; simpl in Hbf; subst; reflexivity).
  destruct (mark_free_shape s L1 L2 p b Hs) as [Hsm _]. cbv zeta in Hsm.
  rewrite Hfb in Hsm.
  destruct (naf_split _ _ _ _ Hn) as [Hn1 Hn2].
  assert (Hnb : balloc p = true /\ next_allocated L2 = true).
  { apply naf_app_cons in Hn. destruct Hn as [_ Hn]. cbn [naf] in Hn.
    destruct Hn as ([Hp|Hp] & Hn & _); [|congruence].
    split; [exact Hp|]. destruct L2 as [|n L2]; [reflexivity|].
    destruct Hn as [Hx|Hx]; [congruence|exact Hx]. }
  destruct Hnb as [Hpa Hna].
  rewrite (mm_free_eq s b Ht Hsz Hm).
  destruct (coalesce_spec1 _ L1 L2 p b Hsm Hbf Hn1 Hn2 Hpa Hna) as [_ Heq].
  rewrite Heq. simpl.
  split; [|auto]. intros q.
  pose proof (put_tags_same_bytes (mem s) b Ht Hsz Hm q) as Hq.
  rewrite Hbf in Hq. exact Hq.
Qed.

Lemma mm_free_of_free_block_witness :
  (forall q, GET (mem (mm_free heap1 4128)) q = GET (mem heap1) q)
  /\ next_fit_ptr (mm_free heap1 4128) = next_fit_ptr heap1
  /\ heap_listp (mm_free heap1 4128) = heap_listp heap1
  /\ mem_brk (mm_free heap1 4128) = mem_brk heap1.
Proof.
  apply (mm_free_of_free_block heap1 [4104; 4112; 4128] 4128).
  - exact heap1_reachable.
  - exists 4%nat. vm_compute. reflexivity.
  - simpl. auto.
  - vm_compute. reflexivity.
Defined.

(** The block list after [place] and the cursor update of [mm_malloc]. *)
Lemma place_step_blocks (s : state) (L1 L2 : list blk) (b : blk) (asize : Z) :
  heap_shape s (L1 ++ b :: L2) -> balloc b = false ->
  8 <= asize -> asize mod 8 = 0 -> asize <= bsize b ->
  let s2 := place s (baddr b) asize in
  heap_shape (set_next_fit_ptr s2 (NEXT_BLKP (mem s2) (baddr b)))
    (L1 ++ place_blocks b asize ++ L2).
Proof.
  intros Hs Hfree Ha Hmod Hle s2.
  pose proof (hs_mem _ _ Hs) as Hm.
  destruct (place_heap s _ _ L1 L2 b asize Hm Ha Hmod Hle) as [Hm2 _].
  fold s2 in Hm2.
  destruct (place_fields s (baddr b) asize) as (Hf1 & Hf2 & Hf3 & Hf4).
  fold s2 in Hf1, Hf2, Hf3, Hf4.
  assert (Hpb : exists a tl, place_blocks b asize = a :: tl /\ baddr a = baddr b).
  { unfold place_blocks. destruct (_ >=? _); eexists _, _; split; reflexivity. }
  destruct Hpb as (a & tl & Hpb & Haa).
  rewrite Hpb in *. simpl app in *.
  assert (Hta : tagged (mem s2) a /\ bsize a mod 8 = 0).
  { destruct (heap_mem_In _ _ _ _ a Hm2) as (Ht & _ & Hmm & _); [in_list|]. auto. }
  assert (Hnext : NEXT_BLKP (mem s2) (baddr b) = baddr a + bsize a).
  { rewrite <- Haa. apply NEXT_BLKP_at; apply Hta. }
  assert (HL1 : L1 <> []).
  { eapply prologue_nonempty; [apply (hs_prologue _ _ Hs)|exact Hfree]. }
  constructor.
  - simpl. rewrite Hf1.
    eapply prologue_keep; [apply (hs_prologue _ _ Hs)|left; exact HL1].
  - simpl. rewrite Hf1, Hf3. exact Hm2.
  - simpl. rewrite Hf3, Hnext.
    destruct Hm2 as (Hc2 & _). eapply chain_next_cursor. exact Hc2.
  - simpl. rewrite Hf1. apply Hs.
  - simpl. rewrite Hf3, Hf4. apply Hs.
Qed.

(** Freeing the block that [place] has just cut out of the free block [b]
    gives [b] back. *)
Lemma free_after_place (s : state) (L1 L2 : list blk) (pv b : blk) (asize : Z) :
  heap_rep s (L1 ++ pv :: b :: L2) -> balloc b = false ->
  8 <= asize -> asize mod 8 = 0 -> asize <= bsize b ->
  let s2 := place s (baddr b) asize in
  let s3 := set_next_fit_ptr s2 (NEXT_BLKP (mem s2) (baddr b)) in
  heap_rep (mm_free s3 (baddr b)) (L1 ++ pv :: b :: L2).
Proof.
  intros [Hs Hn] Hfree Ha Hmod Hle s2 s3.
  assert (Hs' : heap_shape s ((L1 ++ [pv]) ++ b :: L2))
    by (rewrite <- app_assoc; exact Hs).
  pose proof (place_step_blocks s _ _ b asize Hs' Hfree Ha Hmod Hle) as Hs3.
  cbv zeta in Hs3. fold s2 in Hs3. fold s3 in Hs3. rewrite <- app_assoc in Hs3.
  simpl app in Hs3.
  destruct (naf_split _ _ _ _ Hn) as [Hn1 Hn2].
  assert (Hnb : balloc pv = true /\ next_allocated L2 = true).
  { apply naf_app_cons in Hn. destruct Hn as [_ Hn]. cbn [naf] in Hn.
    destruct Hn as ([Hp|Hp] & Hn & _); [|congruence].
    split; [exact Hp|]. destruct L2 as [|n L2]; [reflexivity|].
    destruct Hn as [Hx|Hx]; [congruence|exact Hx]. }
  destruct Hnb as [Hpa Hna].
  destruct (heap_mem_In _ _ _ _ b (hs_mem _ _ Hs)) as (_ & Hbs & Hbm & _);
    [in_list|].
  assert (Hbeq : b = mkBlk (baddr b) (bsize b) false)
    by (destruct b; simpl in Hfree; subst; reflexivity).
  unfold place_blocks in Hs3.
  destruct (Z.geb_spec (bsize b - asize) (DSIZE + OVERHEAD)) as [Hsplit|Hfill];
    unfold DSIZE, OVERHEAD in *.
  - set (a := mkBlk (baddr b) asize true) in *.
    set (r := mkBlk (baddr b + asize) (bsize b - asize) false) in *.
    simpl app in Hs3.
    destruct (heap_mem_In _ _ _ _ a (hs_mem _ _ Hs3)) as (Hta & Has & Ham & _);
      [in_list|].
    change (mm_free s3 (baddr b)) with (mm_free s3 (baddr a)).
    rewrite (mm_free_eq s3 a Hta Has Ham).
    destruct (mark_free_shape s3 L1 (r :: L2) pv a Hs3) as [Hsm _].
    cbv zeta in Hsm.
    assert (Hnr : naf (r :: L2)).
    { cbn [naf]. split; [|exact Hn2]. destruct L2 as [|n L2]; [exact I|].
      right. exact Hna. }
    destruct (coalesce_spec2 _ L1 (r :: L2) pv (freed a) Hsm eq_refl Hn1 Hnr
                r L2 Hpa eq_refl eq_refl) as [Hco _].
    cbv zeta in Hco. destruct Hco as (Hrep & _).
    simpl baddr in Hrep. simpl bsize in Hrep.
    replace (asize + (bsize b - asize)) with (bsize b) in Hrep by lia.
    rewrite <- Hbeq in Hrep. exact Hrep.
  - set (a := mkBlk (baddr b) (bsize b) true) in *.
    simpl app in Hs3.
    destruct (heap_mem_In _ _ _ _ a (hs_mem _ _ Hs3)) as (Hta & Has & Ham & _);
      [in_list|].
    change (mm_free s3 (baddr b)) with (mm_free s3 (baddr a)).
    rewrite (mm_free_eq s3 a Hta Has Ham).
    destruct (mark_free_shape s3 L1 L2 pv a Hs3) as [Hsm _].
    cbv zeta in Hsm.
    destruct (coalesce_spec1 _ L1 L2 pv (freed a) Hsm eq_refl Hn1 Hn2 Hpa Hna)
      as [Hco _].
    destruct Hco as (Hrep & _).
    unfold freed, a in Hrep. simpl baddr in Hrep. simpl bsize in Hrep.
    rewrite <- Hbeq in Hrep. exact Hrep.
Qed.

(** A successful [mm_malloc] that has not moved the break has placed the
    request into a free block of the heap. *)
Lemma mm_malloc_in_place (fuel : nat) (s : state) (bs : list blk) (size p : Z) (s1 : state) :
  heap_rep s bs -> 0 < size <= 2 ^ 32 - 16 ->
  mm_malloc fuel s size = Returns p s1 -> p <> NULL -> mem_brk s1 = mem_brk s ->
  exists b,
    In b bs /\ balloc b = false /\ adjusted_size size <= bsize b /\ p = baddr b
    /\ let sc := set_next_fit_ptr s (baddr b) in
       let s2 := place sc (baddr b) (adjusted_size size) in
       s1 = set_next_fit_ptr s2 (NEXT_BLKP (mem s2) (baddr b)).
Proof.
  intros [Hs Hn] Hsize Hm Hp Hbrk.
  destruct (adjusted_size_ok size Hsize) as (_ & Hr16 & Hmod & Hsz).
  set (asize := adjusted_size size) in *.
  set (big := Nat.max fuel (heap_fuel s)).
  assert (Hbig : enough_fuel s big) by (apply heap_fuel_enough; unfold big; lia).
  pose proof (hs_low _ _ Hs) as Hlow.
  unfold mm_malloc in Hm. destruct (Z.leb_spec size 0); [lia|]. fold asize in Hm.
  unfold find_fit in *.
  destruct (find_fit_from fuel s asize (next_fit_ptr s)) as [bp sc| |] eqn:Hf;
    try discriminate.
  pose proof (find_fit_from_mono _ _ _ big _ _ _ Hf) as Hf'.
  destruct (find_fit_rep s bs big asize Hs Hbig)
    as [(b & Hb & [Hbf Hbs] & Hfit)|Hfit];
    unfold find_fit in Hfit; rewrite Hf' in Hfit by (unfold big; lia);
    injection Hfit as Hbp Hsc; subst bp sc.
  - destruct (heap_mem_In _ _ _ _ b (hs_mem _ _ Hs) Hb) as (_ & _ & _ & Hlo & _).
    unfold NULL in Hm. destruct (Z.eqb_spec (baddr b) 0); [lia|].
    simpl negb in Hm. cbv iota in Hm. injection Hm as Hpb Hs1.
    exists b. repeat split; auto.
  - exfalso. change (negb (NULL =? NULL)) with false in Hm. cbv iota in Hm.
    destruct (extend_request asize) as (Hreq & Hge & Hchunk); [lia|exact Hmod|].
    set (ext := MAX asize CHUNKSIZE) in *.
    set (sc := set_next_fit_ptr s (heap_listp s)) in *.
    assert (Hsc : heap_rep sc bs).
    { split; [|exact Hn]. apply set_cursor_shape; [exact Hs|]. left.
      destruct (hs_prologue _ _ Hs) as [rest ->]. eexists.
      split; [left; reflexivity|reflexivity]. }
    assert (H8 : 8 <= extend_heap_size (ext / WSIZE)) by (rewrite Hreq; lia).
    destruct (extend_heap_spec sc bs (ext / WSIZE) Hsc H8)
      as [[Hfail Hwhy]|(Hlt & Hroom & bs2 & f & Hext)].
    + rewrite Hfail in Hm. simpl in Hm. injection Hm as Hpn _.
      apply Hp. symmetry. exact Hpn.
    + destruct (extend_heap sc (ext / WSIZE)) as [r s2] eqn:He.
      cbv zeta in Hext. simpl in Hext.
      destruct Hext as (_ & _ & _ & _ & _ & _ & Hb2 & _).
      destruct (r =? NULL); injection Hm as Hpn Hs1; [apply Hp; congruence|].
      destruct (place_fields s2 r asize) as (_ & _ & F3 & _).
      rewrite <- Hs1 in Hbrk. unfold set_next_fit_ptr in Hbrk.
      cbn [mem_brk] in Hbrk. rewrite F3, Hb2, Hreq in Hbrk.
      unfold sc in Hbrk. simpl in Hbrk. unfold CHUNKSIZE in Hchunk.
      change (Z.shiftl 1 16) with 65536 in Hchunk. lia.
Qed.

(** X16: allocating and freeing at once restores the block sequence.
    When [mm_malloc] has served a request without moving the break and the
    block it returned is freed again, the walk visits the blocks it visited
    before the request, and every one of them has the header and the footer
    it had: the split made by [place] is undone by [coalesce]. *)
Theorem malloc_free_round_trip (fuel : nat) (s : state) (size p : Z) (s1 : state) :
  reachable s -> 0 < size <= MAX_REQUEST ->
  mm_malloc fuel s size = Returns p s1 -> p <> NULL -> mem_brk s1 = mem_brk s ->
  let s2 := mm_free s1 p in
  exists l,
    walked s l /\ walked s2 l
    /\ (forall bp, In bp l ->
          GET (mem s2) (HDRP bp) = GET (mem s) (HDRP bp)
          /\ GET (mem s2) (FTRP (mem s2) bp) = GET (mem s) (FTRP (mem s) bp))
    /\ heap_listp s2 = heap_listp s /\ mem_brk s2 = mem_brk s.
Proof.
  intros Hr Hsize Hm Hp Hbrk s2. destruct (reachable_heap_ok _ Hr) as [bs Hrep].
  pose proof Hrep as [Hs Hn]. unfold MAX_REQUEST in Hsize.
  destruct (adjusted_size_ok size Hsize) as (_ & Hr16 & Hmod & _).
  destruct (mm_malloc_in_place _ _ _ _ _ _ Hrep Hsize Hm Hp Hbrk)
    as (b & Hb & Hbf & Hfit & -> & Hs1).
  cbv zeta in Hs1.
  destruct (hs_prologue _ _ Hs) as [rest Hbs].
  assert (Hsplit : exists L1 pv L2, bs = L1 ++ pv :: b :: L2).
  { rewrite Hbs in Hb |- *. apply split_with_prev; [exact Hb|].
    intros ->. discriminate. }
  destruct Hsplit as (L1 & pv & L2 & HL). clear Hbs.
  assert (Hsc : heap_rep (set_next_fit_ptr s (baddr b)) (L1 ++ pv :: b :: L2)).
  { rewrite <- HL. split; [|exact Hn]. apply set_cursor_shape; [exact Hs|].
    left. exists b. split; [exact Hb|reflexivity]. }
  pose proof (free_after_place _ L1 L2 pv b (adjusted_size size) Hsc Hbf) as Hrep2.
  cbv zeta in Hrep2. rewrite <- Hs1, <- HL in Hrep2.
  specialize (Hrep2 ltac:(lia) Hmod Hfit). fold s2 in Hrep2.
  destruct Hrep2 as [Hs2 _].
  destruct (mm_free_fields s1 (baddr b)) as (F1 & F2 & _). fold s2 in F1, F2.
  destruct (mm_malloc_grows _ _ _ _ _ Hm) as (G1 & _).
  exists (map baddr bs). split; [apply walked_rep; exact Hs|].
  split; [apply walked_rep; exact Hs2|].
  split; [|split; [rewrite F1; exact G1|rewrite F2; exact Hbrk]].
  intros bp Hin. apply in_map_iff in Hin. destruct Hin as (x & <- & Hx).
  destruct (heap_mem_In _ _ _ _ x (hs_mem _ _ Hs) Hx) as ([Hh Hf] & _ & Hxm & _).
  destruct (heap_mem_In _ _ _ _ x (hs_mem _ _ Hs2) Hx) as ([Hh2 Hf2] & _ & _ & _).
  rewrite (FTRP_at _ x Hh Hxm), (FTRP_at _ x Hh2 Hxm).
  unfold HDRP, WSIZE. rewrite Hh, Hh2, Hf, Hf2. split; reflexivity.
Qed.

Lemma malloc_free_round_trip_witness :
  exists l,
    walked heap1 l /\ walked (mm_free (malloc_state 3 heap1 8) 4128) l
    /\ (forall bp, In bp l ->
          GET (mem (mm_free (malloc_state 3 heap1 8) 4128)) (HDRP bp)
          = GET (mem heap1) (HDRP bp)
          /\ GET (mem (mm_free (malloc_state 3 heap1 8) 4128))
               (FTRP (mem (mm_free (malloc_state 3 heap1 8) 4128)) bp)
             = GET (mem heap1) (FTRP (mem heap1) bp))
    /\ heap_listp (mm_free (malloc_state 3 heap1 8) 4128) = heap_listp heap1
    /\ mem_brk (mm_free (malloc_state 3 heap1 8) 4128) = mem_brk heap1.
Proof.
  apply (malloc_free_round_trip 3 heap1 8 4128 (malloc_state 3 heap1 8)).
  - exact heap1_reachable.
  - unfold MAX_REQUEST. lia.
  - vm_compute. reflexivity.
  - discriminate.
  - vm_compute. reflexivity.
Defined.

(** X20: [mm_malloc] succeeds whenever the memory source has room.  If
    max(adjusted size, CHUNKSIZE) bytes fit an [int] and are left between the
    break and the end of the memory source, a request of a positive size in
    range returns a pointer other than NULL, and that pointer is an allocated
    block of the resulting heap. *)
Theorem mm_malloc_succeeds (fuel : nat) (s : state) (size : Z) :
  reachable s -> 0 < size <= MAX_REQUEST -> (heap_fuel s <= fuel)%nat ->
  MAX (adjusted_size size) CHUNKSIZE < 2 ^ 31 ->
  mem_brk s + MAX (adjusted_size size) CHUNKSIZE <= mem_max_addr s ->
  exists p s',
    mm_malloc fuel s size = Returns p s' /\ p <> NULL /\ allocated_block s' p.
Proof.
  intros Hr Hsize Hfuel Hint Hroom. destruct (reachable_heap_ok _ Hr) as [bs Hrep].
  unfold MAX_REQUEST in Hsize.
  destruct (adjusted_size_ok size Hsize) as (_ & Hr16 & _ & _).
  destruct (mm_malloc_spec fuel s bs size Hrep Hsize (heap_fuel_enough _ _ Hfuel))
    as (p & s' & Hm & [(-> & _)|(Hp & bs' & a & [Hs' _] & Ha & Hpa & Haa & Hfit & _ & Hhl & _)]).
  - exfalso.
    destruct (mm_malloc_null fuel s bs size s' Hrep Hsize Hm) as (_ & _ & [H|H]); lia.
  - exists p, s'. split; [exact Hm|]. split; [exact Hp|].
    rewrite <- Hpa. apply (rep_allocated_block _ bs'); auto.
    pose proof (rep_behind_prologue _ _ _ Hs' Ha). lia.
Qed.

Lemma mm_malloc_succeeds_witness :
  exists p s',
    mm_malloc (heap_fuel heap1) heap1 100 = Returns p s'
    /\ p <> NULL /\ allocated_block s' p.
Proof.
  apply (mm_malloc_succeeds (heap_fuel heap1) heap1 100).
  - exact heap1_reachable.
  - unfold MAX_REQUEST. lia.
  - apply Nat.le_refl.
  - vm_compute. reflexivity.
  - vm_compute. discriminate.
Defined.

(** X19: [mm_realloc] leaves the other allocated blocks alone.  When
    the live block [ptr] is resized, a different allocated block [q] stays
    allocated, with the size it had and with every byte of its payload
    unchanged, and the new block does not overlap it. *)
Theorem mm_realloc_keeps_live_blocks
        (fuel : nat) (s : state) (ptr size p : Z) (s' : state) (q : Z) :
  reachable s -> allocated_block s ptr -> 0 < size <= MAX_REQUEST ->
  mm_realloc fuel s ptr size = Returns p s' ->
  allocated_block s q -> q <> ptr ->
  allocated_block s' q
  /\ GET_SIZE (mem s') (HDRP q) = GET_SIZE (mem s) (HDRP q)
  /\ (forall a, q <= a < q + GET_SIZE (mem s) (HDRP q) - OVERHEAD ->
                mem s' a = mem s a)
  /\ (q + GET_SIZE (mem s) (HDRP q) <= p
      \/ p + GET_SIZE (mem s') (HDRP p) <= q).
Proof.
  intros Hr Hptr Hsize Hre Hq Hne. destruct (reachable_heap_ok _ Hr) as [bs Hrep].
  pose proof Hrep as [Hs _]. unfold MAX_REQUEST in Hsize.
  destruct (allocated_block_rep _ _ _ Hs Hptr) as (b & Hb & <- & Hba & Hbn).
  destruct (allocated_block_rep _ _ _ Hs Hq) as (x & Hx & <- & Hxa & Hxn).
  destruct (rep_block_words _ _ _ Hs Hx) as [Hxs _]. rewrite Hxs.
  assert (Hxb : x <> b) by congruence.
  destruct (adjusted_size_ok size Hsize) as (_ & Hr16 & _ & Hsz).
  unfold mm_realloc in Hre.
  destruct (mm_malloc fuel s size) as [newp s1| |] eqn:Hm; try discriminate.
  destruct (Z.eqb_spec newp NULL) as [|Hnn]; [discriminate|].
  injection Hre as Hp Hs'. subst newp.
  destruct (mm_malloc_returns _ _ _ _ _ _ Hrep Hsize Hm)
    as [[Hnull _]|(_ & bs1 & a & Hrep1 & Ha & Haa & Hal & Has & Hkeep & Hh1 & _)];
    [contradiction|].
  destruct (Hkeep b Hb Hba) as (Hb1 & Hbne & _).
  destruct (Hkeep x Hx Hxa) as (Hx1 & Hxne & Hxsame).
  pose proof Hrep1 as [Hs1 Hn1].
  pose proof (hs_mem _ _ Hs1) as Hm1. pose proof Hm1 as (Hc1 & _).
  destruct (heap_mem_In _ _ _ _ b Hm1 Hb1) as (Htb & Hbs & Hbm & _).
  destruct (heap_mem_In _ _ _ _ a Hm1 Ha) as (_ & Has' & _ & _).
  assert (Hcopy : realloc_copy_size (mem s1) (baddr b) size
                  = if size <? bsize b then size else bsize b).
  { unfold realloc_copy_size, HDRP, WSIZE. rewrite (hdr_size _ _ Htb Hbm). reflexivity. }
  set (cnt := realloc_copy_size (mem s1) (baddr b) size) in *.
  assert (Hn : cnt <= size) by (rewrite Hcopy; destruct (Z.ltb_spec size (bsize b)); lia).
  set (s2 := set_mem s1 (memcpy (mem s1) p (baddr b) cnt)) in *.
  assert (Hcp : forall addr, addr < baddr a \/ baddr a + bsize a - 8 <= addr ->
                             mem s2 addr = mem s1 addr).
  { intros addr Haddr. unfold s2. simpl. apply memcpy_outside. lia. }
  assert (Hrep2 : heap_rep s2 bs1).
  { split; [|exact Hn1]. constructor; try apply Hs1.
    unfold s2. simpl.
    apply (heap_mem_payload_write (mem s1) _ _ _ _ a Hm1 Ha). exact Hcp. }
  assert (Hne2 : baddr b <> heap_listp s2) by (unfold s2; simpl; congruence).
  destruct (mm_free_spec s2 bs1 b Hrep2 Hb1 Hne2)
    as (bs' & f & [Hsf _] & Hf & Hff & _ & _ & Hout & Hkeep' & Hh' & _).
  rewrite Hs' in *.
  assert (Hx' : In x bs') by (apply Hkeep'; auto).
  assert (Ha' : In a bs') by (apply Hkeep'; auto).
  destruct (rep_block_words _ _ _ Hsf Hx') as [Hxs' _].
  destruct (rep_block_words _ _ _ Hsf Ha') as [Has2 _].
  destruct (hs_mem _ _ Hsf) as (Hc' & _).
  split; [apply (rep_allocated_block _ bs'); auto;
          rewrite Hh'; unfold s2; simpl; rewrite Hh1; exact Hxn|].
  split; [exact Hxs'|]. split.
  - intros addr Haddr. unfold OVERHEAD in Haddr.
    assert (Hxf : x <> f) by congruence.
    destruct (chain_disjoint _ _ _ _ _ Hc' Hx' Hf) as [Heq|Hdf]; [contradiction|].
    destruct (chain_disjoint _ _ _ _ _ Hc1 Hx1 Ha) as [Heq|Hda]; [contradiction|].
    pose proof (chain_bounds _ _ _ _ Hc' Hx') as Hbx.
    pose proof (chain_bounds _ _ _ _ Hc1 Ha) as Hbb.
    rewrite Hout by lia. rewrite Hcp by lia. apply Hxsame. lia.
  - rewrite <- Haa, Has2.
    destruct (chain_disjoint _ _ _ _ _ Hc' Hx' Ha') as [Heq|[H|H]];
      [contradiction|left; exact H|right; exact H].
Qed.

Lemma mm_realloc_returned (fuel : nat) (s : state) (ptr size p : Z) :
  returned (mm_realloc fuel s ptr size) = Some p ->
  mm_realloc fuel s ptr size = Returns p (realloc_state fuel s ptr size).
Proof.
  unfold realloc_state. generalize (mm_realloc fuel s ptr size).
  intros [v s'| |]; simpl; intros H; try discriminate.
  injection H as ->. reflexivity.
Qed.

Lemma mm_realloc_keeps_live_blocks_witness :
  allocated_block (realloc_state 6 heap3 4128 100) 4112
  /\ GET_SIZE (mem (realloc_state 6 heap3 4128 100)) (HDRP 4112)
     = GET_SIZE (mem heap3) (HDRP 4112).
Proof.
  assert (Hsize : 0 < 100 <= MAX_REQUEST) by (unfold MAX_REQUEST; lia).
  assert (Hne : 4112 <> 4128) by discriminate.
  assert (Hre : mm_realloc 6 heap3 4128 100
                = Returns 4160 (realloc_state 6 heap3 4128 100)).
  { apply mm_realloc_returned. vm_compute. reflexivity. }
  destruct (mm_realloc_keeps_live_blocks 6 heap3 4128 100 4160 _ 4112
              heap3_reachable heap3_block_4128 Hsize Hre heap3_block_4112 Hne)
    as (H1 & H2 & _).
  split; [exact H1|exact H2].
Defined.

(** X21: a failing [extend_heap].  When the rounded size does not fit
    an [int] or is not left in the memory source, [extend_heap] returns NULL
    and the state is untouched: no tag is written and the break stays. *)
Theorem extend_heap_failure (s : state) (words : Z) :
  2 ^ 31 <= extend_heap_size words
  \/ mem_max_addr s < mem_brk s + extend_heap_size words ->
  extend_heap s words = (NULL, s).
Proof.
  intros H. destruct (extend_heap_size_ok words) as [_ Hr].
  unfold extend_heap, mem_sbrk, to_int.
  destruct (Z.ltb_spec (extend_heap_size words) (2 ^ 31)) as [Hlt|Hge].
  - destruct H as [H|H]; [lia|].
    destruct (Z.ltb_spec (extend_heap_size words) 0); [lia|].
    destruct (Z.gtb_spec (mem_brk s + extend_heap_size words) (mem_max_addr s));
      [|lia].
    reflexivity.
  - destruct (Z.ltb_spec (extend_heap_size words - 2 ^ 32) 0); [|zlia].
    reflexivity.
Qed.

Lemma extend_heap_failure_witness :
  extend_heap heap_tight 2 = (NULL, heap_tight).
Proof.
  apply (extend_heap_failure heap_tight 2). right. vm_compute. reflexivity.
Defined.

(** The allocated blocks that [mm_free] leaves were allocated before, and
    none of them starts where the freed block started. *)
Lemma mm_free_blocks (s : state) (bs : list blk) (b : blk) :
  heap_rep s bs -> In b bs -> baddr b <> heap_listp s ->
  exists bs',
    heap_rep (mm_free s (baddr b)) bs'
    /\ forall x, In x bs' -> balloc x = true -> In x bs /\ baddr x <> baddr b.
Proof.
  intros [Hs Hn] Hin Hne.
  destruct (hs_prologue _ _ Hs) as [rest Hbs].
  assert (HbP : b <> mkBlk (heap_listp s) 8 true) by (intros ->; simpl in Hne; lia).
  rewrite Hbs in Hin.
  destruct (split_with_prev _ _ _ Hin HbP) as (L1 & p & L2 & HL).
  clear Hin. rewrite HL in Hbs. subst bs.
  destruct (heap_mem_In _ _ _ _ b (hs_mem _ _ Hs)) as (Ht & Hsz & Hmod & _); [in_list|].
  rewrite (mm_free_eq s b Ht Hsz Hmod).
  destruct (mark_free_shape s L1 L2 p b Hs) as [Hs1 _].
  destruct (naf_split _ _ _ _ Hn) as [Hn1 Hn2].
  set (s1 := set_mem s (put_tags (mem s) (baddr b) (bsize b) 0)) in *.
  destruct (coalesce_spec s1 L1 L2 p (freed b) Hs1 eq_refl Hn1 Hn2)
    as (bs' & f & Hco & _).
  simpl baddr in Hco.
  destruct Hco as (Hrep & _ & Hf & Hff & Hlo & Hhi & _ & _ & Hconv & _).
  simpl in Hlo, Hhi.
  exists bs'. split; [exact Hrep|]. intros x Hx Hxa.
  split.
  - destruct (Hconv x Hx) as [->|Hx']; [congruence|].
    assert (Hd : x = freed b \/ In x (L1 ++ p :: b :: L2)) by in_list.
    destruct Hd as [->|Hd]; [discriminate|exact Hd].
  - destruct Hrep as [Hs' _]. destruct (hs_mem _ _ Hs') as (Hc' & _).
    assert (Hxf : x <> f) by congruence.
    destruct (chain_disjoint _ _ _ _ _ Hc' Hx Hf) as [Heq|Hdis]; [contradiction|].
    pose proof (chain_bounds _ _ _ _ Hc' Hx). lia.
Qed.

(** X22: [mm_free] removes the freed block from the allocated blocks
    and changes nothing else about them: the blocks allocated after
    [mm_free(bp)] on a live block are those allocated before, without [bp]. *)
Theorem mm_free_live_blocks (s : state) (bp q : Z) :
  reachable s -> allocated_block s bp ->
  allocated_block (mm_free s bp) q <-> allocated_block s q /\ q <> bp.
Proof.
  intros Hr Hbp. destruct (reachable_heap_ok _ Hr) as [bs Hrep].
  pose proof Hrep as [Hs _].
  destruct (allocated_block_rep _ _ _ Hs Hbp) as (b & Hb & <- & Hba & Hbn).
  destruct (mm_free_blocks s bs b Hrep Hb Hbn) as (bs' & [Hs' _] & Hconv).
  destruct (mm_free_fields s (baddr b)) as (Hhl & _).
  split.
  - intros Hq.
    destruct (allocated_block_rep _ _ _ Hs' Hq) as (x & Hx & <- & Hxa & Hxn).
    destruct (Hconv x Hx Hxa) as [Hin Hne].
    split; [|exact Hne].
    apply (rep_allocated_block _ bs); auto. rewrite <- Hhl. exact Hxn.
  - intros [Hq Hne].
    destruct (allocated_block_rep _ _ _ Hs Hq) as (x & Hx & <- & Hxa & Hxn).
    destruct (mm_free_spec s bs b Hrep Hb Hbn)
      as (bs2 & f & [Hs2 _] & _ & _ & _ & _ & _ & Hkeep & _).
    apply (rep_allocated_block _ bs2); auto.
    + apply Hkeep; auto. congruence.
    + rewrite Hhl. exact Hxn.
Qed.

Lemma mm_free_live_blocks_witness :
  allocated_block (mm_free heap3 4128) 4112
  <-> allocated_block heap3 4112 /\ 4112 <> 4128.
Proof.
  apply (mm_free_live_blocks heap3 4128 4112).
  - exact heap3_reachable.
  - exact heap3_block_4128.
Defined.

(** The allocated blocks of the heap that a successful [extend_heap] leaves
    were allocated before. *)
Lemma extend_heap_blocks (s : state) (bs : list blk) (words : Z) :
  heap_rep s bs ->
  let size := extend_heap_size words in
  8 <= size -> size < 2 ^ 31 -> mem_brk s + size <= mem_max_addr s ->
  exists bs' f,
    heap_rep (snd (extend_heap s words)) bs'
    /\ fst (extend_heap s words) = baddr f /\ In f bs' /\ balloc f = false
    /\ size <= bsize f
    /\ forall x, In x bs' -> balloc x = true -> In x bs.
Proof.
  intros [Hs Hn] size Hsz Hlt Hfit.
  destruct (extend_heap_size_ok words) as [Hmod Hr]. fold size in Hmod, Hr.
  pose proof (hs_low _ _ Hs) as Hlow.
  destruct (hs_mem _ _ Hs) as (Hc & _).
  pose proof (chain_le _ _ _ Hc) as Hle.
  unfold extend_heap, mem_sbrk, to_int. fold size.
  destruct (Z.ltb_spec size (2 ^ 31)); [|zlia].
  destruct (Z.ltb_spec size 0); [zlia|].
  destruct (Z.gtb_spec (mem_brk s + size) (mem_max_addr s)); [lia|].
  simpl orb. cbv iota beta.
  destruct (Z.eqb_spec (mem_brk s) (-1)); [zlia|].
  destruct (extend_format_shape s bs size Hs) as [Hs1 _]; auto; try zlia.
  set (s1 := extend_heap_format (set_mem_brk s (mem_brk s + size)) (mem_brk s) size) in *.
  set (nb := mkBlk (mem_brk s) size false) in *.
  assert (Hne : bs <> []) by (destruct (hs_prologue _ _ Hs) as [rest ->]; discriminate).
  destruct (list_last_split _ bs Hne) as (L1 & p & HL).
  assert (HL' : bs ++ [nb] = L1 ++ p :: nb :: []).
  { rewrite HL, <- app_assoc. reflexivity. }
  rewrite HL' in Hs1.
  assert (Hn1 : naf (L1 ++ [p])) by (rewrite <- HL; exact Hn).
  destruct (coalesce_spec s1 L1 [] p nb Hs1 eq_refl Hn1 I) as (bs' & f & Hco & _).
  change (baddr nb) with (mem_brk s) in Hco.
  destruct Hco as (Hrep & Hr' & Hf & Hff & Hlo & Hhi & _ & _ & Hconv & _).
  simpl in Hlo, Hhi.
  exists bs', f. split; [exact Hrep|]. split; [exact Hr'|]. split; [exact Hf|].
  split; [exact Hff|]. split; [zlia|].
  intros x Hx Hxa. destruct (Hconv x Hx) as [->|Hx']; [congruence|].
  rewrite <- HL' in Hx'. apply in_app_iff in Hx'.
  destruct Hx' as [Hx'|[<-|[]]]; [exact Hx'|discriminate].
Qed.

(** The allocated blocks of the heap that a successful [mm_malloc] leaves are
    the block handed out and blocks that were allocated before. *)
Lemma mm_malloc_blocks (fuel : nat) (s : state) (bs : list blk) (size p : Z) (s' : state) :
  heap_rep s bs -> 0 < size <= 2 ^ 32 - 16 ->
  mm_malloc fuel s size = Returns p s' -> p <> NULL ->
  exists bs',
    heap_shape s' bs'
    /\ forall x, In x bs' -> balloc x = true -> baddr x = p \/ In x bs.
Proof.
  intros [Hs Hn] Hsize Hm Hp.
  destruct (adjusted_size_ok size Hsize) as (_ & Hr16 & Hmod & Hsz).
  set (asize := adjusted_size size) in *.
  set (big := Nat.max fuel (heap_fuel s)).
  assert (Hbig : enough_fuel s big) by (apply heap_fuel_enough; unfold big; lia).
  pose proof (hs_low _ _ Hs) as Hlow.
  unfold mm_malloc in Hm. destruct (Z.leb_spec size 0); [lia|]. fold asize in Hm.
  unfold find_fit in *.
  destruct (find_fit_from fuel s asize (next_fit_ptr s)) as [bp sc| |] eqn:Hf;
    try discriminate.
  pose proof (find_fit_from_mono _ _ _ big _ _ _ Hf) as Hf'.
  assert (Hplace : forall (t : state) (bt : list blk) (c : blk),
            heap_shape t bt -> In c bt -> balloc c = false -> asize <= bsize c ->
            let t2 := place t (baddr c) asize in
            exists bs',
              heap_shape (set_next_fit_ptr t2 (NEXT_BLKP (mem t2) (baddr c))) bs'
              /\ forall x, In x bs' -> balloc x = true ->
                           baddr x = baddr c \/ In x bt).
  { intros t bt c Ht Hc Hcf Hcs t2.
    destruct (in_split _ _ Hc) as (L1 & L2 & ->).
    exists (L1 ++ place_blocks c asize ++ L2).
    split; [apply place_step_blocks; auto; lia|].
    intros x Hx Hxa. rewrite !in_app_iff in Hx.
    destruct Hx as [Hx|[Hx|Hx]]; [right; in_list| |right; in_list].
    left. unfold place_blocks in Hx.
    destruct (_ >=? _); simpl in Hx;
      [destruct Hx as [<-|[<-|[]]]|destruct Hx as [<-|[]]];
      try reflexivity; discriminate. }
  destruct (find_fit_rep s bs big asize Hs Hbig)
    as [(b & Hb & [Hbf Hbs] & Hfit)|Hfit];
    unfold find_fit in Hfit; rewrite Hf' in Hfit by (unfold big; lia);
    injection Hfit as Hbp Hsc; subst bp sc.
  - destruct (heap_mem_In _ _ _ _ b (hs_mem _ _ Hs) Hb) as (_ & _ & _ & Hlo & _).
    unfold NULL in Hm. destruct (Z.eqb_spec (baddr b) 0); [lia|].
    simpl negb in Hm. cbv iota in Hm. injection Hm as Hpb Hs1. subst p s'.
    apply (Hplace (set_next_fit_ptr s (baddr b)) bs b); auto.
    apply set_cursor_shape; [exact Hs|]. left. eauto.
  - change (negb (NULL =? NULL)) with false in Hm. cbv iota in Hm.
    destruct (extend_request asize) as (Hreq & Hge & Hchunk); [lia|exact Hmod|].
    set (ext := MAX asize CHUNKSIZE) in *.
    set (sc := set_next_fit_ptr s (heap_listp s)) in *.
    assert (Hsc : heap_rep sc bs).
    { split; [|exact Hn]. apply set_cursor_shape; [exact Hs|]. left.
      destruct (hs_prologue _ _ Hs) as [rest ->]. eexists.
      split; [left; reflexivity|reflexivity]. }
    assert (H8 : 8 <= extend_heap_size (ext / WSIZE)) by (rewrite Hreq; lia).
    destruct (extend_heap_spec sc bs (ext / WSIZE) Hsc H8)
      as [[Hfail _]|(Hlt & Hroom & _)].
    + rewrite Hfail in Hm. simpl in Hm. injection Hm as Hpn _.
      exfalso. apply Hp. symmetry. exact Hpn.
    + destruct (extend_heap_blocks sc bs (ext / WSIZE) Hsc H8 Hlt Hroom)
        as (bs2 & f & [Hs2 _] & Hr2 & Hfin & Hff & Hfs & Hconv).
      destruct (extend_heap sc (ext / WSIZE)) as [r s2] eqn:He.
      simpl in Hs2, Hr2. subst r.
      destruct (baddr f =? NULL); injection Hm as Hpn Hs1;
        [exfalso; apply Hp; symmetry; exact Hpn|].
      subst p s'.
      destruct (Hplace s2 bs2 f Hs2 Hfin Hff) as (bs' & Hs' & Hall);
        [rewrite Hreq in Hfs; lia|].
      exists bs'. split; [exact Hs'|].
      intros x Hx Hxa. destruct (Hall x Hx Hxa) as [Hxp|Hxin]; [left; exact Hxp|].
      right. apply Hconv; assumption.
Qed.

(** X23: [mm_malloc] adds the block it returns to the allocated blocks
    and changes nothing else about them.  After a request of a positive size
    in range the allocated blocks are those allocated before together with the
    returned block, which was not allocated before; when NULL is returned
    they are those allocated before. *)
Theorem mm_malloc_live_blocks (fuel : nat) (s : state) (size p : Z) (s' : state) (q : Z) :
  reachable s -> 0 < size <= MAX_REQUEST ->
  mm_malloc fuel s size = Returns p s' ->
  (allocated_block s' q <-> allocated_block s q \/ (p <> NULL /\ q = p))
  /\ (p <> NULL -> ~ allocated_block s p).
Proof.
  intros Hr Hsize Hm. destruct (reachable_heap_ok _ Hr) as [bs Hrep].
  pose proof Hrep as [Hs _]. unfold MAX_REQUEST in Hsize.
  destruct (adjusted_size_ok size Hsize) as (_ & Hr16 & _ & _).
  destruct (mm_malloc_grows _ _ _ _ _ Hm) as (Hhl & _).
  destruct (mm_malloc_returns _ _ _ _ _ _ Hrep Hsize Hm)
    as [(Hnull & [Hs' _] & Hmem & _)
       |(Hp & bs1 & a & [Hs1 _] & Ha & Hpa & Haa & Hfit & Hkept & _)].
  - split; [|intros Hp; contradiction].
    split.
    + intros Hq. left.
      destruct (allocated_block_rep _ _ _ Hs' Hq) as (x & Hx & <- & Hxa & Hxn).
      apply (rep_allocated_block _ bs); auto. rewrite <- Hhl. exact Hxn.
    + intros [Hq|[Hp _]]; [|contradiction].
      destruct (allocated_block_rep _ _ _ Hs Hq) as (x & Hx & <- & Hxa & Hxn).
      apply (rep_allocated_block _ bs); auto. rewrite Hhl. exact Hxn.
  - destruct (hs_mem _ _ Hs1) as (Hc1 & _).
    assert (Hfresh : ~ allocated_block s p).
    { intros Hq.
      destruct (allocated_block_rep _ _ _ Hs Hq) as (x & Hx & Hxp & Hxa & _).
      destruct (Hkept x Hx Hxa) as (Hx1 & Hxne & _).
      apply Hxne. apply (chain_addr_inj _ _ _ _ _ Hc1 Hx1 Ha). congruence. }
    split; [|intros _; exact Hfresh].
    split.
    + intros Hq.
      destruct (mm_malloc_blocks _ _ _ _ _ _ Hrep Hsize Hm Hp) as (bs' & Hs' & Hall).
      destruct (allocated_block_rep _ _ _ Hs' Hq) as (x & Hx & <- & Hxa & Hxn).
      destruct (Hall x Hx Hxa) as [Hxp|Hin]; [right; split; assumption|].
      left. apply (rep_allocated_block _ bs); auto. rewrite <- Hhl. exact Hxn.
    + intros [Hq|[_ ->]].
      * destruct (allocated_block_rep _ _ _ Hs Hq) as (x & Hx & <- & Hxa & Hxn).
        destruct (Hkept x Hx Hxa) as (Hx1 & _).
        apply (rep_allocated_block _ bs1); auto. rewrite Hhl. exact Hxn.
      * rewrite <- Hpa. apply (rep_allocated_block _ bs1); auto.
        pose proof (rep_behind_prologue _ _ _ Hs1 Ha). lia.
Qed.

Lemma mm_malloc_live_blocks_witness :
  (allocated_block heap1 4112
   <-> allocated_block heap0 4112 \/ (4112 <> NULL /\ 4112 = 4112))
  /\ (4112 <> NULL -> ~ allocated_block heap0 4112).
Proof.
  apply (mm_malloc_live_blocks 3 heap0 8 4112 heap1 4112).
  - exact heap0_reachable.
  - unfold MAX_REQUEST. lia.
  - exact heap1_malloc.
Defined.
